(** * HeritageBot front end: the conversation store of [App.jsx]

    A shallow embedding of the React state container of
    [frontend/src/App.jsx], of the submit guard of
    [frontend/src/components/ChatInput.jsx] and of the fetch wrapper
    [sendMessage] of [frontend/src/lib/api.js], together with the browser
    services they call: [String.prototype.trim] and [slice],
    [JSON.parse] and [JSON.stringify] over the [localStorage] item
    [heritagebot_conversations], and the conversions [ToBoolean] and
    [ToString] of the values a response body can hold.

    React state is threaded explicitly: every handler is a function from the
    state of the last render to the next state.  An [await] splits
    [handleSendMessage] in two: the synchronous part up to the call of
    [sendMessage], and the continuation that runs when the promise settles.
    The continuation keeps the variables its closure captured ([userMsg],
    [loadingMsg], [selectedModel], [currentConversationId]); the functional
    updates [setMessages(prev => ...)] read the state of the moment they
    run.

    The file has two parts: the definitions, then the properties. *)

From Stdlib Require Import ZArith NArith List Bool Lia String Ascii.
From Stdlib Require Decimal DecimalFacts DecimalPos DecimalN.
Import ListNotations.
Open Scope Z_scope.

Set Warnings "-register-all".

(** * Part I: definitions *)

(** ** JavaScript strings *)

(** A JavaScript string is a sequence of UTF-16 code units. *)
Definition jsstring := list N.

Fixpoint js (s : string) : jsstring :=
  match s with
  | EmptyString => []
  | String c r => N_of_ascii c :: js r
  end.

(** A string literal of a JSON text: the characters between double quotes. *)
Definition dq (s : string) : jsstring := 34%N :: js s ++ [34%N].

(** [a === b] on strings. *)
Fixpoint jsstring_eqb (a b : jsstring) : bool :=
  match a, b with
  | [], [] => true
  | x :: a', y :: b' => (x =? y)%N && jsstring_eqb a' b'
  | _, _ => false
  end.

(** [if (s)] on a string: the empty string is the only falsy one. *)
Definition truthy_string (s : jsstring) : bool :=
  match s with [] => false | _ :: _ => true end.

(** [a || b] on strings. *)
Definition or_string (a b : jsstring) : jsstring :=
  if truthy_string a then a else b.

(** ECMAScript WhiteSpace and LineTerminator code points, the characters
    [String.prototype.trim] strips: TAB, LF, VT, FF, CR, SP, NBSP, the Zs
    category, LS, PS and the byte order mark. *)
Definition is_js_whitespace (c : N) : bool :=
  ((9 <=? c) && (c <=? 13) || (c =? 32) || (c =? 160) || (c =? 5760)
   || ((8192 <=? c) && (c <=? 8202)) || (c =? 8232) || (c =? 8233)
   || (c =? 8239) || (c =? 8287) || (c =? 12288) || (c =? 65279))%N.

Arguments is_js_whitespace : simpl never.

Fixpoint trimStart (s : jsstring) : jsstring :=
  match s with
  | [] => []
  | c :: r => if is_js_whitespace c then trimStart r else s
  end.

Definition trimEnd (s : jsstring) : jsstring := rev (trimStart (rev s)).

Definition trim (s : jsstring) : jsstring := trimEnd (trimStart s).

(** [s.slice(0, n)]. *)
Definition slice0 (n : nat) (s : jsstring) : jsstring := firstn n s.

(** The text is empty or made of whitespace only. *)
Definition blank (s : jsstring) : Prop := Forall (fun c => is_js_whitespace c = true) s.

(** ** JSON values, [JSON.stringify] and [JSON.parse] *)

(** A number literal [int.frac e exp] is kept as the exact decimal
    [mantissa * 10 ^ exponent] it denotes (JavaScript rounds it to a double:
    [Js.to_double] below does so where a number is converted).  The application only writes integers,
    millisecond time stamps and message counts, which have exponent 0.  An
    object keeps its members in insertion order (keys that look like array
    indices, which JavaScript enumerates first, do not occur here).  Code
    units are not bounded by 65535: nothing below depends on the bound. *)
Inductive json : Type :=
| JNull
| JBool (b : bool)
| JNumber (mantissa exponent : Z)
| JString (s : jsstring)
| JArray (items : list json)
| JObject (members : list (jsstring * json)).

Module Json.

(** *** Printing *)

Fixpoint uint_digits (u : Decimal.uint) : jsstring :=
  match u with
  | Decimal.Nil => []
  | Decimal.D0 r => 48%N :: uint_digits r
  | Decimal.D1 r => 49%N :: uint_digits r
  | Decimal.D2 r => 50%N :: uint_digits r
  | Decimal.D3 r => 51%N :: uint_digits r
  | Decimal.D4 r => 52%N :: uint_digits r
  | Decimal.D5 r => 53%N :: uint_digits r
  | Decimal.D6 r => 54%N :: uint_digits r
  | Decimal.D7 r => 55%N :: uint_digits r
  | Decimal.D8 r => 56%N :: uint_digits r
  | Decimal.D9 r => 57%N :: uint_digits r
  end.

(** Decimal digits of a natural number, ["0"] for zero. *)
Definition decimal_N (n : N) : jsstring := uint_digits (N.to_uint n).

(** [String(z)] for an integer [z] (below the [1e21] threshold where
    JavaScript switches to exponent notation). *)
Definition decimal_Z (z : Z) : jsstring :=
  if z <? 0 then 45%N :: decimal_N (Z.abs_N z) else decimal_N (Z.abs_N z).

Definition hex_digit (d : N) : N := (if d <? 10 then 48 + d else 87 + d)%N.

(** [\uXXXX] with lower-case hexadecimal digits. *)
Definition unicode_escape (c : N) : jsstring :=
  [92; 117; hex_digit ((c / 4096) mod 16); hex_digit ((c / 256) mod 16);
   hex_digit ((c / 16) mod 16); hex_digit (c mod 16)]%N.

Definition is_high_surrogate (c : N) : bool := ((55296 <=? c) && (c <=? 56319))%N.
Definition is_low_surrogate (c : N) : bool := ((56320 <=? c) && (c <=? 57343))%N.

(** QuoteJSONString, character by character: the two-character escapes,
    [\u00XX] for the other control characters, [\uDXXX] for a surrogate
    that is not part of a pair. *)
Fixpoint quote_chars (s : jsstring) : jsstring :=
  match s with
  | [] => []
  | c :: r =>
      if (c =? 8)%N then [92; 98]%N ++ quote_chars r
      else if (c =? 9)%N then [92; 116]%N ++ quote_chars r
      else if (c =? 10)%N then [92; 110]%N ++ quote_chars r
      else if (c =? 12)%N then [92; 102]%N ++ quote_chars r
      else if (c =? 13)%N then [92; 114]%N ++ quote_chars r
      else if (c =? 34)%N then [92; 34]%N ++ quote_chars r
      else if (c =? 92)%N then [92; 92]%N ++ quote_chars r
      else if (c <? 32)%N then unicode_escape c ++ quote_chars r
      else if is_high_surrogate c then
        match r with
        | d :: r' =>
            if is_low_surrogate d then c :: d :: quote_chars r'
            else unicode_escape c ++ quote_chars r
        | [] => unicode_escape c
        end
      else if is_low_surrogate c then unicode_escape c ++ quote_chars r
      else c :: quote_chars r
  end.

Definition quote (s : jsstring) : jsstring := 34%N :: quote_chars s ++ [34%N].

(** A number with exponent 0 is printed as the integer it is; the form
    with an exponent is only there to make [stringify] total. *)
Definition stringify_number (m e : Z) : jsstring :=
  if e =? 0 then decimal_Z m else decimal_Z m ++ 101%N :: decimal_Z e.

(** Texts joined by commas. *)
Fixpoint join (l : list jsstring) : jsstring :=
  match l with
  | [] => []
  | [x] => x
  | x :: r => x ++ 44%N :: join r
  end.

(** [JSON.stringify(v)], without indentation. *)
Fixpoint stringify (v : json) : jsstring :=
  match v with
  | JNull => js "null"
  | JBool true => js "true"
  | JBool false => js "false"
  | JNumber m e => stringify_number m e
  | JString s => quote s
  | JArray items => 91%N :: join (map stringify items) ++ [93%N]
  | JObject members =>
      123%N :: join (map (fun kv => quote (fst kv) ++ 58%N :: stringify (snd kv)) members)
        ++ [125%N]
  end.

(** The text of one member of an object. *)
Definition member_text (kv : jsstring * json) : jsstring :=
  quote (fst kv) ++ 58%N :: stringify (snd kv).

(** *** Parsing *)

(** JSON white space: space, tab, line feed, carriage return. *)
Definition is_json_ws (c : N) : bool :=
((c =? 32) || (c =? 9) || (c =? 10) || (c =? 13))%N.

Fixpoint skip_ws (s : jsstring) : jsstring :=
match s with
| c :: r => if is_json_ws c then skip_ws r else s
| [] => []
end.

Definition is_digit (c : N) : bool := ((48 <=? c) && (c <=? 57))%N.

Definition hex_value (c : N) : option N :=
if is_digit c then Some (c - 48)%N
else if ((97 <=? c) && (c <=? 102))%N then Some (c - 87)%N
else if ((65 <=? c) && (c <=? 70))%N then Some (c - 55)%N
else None.

Definition hex4 (a b c d : N) : option N :=
match hex_value a, hex_value b, hex_value c, hex_value d with
| Some x, Some y, Some z, Some w => Some (x * 4096 + y * 256 + z * 16 + w)%N
| _, _, _, _ => None
end.

(** The characters of a string literal after the opening quote, up to and
  including the closing quote. *)
Fixpoint parse_chars (s : jsstring) : option (jsstring * jsstring) :=
match s with
| [] => None
| c :: r =>
    if (c =? 34)%N then Some ([], r)
    else if (c <? 32)%N then None
    else if (c =? 92)%N then
      match r with
      | [] => None
      | e :: r1 =>
          let simple (x : N) :=
            match parse_chars r1 with
            | Some (t, rest) => Some (x :: t, rest)
            | None => None
            end in
          if (e =? 34)%N then simple 34%N
          else if (e =? 92)%N then simple 92%N
          else if (e =? 47)%N then simple 47%N
          else if (e =? 98)%N then simple 8%N
          else if (e =? 102)%N then simple 12%N
          else if (e =? 110)%N then simple 10%N
          else if (e =? 114)%N then simple 13%N
          else if (e =? 116)%N then simple 9%N
          else if (e =? 117)%N then
            match r1 with
            | h1 :: h2 :: h3 :: h4 :: r2 =>
                match hex4 h1 h2 h3 h4, parse_chars r2 with
                | Some x, Some (t, rest) => Some (x :: t, rest)
                | _, _ => None
                end
            | _ => None
            end
          else None
      end
    else
      match parse_chars r with
      | Some (t, rest) => Some (c :: t, rest)
      | None => None
      end
end.

(** The longest prefix of digits, as the number it denotes and its length. *)
Fixpoint digits (acc : N) (n : nat) (s : jsstring) : N * nat * jsstring :=
match s with
| c :: r => if is_digit c then digits (acc * 10 + (c - 48))%N (S n) r else (acc, n, s)
| [] => (acc, n, [])
end.

(** fraction part: [. digit+] or nothing *)
Definition parse_frac (int : N) (s : jsstring) : option (N * nat * jsstring) :=
match s with
| c :: r =>
    if (c =? 46)%N then
      match digits int 0 r with
      | (_, O, _) => None
      | (m, n, rest) => Some (m, n, rest)
      end
    else Some (int, O, s)
| [] => Some (int, O, [])
end.

(** exponent part: [(e|E) (+|-)? digit+] or nothing *)
Definition parse_exp (s : jsstring) : option (Z * jsstring) :=
match s with
| c :: r =>
    if ((c =? 101) || (c =? 69))%N then
      let '(neg, r1) :=
        match r with
        | sg :: r' =>
            if (sg =? 45)%N then (true, r')
            else if (sg =? 43)%N then (false, r') else (false, r)
        | [] => (false, r)
        end in
      match digits 0 0 r1 with
      | (_, O, _) => None
      | (x, _, rest) => Some (if neg then - Z.of_N x else Z.of_N x, rest)
      end
    else Some (0, s)
| [] => Some (0, [])
end.

(** sign: [-] or nothing *)
Definition parse_sign (s : jsstring) : bool * jsstring :=
  match s with
  | c :: r => if (c =? 45)%N then (true, r) else (false, s)
  | [] => (false, s)
  end.

(** integer part: [0] or [[1-9] digit*] *)
Definition parse_int (s : jsstring) : option (N * jsstring) :=
  match s with
  | c :: r =>
      if (c =? 48)%N then Some (0%N, r)
      else if is_digit c then
        let '(i, _, rest) := digits 0 0 s in Some (i, rest)
      else None
  | [] => None
  end.

(** [-? (0 | [1-9] digit* ) frac? exp?] *)
Definition parse_number (s : jsstring) : option (json * jsstring) :=
  let '(neg, s1) := parse_sign s in
  match parse_int s1 with
  | None => None
  | Some (i, s2) =>
      match parse_frac i s2 with
      | None => None
      | Some (m, nfrac, s3) =>
          match parse_exp s3 with
          | None => None
          | Some (e, s4) =>
              Some (JNumber (if neg then - Z.of_N m else Z.of_N m)
                            (e - Z.of_nat nfrac), s4)
          end
      end
  end.

Fixpoint starts_with (lit s : jsstring) : option jsstring :=
match lit, s with
| [], _ => Some s
| a :: lit', b :: s' => if (a =? b)%N then starts_with lit' s' else None
| _ :: _, [] => None
end.

(** CreateDataProperty on an object under construction: a repeated key keeps
  its place and takes the new value. *)
Fixpoint set_member (k : jsstring) (v : json) (l : list (jsstring * json))
: list (jsstring * json) :=
match l with
| [] => [(k, v)]
| (k', v') :: r =>
    if jsstring_eqb k k' then (k', v) :: r else (k', v') :: set_member k v r
end.

(** Recursive descent.  Every call takes one unit of fuel; [parse] below
  gives enough of it for the whole text. *)
Fixpoint parse_value (fuel : nat) (s : jsstring) : option (json * jsstring) :=
match fuel with
| O => None
| S fuel' =>
    match s with
    | [] => None
    | c :: r =>
        if (c =? 110)%N then
          match starts_with (js "ull") r with
          | Some rest => Some (JNull, rest) | None => None end
        else if (c =? 116)%N then
          match starts_with (js "rue") r with
          | Some rest => Some (JBool true, rest) | None => None end
        else if (c =? 102)%N then
          match starts_with (js "alse") r with
          | Some rest => Some (JBool false, rest) | None => None end
        else if (c =? 34)%N then
          match parse_chars r with
          | Some (t, rest) => Some (JString t, rest) | None => None end
        else if (c =? 91)%N then
          match skip_ws r with
          | d :: r' =>
              if (d =? 93)%N then Some (JArray [], r')
              else
                match parse_elements fuel' (d :: r') with
                | Some (l, rest) => Some (JArray l, rest)
                | None => None
                end
          | [] => None
          end
        else if (c =? 123)%N then
          match skip_ws r with
          | d :: r' =>
              if (d =? 125)%N then Some (JObject [], r')
              else
                match parse_members fuel' [] (d :: r') with
                | Some (l, rest) => Some (JObject l, rest)
                | None => None
                end
          | [] => None
          end
        else parse_number s
    end
end

with parse_elements (fuel : nat) (s : jsstring) : option (list json * jsstring) :=
match fuel with
| O => None
| S fuel' =>
    match parse_value fuel' s with
    | None => None
    | Some (v, r) =>
        match skip_ws r with
        | c :: r' =>
            if (c =? 44)%N then
              match parse_elements fuel' (skip_ws r') with
              | Some (l, rest) => Some (v :: l, rest)
              | None => None
              end
            else if (c =? 93)%N then Some ([v], r')
            else None
        | [] => None
        end
    end
end

with parse_members (fuel : nat) (acc : list (jsstring * json)) (s : jsstring)
: option (list (jsstring * json) * jsstring) :=
match fuel with
| O => None
| S fuel' =>
    match s with
    | q :: r0 =>
        if (q =? 34)%N then
          match parse_chars r0 with
          | None => None
          | Some (k, r1) =>
              match skip_ws r1 with
              | colon :: r2 =>
                  if (colon =? 58)%N then
                    match parse_value fuel' (skip_ws r2) with
                    | None => None
                    | Some (v, r3) =>
                        let acc' := set_member k v acc in
                        match skip_ws r3 with
                        | c :: r4 =>
                            if (c =? 44)%N then parse_members fuel' acc' (skip_ws r4)
                            else if (c =? 125)%N then Some (acc', r4)
                            else None
                        | [] => None
                        end
                    end
                  else None
              | [] => None
              end
          end
        else None
    | [] => None
    end
end.

(** [JSON.parse(text)]: [None] stands for the [SyntaxError] it throws. *)
Definition parse (text : jsstring) : option json :=
match parse_value (2 * List.length text + 2) (skip_ws text) with
| Some (v, rest) =>
    match skip_ws rest with
    | [] => Some v
    | _ :: _ => None
    end
| None => None
end.

(** [obj[k]] on the members of an object. *)
Fixpoint get (k : jsstring) (members : list (jsstring * json)) : option json :=
  match members with
  | [] => None
  | (k', v) :: r => if jsstring_eqb k k' then Some v else get k r
  end.

End Json.

(** ** Conversions of values: [ToBoolean], [ToString] *)

Module Js.

(** *** Numbers *)

(** The magnitude of an IEEE 754 binary64 value: [f * 2 ^ q] with
    [2 ^ 52 <= f < 2 ^ 53] and [-1074 <= q <= 971], or with [0 < f < 2 ^ 52]
    and [q = -1074] (a subnormal). *)
Inductive double : Type :=
| Zero
| Finite (f q : Z)
| Infinity.

(** [a / b] rounded to the nearest integer, ties to even. *)
Definition round_half_even (a b : Z) : Z :=
  let qt := a / b in
  let r := a mod b in
  if 2 * r <? b then qt
  else if b <? 2 * r then qt + 1
  else if Z.even qt then qt else qt + 1.

(** [m * 10 ^ e] as a fraction. *)
Definition decimal_ratio (m e : Z) : Z * Z :=
  if 0 <=? e then (m * 10 ^ e, 1) else (m, 10 ^ (- e)).

(** [f * 2 ^ q] as a fraction. *)
Definition binary_ratio (f q : Z) : Z * Z :=
  if 0 <=? q then (f * 2 ^ q, 1) else (f, 2 ^ (- q)).

(** The integer part of the binary logarithm of [num / den]. *)
Definition floor_log2 (num den : Z) : Z :=
  let lq := Z.log2 num - Z.log2 den in
  if (if 0 <=? lq then den * 2 ^ lq <=? num else den <=? num * 2 ^ (- lq))
  then lq else lq - 1.

(** [num / den / 2 ^ q], rounded. *)
Definition scaled (num den q : Z) : Z :=
  if 0 <=? q then round_half_even num (den * 2 ^ q)
  else round_half_even (num * 2 ^ (- q)) den.

(** The Number value of the decimal [m * 10 ^ e], [0 <= m]: the nearest
    binary64 value, ties to even.  The first two tests only spare the
    computation of a large power: above [10 ^ 401] every decimal is
    [Infinity], and below [10 ^ -400] every decimal is [0]. *)
Definition to_double (m e : Z) : double :=
  if m <=? 0 then Zero
  else if 400 <? e then Infinity
  else if e + Z.of_nat (List.length (Json.decimal_Z m)) <? -400 then Zero
  else
    let '(num, den) := decimal_ratio m e in
    let q := Z.max (floor_log2 num den - 52) (-1074) in
    let f := scaled num den q in
    let '(f, q) := if f =? 2 ^ 53 then (2 ^ 52, q + 1) else (f, q) in
    if f =? 0 then Zero else if 971 <? q then Infinity else Finite f q.

(** [num / den < 10 ^ n] *)
Definition below_power (num den n : Z) : bool :=
  if 0 <=? n then num <? den * 10 ^ n else num * 10 ^ (- n) <? den.

Fixpoint decimal_exponent_from (fuel : nat) (num den n : Z) : Z :=
  match fuel with
  | O => n
  | S fuel' =>
      if below_power num den n then n
      else decimal_exponent_from fuel' num den (n + 1)
  end.

(** The [n] with [10 ^ (n - 1) <= num / den < 10 ^ n], for the value of a
    double: it is within 2 of the estimate. *)
Definition decimal_exponent (num den : Z) : Z :=
  decimal_exponent_from 8 num den ((Z.log2 num - Z.log2 den) * 30103 / 100000 - 2).

(** The decimal [s * 10 ^ p] has the Number value [f * 2 ^ q]. *)
Definition reads_as (f q s p : Z) : bool :=
  match to_double s p with
  | Finite f' q' => (f' =? f) && (q' =? q)
  | _ => false
  end.

(** The digits of Number::toString: the least [k] for which a decimal of
    [k] digits has the Number value [x = num / den], and of these decimals
    the one closest to [x] (the even one when two are as close).  Of the
    decimals of [k] digits only the two next to [x] can be the closest. *)
Fixpoint shortest (fuel : nat) (f q num den n k : Z) : Z * Z :=
  let p := n - k in
  let lo := if 0 <=? p then num / (den * 10 ^ p) else num * 10 ^ (- p) / den in
  match fuel with
  | O => (lo, p)
  | S fuel' =>
      match reads_as f q lo p, reads_as f q (lo + 1) p with
      | true, true =>
          match (if 0 <=? p
                 then 2 * num ?= (2 * lo + 1) * 10 ^ p * den
                 else 2 * num * 10 ^ (- p) ?= (2 * lo + 1) * den) with
          | Lt => (lo, p)
          | Gt => (lo + 1, p)
          | Eq => if Z.even lo then (lo, p) else (lo + 1, p)
          end
      | true, false => (lo, p)
      | false, true => (lo + 1, p)
      | false, false => shortest fuel' f q num den n (k + 1)
      end
  end.

(** [s * 10 ^ p] without trailing zeros in [s]. *)
Fixpoint strip_zeros (fuel : nat) (s p : Z) : Z * Z :=
  match fuel with
  | O => (s, p)
  | S fuel' =>
      if (0 <? s) && (s mod 10 =? 0) then strip_zeros fuel' (s / 10) (p + 1) else (s, p)
  end.

Definition zeros (n : Z) : jsstring := repeat 48%N (Z.to_nat n).

(** The text of [s * 10 ^ p]: with [k] the number of digits of [s] and
    [n = p + k], plain digits when [0 < n <= 21], [0.00ddd] when
    [-6 < n <= 0], and the exponent form otherwise. *)
Definition format (s p : Z) : jsstring :=
  let digits := Json.decimal_Z s in
  let k := Z.of_nat (List.length digits) in
  let n := p + k in
  if (k <=? n) && (n <=? 21) then digits ++ zeros (n - k)
  else if (0 <? n) && (n <=? 21)
  then firstn (Z.to_nat n) digits ++ 46%N :: skipn (Z.to_nat n) digits
  else if (-6 <? n) && (n <=? 0) then 48%N :: 46%N :: zeros (- n) ++ digits
  else
    let exponent := (if 0 <? n - 1 then 43%N else 45%N) :: Json.decimal_Z (Z.abs (n - 1)) in
    match digits with
    | [] => []
    | [d] => d :: 101%N :: exponent
    | d :: rest => d :: 46%N :: rest ++ 101%N :: exponent
    end.

(** [String(x)] for the number the literal [m * 10 ^ e] is parsed to. *)
Definition Number_toString (m e : Z) : jsstring :=
  match to_double (Z.abs m) e with
  | Zero => js "0"
  | Infinity => if m <? 0 then js "-Infinity" else js "Infinity"
  | Finite f q =>
      let '(num, den) := binary_ratio f q in
      let '(s, p) := shortest 17 f q num den (decimal_exponent num den) 1 in
      let '(s, p) := strip_zeros 20 s p in
      if m <? 0 then 45%N :: format s p else format s p
  end.

(** *** Values *)

(** ToBoolean: [null], [false], [0] and the empty string are falsy. *)
Definition ToBoolean (v : json) : bool :=
  match v with
  | JNull => false
  | JBool b => b
  | JNumber m e => match to_double (Z.abs m) e with Zero => false | _ => true end
  | JString s => truthy_string s
  | JArray _ | JObject _ => true
  end.

Fixpoint all_some {A : Type} (l : list (option A)) : option (list A) :=
  match l with
  | [] => Some []
  | Some x :: r => match all_some r with Some xs => Some (x :: xs) | None => None end
  | None :: _ => None
  end.

(** ToString of a value [JSON.parse] made; [None] when it throws a
    TypeError.  An array is its elements joined by commas, [null] counting
    as the empty string.  An object is [[object Object]] by
    [Object.prototype.toString], unless it has a member [toString] of its
    own: that member is not callable, [valueOf] gives no primitive, and the
    conversion throws. *)
Fixpoint ToString (v : json) : option jsstring :=
  match v with
  | JNull => Some (js "null")
  | JBool true => Some (js "true")
  | JBool false => Some (js "false")
  | JNumber m e => Some (Number_toString m e)
  | JString s => Some s
  | JArray items =>
      option_map Json.join
        (all_some (map (fun item => match item with
                                    | JNull => Some []
                                    | _ => ToString item
                                    end) items))
  | JObject members =>
      match Json.get (js "toString") members with
      | Some _ => None
      | None => Some (js "[object Object]")
      end
  end.

(** The message of that TypeError, which the engine chooses: the one of
    V8. *)
Definition cannot_convert : jsstring := js "Cannot convert object to primitive value".

End Js.

(** ** Data model *)

(** A message of the active list: [userMsg] has no [modelId] and no
    [isTyping] property, [loadingMsg] has both. *)
Module Message.
Record t : Type := mk {
  id : Z;
  text : jsstring;
  isUser : bool;
  modelId : option jsstring;
  timestamp : jsstring;
  isTyping : option bool
}.

(** Properties in the order the object literals of [handleSendMessage]
    define them; an absent property is not written. *)
Definition to_json (m : t) : json :=
  JObject
    ([(js "id", JNumber (id m) 0); (js "text", JString (text m));
      (js "isUser", JBool (isUser m))]
     ++ match modelId m with Some x => [(js "modelId", JString x)] | None => [] end
     ++ [(js "timestamp", JString (timestamp m))]
     ++ match isTyping m with Some b => [(js "isTyping", JBool b)] | None => [] end).

(** The typed view of a parsed value that has the shape of a message, in
    whatever order its properties come; other properties are ignored. *)
Definition of_json (v : json) : option t :=
  match v with
  | JObject ms =>
      match Json.get (js "id") ms, Json.get (js "text") ms,
            Json.get (js "isUser") ms, Json.get (js "timestamp") ms with
      | Some (JNumber i 0), Some (JString x), Some (JBool u), Some (JString ts) =>
          match Json.get (js "modelId") ms, Json.get (js "isTyping") ms with
          | None, None => Some (mk i x u None ts None)
          | Some (JString m), None => Some (mk i x u (Some m) ts None)
          | None, Some (JBool b) => Some (mk i x u None ts (Some b))
          | Some (JString m), Some (JBool b) => Some (mk i x u (Some m) ts (Some b))
          | _, _ => None
          end
      | _, _, _, _ => None
      end
  | _ => None
  end.
End Message.

(** All the values of a list have a typed view. *)
Fixpoint sequence {A : Type} (l : list (option A)) : option (list A) :=
  match l with
  | [] => Some []
  | Some x :: r => match sequence r with Some xs => Some (x :: xs) | None => None end
  | None :: _ => None
  end.

Module Conversation.
Record t : Type := mk {
  id : Z;
  title : jsstring;
  messages : list Message.t;
  messageCount : Z;
  createdAt : jsstring
}.

Definition to_json (c : t) : json :=
  JObject
    [(js "id", JNumber (id c) 0); (js "title", JString (title c));
     (js "messages", JArray (map Message.to_json (messages c)));
     (js "messageCount", JNumber (messageCount c) 0);
     (js "createdAt", JString (createdAt c))].

(** The typed view of a parsed value that has the shape of a conversation. *)
Definition of_json (v : json) : option t :=
  match v with
  | JObject ms =>
      match Json.get (js "id") ms, Json.get (js "title") ms, Json.get (js "messages") ms,
            Json.get (js "messageCount") ms, Json.get (js "createdAt") ms with
      | Some (JNumber i 0), Some (JString x), Some (JArray l), Some (JNumber n 0),
        Some (JString ts) =>
          match sequence (map Message.of_json l) with
          | Some msgs => Some (mk i x msgs n ts)
          | None => None
          end
      | _, _, _, _, _ => None
      end
  | _ => None
  end.
End Conversation.

(** [JSON.stringify(conversations)]. *)
Definition conversations_to_json (cs : list Conversation.t) : json :=
  JArray (map Conversation.to_json cs).

Definition stringify_conversations (cs : list Conversation.t) : jsstring :=
  Json.stringify (conversations_to_json cs).

(** The typed view of a parsed collection. *)
Definition conversations_of_json (v : json) : option (list Conversation.t) :=
  match v with
  | JArray l => sequence (map Conversation.of_json l)
  | _ => None
  end.

(** ** [lib/api.js]: [sendMessage] *)

Module Api.

(** Success body [{answer, model_used}]. *)
Record chat_body : Type := { answer : jsstring; model_used : jsstring }.

(** What [fetch] and [response.json()] can do.  [response.ok] holds for
    the statuses 200 to 299, so a response is given with its side.  The body
    of a 2xx response has the type the interface of the service gives it;
    the body of any other response is given as its text, which
    [sendMessage] parses and converts itself. *)
Inductive outcome : Type :=
| FetchRejects (message : jsstring)
    (** network error: [fetch] rejects with an [Error] *)
| ResponseOk (body : jsstring + chat_body)
    (** 2xx; [inl message] when [response.json()] rejects *)
| ResponseNotOk (status : Z) (body : jsstring)
    (** other status, with the text of its body *).

Record response : Type := { r_answer : jsstring; r_modelUsed : jsstring }.

(** A settled promise: the value returned or the [message] of the error
    thrown. *)
Inductive settled : Type :=
| Returns (r : response)
| Throws (message : jsstring).

Definition http_error (status : Z) : jsstring :=
  js "HTTP error! status: " ++ Json.decimal_Z status.

(** [errorData?.detail], for the [errorData] that
    [await response.json().catch(() => null)] gives: [None] stands for
    [null], the value of a body that is no JSON.  The member is [undefined]
    (here [None]) unless [errorData] is an object that has it. *)
Definition detail (errorData : option json) : option json :=
  match errorData with
  | Some (JObject members) => Json.get (js "detail") members
  | _ => None
  end.

(** The message of
    [new Error(errorData?.detail || `HTTP error! status: ${response.status}`)]:
    [new Error(x)] takes [String(x)] for its message, and when that
    conversion throws, the TypeError is what [sendMessage] throws. *)
Definition error_message (status : Z) (body : jsstring) : jsstring :=
  match detail (Json.parse body) with
  | Some d =>
      if Js.ToBoolean d
      then match Js.ToString d with
           | Some s => s
           | None => Js.cannot_convert
           end
      else http_error status
  | None => http_error status
  end.

Definition sendMessage (o : outcome) : settled :=
  match o with
  | FetchRejects m => Throws m
  | ResponseNotOk status body => Throws (error_message status body)
  | ResponseOk (inl m) => Throws m
  | ResponseOk (inr data) =>
      Returns {| r_answer := answer data; r_modelUsed := model_used data |}
  end.

End Api.

(** The [message] of the error [sendMessage] throws. *)
Definition thrown (o : Api.outcome) : option jsstring :=
  match Api.sendMessage o with
  | Api.Throws m => Some m
  | Api.Returns _ => None
  end.

(** ** [components/ChatInput.jsx]: [handleSubmit] *)

Module ChatInput.

(** [handleSubmit] with the [input] of the text area and the [isLoading]
    prop: the text handed to [onSendMessage], if any, and the next
    [input]. *)
Definition handleSubmit (input : jsstring) (isLoading : bool)
  : option jsstring * jsstring :=
  if truthy_string (trim input) && negb isLoading
  then (Some (trim input), [])
  else (None, input).

End ChatInput.

(** ** [App.jsx] *)

(** One reading of the clock: [Date.now()] and [new Date().toISOString()]. *)
Record instant : Type := { now : Z; iso : jsstring }.

Module App.

(** The [useState] cells of [App] that the handlers read or write,
    and the [localStorage] item [heritagebot_conversations]. *)
Record state : Type := mk {
  messages : list Message.t;
  isLoading : bool;
  error : option jsstring;
  selectedModel : jsstring;
  conversations : list Conversation.t;
  currentConversationId : option Z;
  storage : option jsstring
}.

Definition setMessages (f : list Message.t -> list Message.t) (st : state) : state :=
  mk (f (messages st)) (isLoading st) (error st) (selectedModel st)
     (conversations st) (currentConversationId st) (storage st).

Definition setIsLoading (b : bool) (st : state) : state :=
  mk (messages st) b (error st) (selectedModel st)
     (conversations st) (currentConversationId st) (storage st).

Definition setError (e : option jsstring) (st : state) : state :=
  mk (messages st) (isLoading st) e (selectedModel st)
     (conversations st) (currentConversationId st) (storage st).

Definition setSelectedModel (m : jsstring) (st : state) : state :=
  mk (messages st) (isLoading st) (error st) m
     (conversations st) (currentConversationId st) (storage st).

Definition setCurrentConversationId (c : option Z) (st : state) : state :=
  mk (messages st) (isLoading st) (error st) (selectedModel st)
     (conversations st) c (storage st).

Definition setItem (blob : jsstring) (st : state) : state :=
  mk (messages st) (isLoading st) (error st) (selectedModel st)
     (conversations st) (currentConversationId st) (Some blob).

(** The effect on [[conversations]]:
    [if (conversations.length > 0) localStorage.setItem(..., JSON.stringify(conversations))]. *)
Definition save_effect (st : state) : state :=
  if (0 <? List.length (conversations st))%nat
  then setItem (stringify_conversations (conversations st)) st
  else st.

(** [setConversations(prev => f prev)]: the handlers always pass a fresh
    array, so the render that follows runs the save effect. *)
Definition setConversations (f : list Conversation.t -> list Conversation.t)
           (st : state) : state :=
  save_effect
    (mk (messages st) (isLoading st) (error st) (selectedModel st)
        (f (conversations st)) (currentConversationId st) (storage st)).

(** *** Mount *)

(** The state of the first render, over the stored item. *)
Definition initial (stored : option jsstring) : state :=
  mk [] false None (js "gpt") [] None stored.

(** What the load effect does to [conversations]. *)
Inductive loaded : Type :=
| LoadThrows              (** [JSON.parse] throws out of the effect *)
| LoadKeeps               (** nothing set: the collection stays [[]] *)
| LoadSets (parsed : json) (** [setConversations(parsed)] *).

(** [localStorage.getItem] gives [null] (here [None]) for an absent item. *)
Definition load_effect (savedConversations : option jsstring) : loaded :=
  match savedConversations with
  | None => LoadKeeps
  | Some s =>
      if truthy_string s then
        match Json.parse s with
        | Some parsed => LoadSets parsed
        | None => LoadThrows
        end
      else LoadKeeps
  end.

(** The page after the effects of the mount have run, when the typed model
    can hold it: [setConversations(parsed)] stores the parsed value as it
    is, whatever its shape. *)
Inductive mounted : Type :=
| Crashed                   (** the load effect threw *)
| Untyped (parsed : json)   (** the collection is no list of conversations *)
| Mounted (st : state).

Definition mount (stored : option jsstring) : mounted :=
  match load_effect stored with
  | LoadThrows => Crashed
  | LoadKeeps => Mounted (initial stored)
  | LoadSets parsed =>
      match conversations_of_json parsed with
      | Some cs => Mounted (setConversations (fun _ => cs) (initial stored))
      | None => Untyped parsed
      end
  end.

(** *** [handleSendMessage] *)

(** [if (currentConversationId)]: [null] and [0] are falsy. *)
Definition truthy_id (c : option Z) : bool :=
  match c with
  | Some z => negb (z =? 0)
  | None => false
  end.

(** [conv.id === currentConversationId] *)
Definition id_is (x : Z) (c : option Z) : bool :=
  match c with
  | Some z => x =? z
  | None => false
  end.

(** The variables the continuation after [await] closes over. *)
Record request : Type := {
  userMessage : jsstring;
  userMsg : Message.t;
  loadingMsg : Message.t;
  req_selectedModel : jsstring;
  req_currentConversationId : option Z
}.

(** [{ ...msg, text: response.answer, isTyping: false }] *)
Definition answered (answer : jsstring) (msg : Message.t) : Message.t :=
  Message.mk (Message.id msg) answer (Message.isUser msg) (Message.modelId msg)
             (Message.timestamp msg) (Some false).

(** Up to the call of [sendMessage]: [t1] is read for [userMsg], [t2] for
    [loadingMsg]. *)
Definition handleSendMessage_start (text : jsstring) (t1 t2 : instant) (st : state)
  : state * request :=
  let userMsg := Message.mk (now t1) text true None (iso t1) None in
  let loadingMsg :=
    Message.mk (now t2 + 1) [] false (Some (selectedModel st)) (iso t2) (Some true) in
  let st := setError None st in
  let st := setMessages (fun prev => prev ++ [userMsg]) st in
  let st := setIsLoading true st in
  let st := setMessages (fun prev => prev ++ [loadingMsg]) st in
  (st, Build_request text userMsg loadingMsg (selectedModel st) (currentConversationId st)).

(** The [try] block after the [await], for the value [sendMessage]
    returned; [t3] is read for a new conversation. *)
Definition on_response (rq : request) (r : Api.response) (t3 : instant) (st : state)
  : state :=
  let answer := Api.r_answer r in
  let st :=
    setMessages
      (map (fun msg =>
              if Message.id msg =? Message.id (loadingMsg rq)
              then answered answer msg else msg)) st in
  if truthy_id (req_currentConversationId rq) then
    setConversations
      (map (fun conv =>
              if id_is (Conversation.id conv) (req_currentConversationId rq)
              then
                Conversation.mk
                  (Conversation.id conv)
                  (or_string (Conversation.title conv) (slice0 50 (userMessage rq)))
                  (Conversation.messages conv
                     ++ [userMsg rq; answered answer (loadingMsg rq)])
                  (Conversation.messageCount conv + 2)
                  (Conversation.createdAt conv)
              else conv)) st
  else
    let newConversation :=
      Conversation.mk (now t3) (slice0 50 (userMessage rq))
                      [userMsg rq; answered answer (loadingMsg rq)] 2 (iso t3) in
    let st := setConversations (fun prev => newConversation :: prev) st in
    setCurrentConversationId (Some (Conversation.id newConversation)) st.

Definition fallback_error : jsstring := js "Failed to get response. Please try again.".

(** The [catch] block, for the [message] of the error thrown. *)
Definition on_error (rq : request) (message : jsstring) (st : state) : state :=
  let st := setError (Some (or_string message fallback_error)) st in
  setMessages
    (filter (fun msg => negb (Message.id msg =? Message.id (loadingMsg rq)))) st.

(** The continuation of [handleSendMessage] once the promise of
    [sendMessage] settles: [try], [catch], [finally]. *)
Definition handleSendMessage_settle (rq : request) (s : Api.settled) (t3 : instant)
           (st : state) : state :=
  setIsLoading false
    match s with
    | Api.Returns r => on_response rq r t3 st
    | Api.Throws message => on_error rq message st
    end.

(** *** The other handlers *)

Definition handleNewChat (st : state) : state :=
  setError None (setCurrentConversationId None (setMessages (fun _ => []) st)).

Definition handleSelectConversation (conversationId : Z) (st : state) : state :=
  match find (fun c => Conversation.id c =? conversationId) (conversations st) with
  | Some conversation =>
      setError None
        (setCurrentConversationId (Some conversationId)
           (setMessages (fun _ => Conversation.messages conversation) st))
  | None => st
  end.

(** [currentConversationId] is the one of the render the handler was
    created in, that is of the state before [setConversations]. *)
Definition handleDeleteConversation (conversationId : Z) (st : state) : state :=
  let st' :=
    setConversations
      (filter (fun c => negb (Conversation.id c =? conversationId))) st in
  if id_is conversationId (currentConversationId st)
  then handleNewChat st' else st'.

(** [showWelcome]: the welcome screen with its suggestion buttons is
    rendered. *)
Definition showWelcome (st : state) : bool :=
  match messages st, error st with
  | [], None => true
  | [], Some e => negb (truthy_string e)
  | _ :: _, _ => false
  end.

Definition suggestions : list jsstring :=
  [js "What is the history of Twinings?"; js "Tell me about Ovaltine products";
   js "How is tea processed?"; js "What are ABF's core values?"].

End App.

(** ** The interface as a transition system *)

(** The page between two events: the state of [App], the [input] cell of
    [ChatInput], and the calls of [sendMessage] that have not settled. *)
Record world : Type := {
  app : App.state;
  input : jsstring;
  outstanding : list App.request
}.

Inductive event : Type :=
| ChangeInput (text : jsstring)                (** the text area changes *)
| SubmitForm (t1 t2 : instant)                (** the form is submitted *)
| ClickSuggestion (n : nat) (t1 t2 : instant) (** a button of the welcome screen *)
| ClickNewChat
| ClickConversation (conversationId : Z)
| ClickDelete (conversationId : Z)
| ModelChange (modelId : jsstring)
| Settles (k : nat) (o : Api.outcome) (t3 : instant)
    (** the [k]-th outstanding call settles *).

Fixpoint remove_nth {A : Type} (k : nat) (l : list A) : list A :=
  match k, l with
  | _, [] => []
  | O, _ :: r => r
  | S k', x :: r => x :: remove_nth k' r
  end.

(** [handleSendMessage(text)] up to its [await]. *)
Definition send (text : jsstring) (t1 t2 : instant) (w : world) (input' : jsstring) : world :=
  let '(st, rq) := App.handleSendMessage_start text t1 t2 (app w) in
  {| app := st; input := input'; outstanding := outstanding w ++ [rq] |}.

Definition step (w : world) (e : event) : world :=
  match e with
  | ChangeInput text => {| app := app w; input := text; outstanding := outstanding w |}
  | SubmitForm t1 t2 =>
      match ChatInput.handleSubmit (input w) (App.isLoading (app w)) with
      | (Some text, input') => send text t1 t2 w input'
      | (None, input') => {| app := app w; input := input'; outstanding := outstanding w |}
      end
  | ClickSuggestion n t1 t2 =>
      if App.showWelcome (app w) then
        match nth_error App.suggestions n with
        | Some suggestion => send suggestion t1 t2 w (input w)
        | None => w
        end
      else w
  | ClickNewChat =>
      {| app := App.handleNewChat (app w); input := input w; outstanding := outstanding w |}
  | ClickConversation c =>
      {| app := App.handleSelectConversation c (app w); input := input w;
         outstanding := outstanding w |}
  | ClickDelete c =>
      {| app := App.handleDeleteConversation c (app w); input := input w;
         outstanding := outstanding w |}
  | ModelChange m =>
      {| app := App.setSelectedModel m (app w); input := input w;
         outstanding := outstanding w |}
  | Settles k o t3 =>
      match nth_error (outstanding w) k with
      | Some rq =>
          {| app := App.handleSendMessage_settle rq (Api.sendMessage o) t3 (app w);
             input := input w;
             outstanding := remove_nth k (outstanding w) |}
      | None => w
      end
  end.

Definition run (w : world) (es : list event) : world := fold_left step es w.

(** The page of a first visit: nothing is stored, the load effect sets
    nothing. *)
Definition fresh : world :=
  {| app := App.initial None; input := []; outstanding := [] |}.

(** ** Sample data *)

Module Sample.

Definition t0 : instant := {| now := 1730000000000; iso := js "2024-10-27T03:33:20.000Z" |}.
Definition t1 : instant := {| now := 1730000000007; iso := js "2024-10-27T03:33:20.007Z" |}.
Definition t2 : instant := {| now := 1730000004321; iso := js "2024-10-27T03:33:24.321Z" |}.

Definition question : jsstring := js "What is the history of Twinings?".
Definition reply : Api.chat_body :=
  {| Api.answer := js "Twinings was founded in 1706..."; Api.model_used := js "gpt" |}.

Definition user_message : Message.t :=
  Message.mk 1720000000000 (js "How is tea processed?") true None
             (js "2024-07-03T09:46:40.000Z") None.
Definition bot_message : Message.t :=
  Message.mk 1720000000001 (js "Leaves are withered, rolled and dried.") false
             (Some (js "claude")) (js "2024-07-03T09:46:40.000Z") (Some false).

Definition tea : Conversation.t :=
  Conversation.mk 1720000000900 (js "How is tea processed?")
                  [user_message; bot_message] 2 (js "2024-07-03T09:46:40.900Z").

Definition ovaltine : Conversation.t :=
  Conversation.mk 1710000000500 (js "Tell me about Ovaltine products") [] 0
                  (js "2024-03-09T16:00:00.500Z").

(** Two stored conversations, [tea] selected. *)
Definition browsing : App.state :=
  App.mk [user_message; bot_message] false None (js "gpt") [tea; ovaltine]
         (Some 1720000000900)
         (Some (stringify_conversations [tea; ovaltine])).

End Sample.


(** ** Vocabulary of the properties *)

(** [userMsg] and [loadingMsg] of a submission of [text] read at [t1] and
    [t2] in the state [st0]. *)
Definition userMsg_of (text : jsstring) (t1 : instant) : Message.t :=
  Message.mk (now t1) text true None (iso t1) None.

Definition loadingMsg_of (t2 : instant) (st0 : App.state) : Message.t :=
  Message.mk (now t2 + 1) [] false (Some (App.selectedModel st0)) (iso t2) (Some true).

(** [msg => msg.id === loadingMsg.id ? {...msg, text: answer, isTyping: false} : msg] *)
Definition resolve (t2 : instant) (answer : jsstring) (msg : Message.t) : Message.t :=
  if Message.id msg =? now t2 + 1 then App.answered answer msg else msg.

(** The exchange stored in the collection. *)
Definition exchange (text : jsstring) (t1 t2 : instant) (st0 : App.state)
           (answer : jsstring) : list Message.t :=
  [userMsg_of text t1; App.answered answer (loadingMsg_of t2 st0)].

(** [{...conv, messages: [...], title: conv.title || ..., messageCount: conv.messageCount + 2}] *)
Definition extended (text : jsstring) (t1 t2 : instant) (st0 : App.state)
           (answer : jsstring) (conv : Conversation.t) : Conversation.t :=
  Conversation.mk (Conversation.id conv)
                  (or_string (Conversation.title conv) (slice0 50 text))
                  (Conversation.messages conv ++ exchange text t1 t2 st0 answer)
                  (Conversation.messageCount conv + 2)
                  (Conversation.createdAt conv).

(** [newConversation] *)
Definition created (text : jsstring) (t1 t2 t3 : instant) (st0 : App.state)
           (answer : jsstring) : Conversation.t :=
  Conversation.mk (now t3) (slice0 50 text) (exchange text t1 t2 st0 answer) 2 (iso t3).

Definition is_suggestion (e : event) : bool :=
  match e with ClickSuggestion _ _ _ => true | _ => false end.

(** [isLoading] tells whether a call is outstanding, and there is at most
    one. *)
Definition single_flight (w : world) : Prop :=
  (App.isLoading (app w) = false /\ outstanding w = [])
  \/ (App.isLoading (app w) = true /\ exists rq, outstanding w = [rq]).

(** What the save effect keeps: the stored item is the serialization of
    the collection, unless the collection is empty. *)
Definition synced (st : App.state) : Prop :=
  App.conversations st = []
  \/ App.storage st = Some (stringify_conversations (App.conversations st)).

(** *** JSON texts *)

(** The text that follows does not go on with a digit. *)
Definition no_digit (rest : jsstring) : Prop :=
  match rest with [] => True | c :: _ => Json.is_digit c = false end.

(** The text that follows does not go on with a number. *)
Definition number_ends (rest : jsstring) : Prop :=
  match rest with
  | [] => True
  | c :: _ => Json.is_digit c = false /\ (c =? 46)%N = false
              /\ (c =? 101)%N = false /\ (c =? 69)%N = false
  end.

(** What may follow a value inside a text that [stringify] wrote. *)
Definition value_ends (rest : jsstring) : Prop :=
  match rest with
  | [] => True
  | c :: _ => c = 44%N \/ c = 93%N \/ c = 125%N
  end.

(** First character of a printed value. *)
Definition value_start (c : N) : Prop :=
  c = 110%N \/ c = 116%N \/ c = 102%N \/ c = 34%N \/ c = 91%N \/ c = 123%N
  \/ c = 45%N \/ Json.is_digit c = true.

(** Calls of the parser that a value takes. *)
Fixpoint weight (v : json) : nat :=
  match v with
  | JArray items => S (list_sum (map (fun x => S (weight x)) items))
  | JObject members => S (list_sum (map (fun kv => S (weight (snd kv))) members))
  | _ => 1
  end.

(** No object has two members with one key. *)
Fixpoint distinct_keys (v : json) : Prop :=
  match v with
  | JArray items =>
      (fix all (l : list json) : Prop :=
         match l with [] => True | x :: r => distinct_keys x /\ all r end) items
  | JObject members =>
      NoDup (map fst members)
      /\ (fix all (l : list (jsstring * json)) : Prop :=
            match l with [] => True | kv :: r => distinct_keys (snd kv) /\ all r end) members
  | _ => True
  end.

(** The parser reads back what [stringify] wrote for [v], given enough
    fuel. *)
Definition parses (v : json) : Prop :=
  distinct_keys v ->
  forall fuel rest,
    (weight v <= fuel)%nat -> value_ends rest ->
    Json.parse_value fuel (Json.stringify v ++ rest) = Some (v, rest).

(** Induction on a value and, for an array or an object, on its parts. *)
Section json_induction.

Variable P : json -> Prop.
Hypothesis Hnull : P JNull.
Hypothesis Hbool : forall b, P (JBool b).
Hypothesis Hnumber : forall m e, P (JNumber m e).
Hypothesis Hstring : forall s, P (JString s).
Hypothesis Harray : forall items, Forall P items -> P (JArray items).
Hypothesis Hobject :
  forall members, Forall (fun kv => P (snd kv)) members -> P (JObject members).

Fixpoint json_ind_nested (v : json) : P v :=
  match v with
  | JNull => Hnull
  | JBool b => Hbool b
  | JNumber m e => Hnumber m e
  | JString s => Hstring s
  | JArray items =>
      Harray items
        ((fix all (l : list json) : Forall P l :=
            match l with
            | [] => Forall_nil P
            | x :: r => Forall_cons x (json_ind_nested x) (all r)
            end) items)
  | JObject members =>
      Hobject members
        ((fix all (l : list (jsstring * json)) : Forall (fun kv => P (snd kv)) l :=
            match l with
            | [] => Forall_nil _
            | kv :: r => Forall_cons kv (json_ind_nested (snd kv)) (all r)
            end) members)
  end.

End json_induction.

(** ** The rest of the page *)

(** *** [components/ChatInput.jsx]: the key handler and the controls *)

Module ChatInputControls.

(** [handleKeyDown]: [Enter] without [Shift] submits; any other key is left
    to the text area. *)
Definition handleKeyDown (key : jsstring) (shiftKey : bool) (input : jsstring)
           (isLoading : bool) : option jsstring * jsstring :=
  if jsstring_eqb key (js "Enter") && negb shiftKey
  then ChatInput.handleSubmit input isLoading
  else (None, input).

(** [disabled={!input.trim() || isLoading || disabled}] of the send button. *)
Definition button_disabled (input : jsstring) (isLoading disabled : bool) : bool :=
  negb (truthy_string (trim input)) || isLoading || disabled.

(** [disabled={disabled || isLoading}] of the text area. *)
Definition textarea_disabled (isLoading disabled : bool) : bool := disabled || isLoading.

End ChatInputControls.

(** *** [lib/api.js]: the request of [sendMessage] and [checkHealth] *)

Module ApiRequest.

(** [JSON.stringify({ query, model_id: modelId })] *)
Definition body (query modelId : jsstring) : jsstring :=
  Json.stringify (JObject [(js "query", JString query); (js "model_id", JString modelId)]).

(** The body [handleSendMessage] sends: [sendMessage(userMessage, selectedModel)]. *)
Definition of_request (rq : App.request) : jsstring :=
  body (App.userMessage rq) (App.req_selectedModel rq).




End ApiRequest.

(** *** [components/ModelSelector.jsx] *)

Module ModelSelector.

Record model : Type := { id : jsstring; name : jsstring; color : jsstring }.

Definition MODELS : list model :=
  [ {| id := js "gpt"; name := js "GPT-5.1"; color := js "#F59E0B" |};
    {| id := js "claude"; name := js "Claude Haiku 4.5"; color := js "#F59E0B" |};
    {| id := js "mistral"; name := js "Mistral Large 3"; color := js "#F59E0B" |};
    {| id := js "grok"; name := js "Grok 4"; color := js "#F59E0B" |} ].

(** [MODELS.find((m) => m.id === selectedModel)] *)
Definition selectedModelData (selectedModel : jsstring) : option model :=
  find (fun m => jsstring_eqb (id m) selectedModel) MODELS.

(** The identifiers the menu can hand to [onModelChange]. *)
Definition offered (modelId : jsstring) : bool :=
  existsb (fun m => jsstring_eqb (id m) modelId) MODELS.

End ModelSelector.

(** *** [components/ChatMessage.jsx] *)

Module ChatMessage.

(** [MODEL_NAMES] and [MODEL_COLORS], by their own properties. *)
Definition MODEL_NAMES : list (jsstring * json) :=
  [(js "gpt", JString (js "GPT-5.1")); (js "claude", JString (js "Claude Haiku 4.5"));
   (js "mistral", JString (js "Mistral Large 3")); (js "grok", JString (js "Grok 4"))].

Definition MODEL_COLORS : list (jsstring * json) :=
  [(js "gpt", JString (js "#F59E0B")); (js "claude", JString (js "#F59E0B"));
   (js "mistral", JString (js "#F59E0B")); (js "grok", JString (js "#F59E0B"))].

(** The [useState] cells of the component and the interval of the typing
    animation: [timer] is [Some currentIndex] while the interval is set. *)
Record state : Type := {
  displayedText : jsstring;
  isComplete : bool;
  timer : option nat
}.

(** The effect on [[message, isUser]]: a user message and an empty message
    are shown at once; any other message starts the animation. *)
Definition effect (message : jsstring) (isUser : bool) : state :=
  if isUser || negb (truthy_string message)
  then {| displayedText := message; isComplete := true; timer := None |}
  else {| displayedText := []; isComplete := false; timer := Some O |}.

(** One call of the interval's callback, every 15 ms. *)
Definition tick (message : jsstring) (st : state) : state :=
  match timer st with
  | None => st
  | Some currentIndex =>
      if (currentIndex <=? List.length message)%nat
      then {| displayedText := slice0 currentIndex message;
              isComplete := isComplete st;
              timer := Some (S currentIndex) |}
      else {| displayedText := displayedText st; isComplete := true; timer := None |}
  end.

(** The state [n] calls after the effect ran. *)
Definition after (n : nat) (message : jsstring) (isUser : bool) : state :=
  Nat.iter n (tick message) (effect message isUser).

(** What the bubble holds: the three dots while the answer is awaited, else
    the displayed text, with a blinking cursor while an answer is being
    typed. *)
Inductive bubble : Type :=
| Dots
| Text (shown : jsstring) (cursor : bool).

(** [isTyping && !isUser ? dots : text], the cursor under
    [!isComplete && !isUser]. *)
Definition render (isTyping : option bool) (isUser : bool) (st : state) : bubble :=
  if match isTyping with Some true => true | _ => false end && negb isUser
  then Dots
  else Text (displayedText st) (negb (isComplete st) && negb isUser).

End ChatMessage.

(** *** [components/Sidebar.jsx] and the layout cells of [App.jsx] *)

Module Sidebar.

(** The [useState] cells of [Sidebar]. *)
Record state : Type := mk {
  openMenuId : option Z;
  renamingId : option Z;
  renameValue : jsstring;
  sidebarWidth : Z;
  isResizing : bool
}.

Definition initial : state := mk None None [] 256 false.

(** The props [Sidebar] calls back. *)
Inductive callback : Type :=
| onNewChat
| onSelectConversation (conversationId : Z)
| onDeleteConversation (conversationId : Z)
| onToggleCollapse
| onWidthChange (newWidth : Z).

(** What the user can do to the side bar.  A pointer position is a whole
    number of pixels. *)
Inductive event : Type :=
| MouseDown                               (** on the resize handle *)
| MouseMove (clientX : Z)
| MouseUp
| ClickToggle
| ClickNew
| ClickItem (conversationId : Z)
| ClickMenu (conversationId : Z)          (** the three dots of an item *)
| MenuRename (conversationId : Z) (title : jsstring)
| MenuDelete (conversationId : Z)
| RenameChange (value : jsstring)
| RenameKey (conversationId : Z) (key : jsstring)
| RenameBlur (conversationId : Z).

(** [Math.max(200, Math.min(500, e.clientX))] *)
Definition clamp (clientX : Z) : Z := Z.max 200 (Z.min 500 clientX).

(** [handleRename]: logs, and closes the editor. *)
Definition handleRename (conversationId : Z) (newTitle : jsstring) (st : state) : state :=
  mk (openMenuId st) None (renameValue st) (sidebarWidth st) (isResizing st).

Definition handleMouseDown (st : state) : state :=
  mk (openMenuId st) (renamingId st) (renameValue st) (sidebarWidth st) true.

Definition handleMouseMove (clientX : Z) (st : state) : state * list callback :=
  if negb (isResizing st) then (st, [])
  else
    let newWidth := clamp clientX in
    (mk (openMenuId st) (renamingId st) (renameValue st) newWidth (isResizing st),
     [onWidthChange newWidth]).

Definition handleMouseUp (st : state) : state :=
  mk (openMenuId st) (renamingId st) (renameValue st) (sidebarWidth st) false.

(** The handler of an event: the next state and the props called. *)
Definition handle (e : event) (st : state) : state * list callback :=
  match e with
  | MouseDown => (handleMouseDown st, [])
  | MouseMove x => handleMouseMove x st
  | MouseUp => (handleMouseUp st, [])
  | ClickToggle => (st, [onToggleCollapse])
  | ClickNew => (st, [onNewChat])
  | ClickItem c => (st, [onSelectConversation c])
  | ClickMenu c =>
      (mk (if App.id_is c (openMenuId st) then None else Some c)
          (renamingId st) (renameValue st) (sidebarWidth st) (isResizing st), [])
  | MenuRename c title =>
      (mk None (Some c) (or_string title []) (sidebarWidth st) (isResizing st), [])
  | MenuDelete c =>
      (mk None (renamingId st) (renameValue st) (sidebarWidth st) (isResizing st),
       [onDeleteConversation c])
  | RenameChange v =>
      (mk (openMenuId st) (renamingId st) v (sidebarWidth st) (isResizing st), [])
  | RenameKey c key =>
      let st := if jsstring_eqb key (js "Enter")
                then handleRename c (renameValue st) st else st in
      (if jsstring_eqb key (js "Escape")
       then mk (openMenuId st) None (renameValue st) (sidebarWidth st) (isResizing st)
       else st, [])
  | RenameBlur c => (handleRename c (renameValue st) st, [])
  end.

(** The title and the count an item shows:
    [conversation.title || 'New Conversation'] and
    [Math.floor(conversation.messageCount / 2)]. *)
Definition shown_title (c : Conversation.t) : jsstring :=
  or_string (Conversation.title c) (js "New Conversation").

Definition shown_exchanges (c : Conversation.t) : Z := Conversation.messageCount c / 2.

End Sidebar.

(** The whole page: the chat, the side bar, and the two layout cells of
    [App], [sidebarWidth] and [isSidebarCollapsed]. *)
Record page : Type := {
  chat : world;
  side : Sidebar.state;
  app_sidebarWidth : Z;
  isSidebarCollapsed : bool
}.

Definition first_page : page :=
  {| chat := fresh; side := Sidebar.initial; app_sidebarWidth := 256;
     isSidebarCollapsed := false |}.

(** A prop of [Sidebar] called: the handler [App] passed for it. *)
Definition call (p : page) (c : Sidebar.callback) : page :=
  match c with
  | Sidebar.onNewChat =>
      {| chat := step (chat p) ClickNewChat; side := side p;
         app_sidebarWidth := app_sidebarWidth p; isSidebarCollapsed := isSidebarCollapsed p |}
  | Sidebar.onSelectConversation c =>
      {| chat := step (chat p) (ClickConversation c); side := side p;
         app_sidebarWidth := app_sidebarWidth p; isSidebarCollapsed := isSidebarCollapsed p |}
  | Sidebar.onDeleteConversation c =>
      {| chat := step (chat p) (ClickDelete c); side := side p;
         app_sidebarWidth := app_sidebarWidth p; isSidebarCollapsed := isSidebarCollapsed p |}
  | Sidebar.onToggleCollapse =>
      {| chat := chat p; side := side p; app_sidebarWidth := app_sidebarWidth p;
         isSidebarCollapsed := negb (isSidebarCollapsed p) |}
  | Sidebar.onWidthChange newWidth =>
      {| chat := chat p; side := side p; app_sidebarWidth := newWidth;
         isSidebarCollapsed := isSidebarCollapsed p |}
  end.

Definition side_step (p : page) (e : Sidebar.event) : page :=
  let '(s, calls) := Sidebar.handle e (side p) in
  fold_left call calls
            {| chat := chat p; side := s; app_sidebarWidth := app_sidebarWidth p;
               isSidebarCollapsed := isSidebarCollapsed p |}.

(** [marginLeft] of the main area, in pixels. *)
Definition marginLeft (p : page) : Z :=
  if isSidebarCollapsed p then 0 else app_sidebarWidth p.

(** Only the events of the rename editor and of the item menu that call no
    prop. *)
Definition is_rename (e : Sidebar.event) : bool :=
  match e with
  | Sidebar.ClickMenu _ | Sidebar.MenuRename _ _ | Sidebar.RenameChange _
  | Sidebar.RenameKey _ _ | Sidebar.RenameBlur _ => true
  | _ => false
  end.

(** ** Vocabulary of the invariants *)

(** A page reached from a first visit, by events that [allowed] admits and
    by reloading the page over what is stored. *)
Inductive reachable (allowed : event -> bool) : world -> Prop :=
| reach_fresh : reachable allowed fresh
| reach_step (w : world) (e : event) :
    reachable allowed w -> allowed e = true -> reachable allowed (step w e)
| reach_reload (w : world) (st : App.state) :
    reachable allowed w -> App.mount (App.storage (app w)) = App.Mounted st ->
    reachable allowed {| app := st; input := []; outstanding := [] |}.

Definition any_event (e : event) : bool := true.

(** The model comes from the menu of [ModelSelector]. *)
Definition from_menu (e : event) : bool :=
  match e with
  | ModelChange m => ModelSelector.offered m
  | _ => true
  end.

(** A question as it is stored: trimmed, not empty, without model. *)
Definition question_message (m : Message.t) : Prop :=
  Message.isUser m = true /\ Message.modelId m = None /\ Message.isTyping m = None
  /\ Message.text m <> [] /\ trim (Message.text m) = Message.text m.

(** An answer as it is stored: resolved, with the model it was asked of. *)
Definition answer_message (m : Message.t) : Prop :=
  Message.isUser m = false /\ Message.isTyping m = Some false /\ Message.modelId m <> None.

(** Questions and answers in turn. *)
Inductive exchanges : list Message.t -> Prop :=
| exchanges_nil : exchanges []
| exchanges_cons (u a : Message.t) (l : list Message.t) :
    question_message u -> answer_message a -> exchanges l -> exchanges (u :: a :: l).

Definition well_formed (c : Conversation.t) : Prop :=
  exchanges (Conversation.messages c)
  /\ Conversation.messageCount c = Z.of_nat (List.length (Conversation.messages c))
  /\ exists u rest, Conversation.messages c = u :: rest
                    /\ Conversation.title c = slice0 50 (Message.text u).

Definition request_ok (rq : App.request) : Prop :=
  question_message (App.userMsg rq)
  /\ Message.text (App.userMsg rq) = App.userMessage rq
  /\ Message.isUser (App.loadingMsg rq) = false
  /\ Message.modelId (App.loadingMsg rq) <> None.

(** The item is absent or is the serialization of conversations with the
    property. *)
Definition stored_all (P : Conversation.t -> Prop) (stored : option jsstring) : Prop :=
  stored = None
  \/ exists cs, stored = Some (stringify_conversations cs) /\ Forall P cs.

Definition error_ok (e : option jsstring) : Prop :=
  e = None \/ exists c m, e = Some (c :: m).

Definition current_ok (st : App.state) : Prop :=
  match App.currentConversationId st with
  | None => True
  | Some c => In c (map Conversation.id (App.conversations st))
  end.

(** What holds of the state of [App] on every page that can be reached. *)
Definition sound_state (st : App.state) : Prop :=
  Forall well_formed (App.conversations st)
  /\ current_ok st
  /\ error_ok (App.error st)
  /\ stored_all well_formed (App.storage st)
  /\ synced st.

Definition sound (w : world) : Prop :=
  sound_state (app w) /\ Forall request_ok (outstanding w).

(** The model of a message, if it has one, is one of the menu. *)
Definition model_known (m : Message.t) : Prop :=
  match Message.modelId m with
  | None => True
  | Some x => ModelSelector.offered x = true
  end.

Definition models_known (c : Conversation.t) : Prop :=
  Forall model_known (Conversation.messages c).

Definition models_state (st : App.state) : Prop :=
  ModelSelector.offered (App.selectedModel st) = true
  /\ Forall model_known (App.messages st)
  /\ Forall models_known (App.conversations st)
  /\ stored_all models_known (App.storage st).

Definition models_request (rq : App.request) : Prop :=
  model_known (App.loadingMsg rq) /\ model_known (App.userMsg rq)
  /\ ModelSelector.offered (App.req_selectedModel rq) = true.

Definition models_sound (w : world) : Prop :=
  models_state (app w) /\ Forall models_request (outstanding w).

(** ** The side bar at work *)

Definition run_side (p : page) (es : list Sidebar.event) : page := fold_left side_step es p.

(** The width [Sidebar] draws itself with is the one [App] keeps for the
    margin, and it is within the bounds of the resize handle. *)
Definition width_ok (p : page) : Prop :=
  200 <= Sidebar.sidebarWidth (side p) <= 500
  /\ app_sidebarWidth p = Sidebar.sidebarWidth (side p).

(** ** Sample responses *)

(** [{"detail":"Service unavailable"}] *)
Definition unavailable_body : jsstring :=
  js "{" ++ dq "detail" ++ js ":" ++ dq "Service unavailable" ++ js "}".

(** The body of a validation error of the service (status 422), whose
    [detail] is a list of objects. *)
Definition validation_body : jsstring :=
  js "{" ++ dq "detail" ++ js ":[{" ++ dq "loc" ++ js ":[" ++ dq "body" ++ js ","
     ++ dq "query" ++ js "]," ++ dq "msg" ++ js ":" ++ dq "field required" ++ js ","
     ++ dq "type" ++ js ":" ++ dq "value_error.missing" ++ js "}]}".

(** [{"detail":""}] and [{"detail":[]}] *)
Definition empty_detail_body : jsstring :=
  js "{" ++ dq "detail" ++ js ":" ++ [34%N; 34%N] ++ js "}".
Definition empty_list_body : jsstring := js "{" ++ dq "detail" ++ js ":[]}".

(** ** A sample session *)

(** A first visit: a question through the form, and its answer. *)
Definition first_session : list event :=
  [ChangeInput Sample.question; SubmitForm Sample.t0 Sample.t1;
   Settles 0 (Api.ResponseOk (inr Sample.reply)) Sample.t2].

(** The conversation the session creates. *)
Definition first_conversation : Conversation.t :=
  created Sample.question Sample.t0 Sample.t1 Sample.t2 (App.initial None)
          (Api.answer Sample.reply).

(** * Part II: properties *)

(** ** Strings *)

Lemma jsstring_eqb_eq a : forall b, jsstring_eqb a b = true <-> a = b.
Proof.
  induction a as [|x a IH]; intros [|y b]; simpl; try (split; congruence).
  rewrite andb_true_iff, N.eqb_eq, IH. split; [intros [-> ->]; reflexivity|].
  intros [= -> ->]. split; reflexivity.
Qed.

Lemma trimStart_blank s : blank s -> trimStart s = [].
Proof.
  induction 1 as [|c r Hc _ IH]; simpl; [reflexivity|]. now rewrite Hc.
Qed.

Lemma trim_blank s : blank s -> trim s = [].
Proof.
  intros H. unfold trim, trimEnd. now rewrite (trimStart_blank _ H).
Qed.

Lemma trimStart_nil_blank s : trimStart s = [] -> blank s.
Proof.
  induction s as [|c r IH]; simpl; intros H; [constructor|].
  destruct (is_js_whitespace c) eqn:E; [|discriminate].
  apply Forall_cons; [exact E | exact (IH H)].
Qed.

Lemma trim_nil_blank s : trim s = [] -> blank s.
Proof.
  unfold trim, trimEnd. intros H.
  apply trimStart_nil_blank.
  assert (R : rev (trimStart (rev (trimStart s))) = []) by exact H.
  apply (f_equal (@rev N)) in R. rewrite rev_involutive in R. simpl in R.
  remember (trimStart s) as t eqn:Et.
  assert (B : blank (rev t)) by (apply trimStart_nil_blank; exact R).
  assert (Bt : blank t).
  { unfold blank in *. rewrite Forall_forall in *. intros x Hx.
    apply B. now apply in_rev in Hx. }
  destruct t as [|c r]; [reflexivity|].
  (* [trimStart] stops at a character that is not whitespace *)
  exfalso.
  assert (Hc : is_js_whitespace c = true) by (inversion Bt; assumption).
  clear - Et Hc.
  induction s as [|d s IH]; simpl in Et; [discriminate|].
  destruct (is_js_whitespace d) eqn:E; [auto|].
  inversion Et; subst. congruence.
Qed.

Lemma not_blank_truthy s : ~ blank s -> truthy_string (trim s) = true.
Proof.
  intros H. destruct (trim s) eqn:E; [|reflexivity].
  exfalso. apply H. now apply trim_nil_blank.
Qed.

Lemma or_string_truthy a b : truthy_string a = true -> or_string a b = a.
Proof. unfold or_string. now intros ->. Qed.

(** ** [JSON.parse] reads back what [JSON.stringify] wrote *)

Module JsonFacts.
Import Json.

(** *** String literals *)

Lemma hex_value_hex_digit d : (d < 16)%N -> hex_value (hex_digit d) = Some d.
Proof.
  intros H.
  assert (C : (d = 0 \/ d = 1 \/ d = 2 \/ d = 3 \/ d = 4 \/ d = 5 \/ d = 6 \/ d = 7 \/ d = 8
               \/ d = 9 \/ d = 10 \/ d = 11 \/ d = 12 \/ d = 13 \/ d = 14 \/ d = 15)%N) by lia.
  repeat (destruct C as [-> | C]; [reflexivity|]). subst. reflexivity.
Qed.

Lemma hex4_unicode_escape c :
  (c < 65536)%N ->
  exists h1 h2 h3 h4,
    unicode_escape c = [92; 117; h1; h2; h3; h4]%N /\ hex4 h1 h2 h3 h4 = Some c.
Proof.
  intros H. unfold unicode_escape. do 4 eexists. split; [reflexivity|].
  unfold hex4.
  rewrite !hex_value_hex_digit by (apply N.mod_lt; discriminate).
  f_equal.
  pose proof (N.div_mod c 16 ltac:(discriminate)).
  pose proof (N.div_mod (c / 16) 16 ltac:(discriminate)).
  pose proof (N.div_mod (c / 16 / 16) 16 ltac:(discriminate)).
  assert (E1 : (c / 256 = c / 16 / 16)%N) by (rewrite N.Div0.div_div; reflexivity).
  assert (E2 : (c / 4096 = c / 16 / 16 / 16)%N) by (rewrite !N.Div0.div_div; reflexivity).
  assert (L : (c / 16 / 16 / 16 < 16)%N).
  { rewrite <- E2. apply N.Div0.div_lt_upper_bound. exact H. }
  rewrite E1, E2.
  rewrite (N.mod_small (c / 16 / 16 / 16) 16 L).
  lia.
Qed.

Lemma parse_chars_plain c r :
  (c =? 34)%N = false -> (c <? 32)%N = false -> (c =? 92)%N = false ->
  parse_chars (c :: r)
  = match parse_chars r with Some (t, rest) => Some (c :: t, rest) | None => None end.
Proof. intros E1 E2 E3. simpl. now rewrite E1, E2, E3. Qed.

Lemma parse_chars_escape h1 h2 h3 h4 r :
  parse_chars (92 :: 117 :: h1 :: h2 :: h3 :: h4 :: r)%N
  = match hex4 h1 h2 h3 h4, parse_chars r with
    | Some x, Some (t, rest) => Some (x :: t, rest)
    | _, _ => None
    end.
Proof. reflexivity. Qed.

Lemma parse_chars_unicode_escape c r t rest :
  (c < 65536)%N -> parse_chars r = Some (t, rest) ->
  parse_chars (unicode_escape c ++ r) = Some (c :: t, rest).
Proof.
  intros H P. destruct (hex4_unicode_escape c H) as (h1 & h2 & h3 & h4 & E & X).
  rewrite E. cbn [Datatypes.app]. rewrite parse_chars_escape, X, P. reflexivity.
Qed.

Lemma parse_chars_quote_chars_len n : forall s rest,
  (List.length s <= n)%nat ->
  parse_chars (quote_chars s ++ 34%N :: rest) = Some (s, rest).
Proof.
  induction n as [|n IH]; intros s rest L.
  - destruct s; [reflexivity | simpl in L; lia].
  - destruct s as [|c r]; [reflexivity|].
    assert (Lr : (List.length r <= n)%nat) by (simpl in L; lia).
    pose proof (IH r rest Lr) as IHr.
    cbn [quote_chars].
    destruct (c =? 8)%N eqn:E8;
      [apply N.eqb_eq in E8; subst c; cbn [Datatypes.app]; simpl parse_chars; now rewrite IHr|].
    destruct (c =? 9)%N eqn:E9;
      [apply N.eqb_eq in E9; subst c; cbn [Datatypes.app]; simpl parse_chars; now rewrite IHr|].
    destruct (c =? 10)%N eqn:E10;
      [apply N.eqb_eq in E10; subst c; cbn [Datatypes.app]; simpl parse_chars; now rewrite IHr|].
    destruct (c =? 12)%N eqn:E12;
      [apply N.eqb_eq in E12; subst c; cbn [Datatypes.app]; simpl parse_chars; now rewrite IHr|].
    destruct (c =? 13)%N eqn:E13;
      [apply N.eqb_eq in E13; subst c; cbn [Datatypes.app]; simpl parse_chars; now rewrite IHr|].
    destruct (c =? 34)%N eqn:E34;
      [apply N.eqb_eq in E34; subst c; cbn [Datatypes.app]; simpl parse_chars; now rewrite IHr|].
    destruct (c =? 92)%N eqn:E92;
      [apply N.eqb_eq in E92; subst c; cbn [Datatypes.app]; simpl parse_chars; now rewrite IHr|].
    destruct (c <? 32)%N eqn:E32.
    { rewrite <- app_assoc. apply parse_chars_unicode_escape; [|exact IHr].
      apply N.ltb_lt in E32. lia. }
    destruct (is_high_surrogate c) eqn:EH.
    { assert (Hc : (c < 65536)%N).
      { unfold is_high_surrogate in EH. apply andb_true_iff in EH.
        destruct EH as [_ EH]. apply N.leb_le in EH. lia. }
      destruct r as [|d r'].
      - cbn [Datatypes.app]. apply parse_chars_unicode_escape; [exact Hc | reflexivity].
      - destruct (is_low_surrogate d) eqn:EL.
        + cbn [Datatypes.app]. rewrite parse_chars_plain by assumption.
          assert (Hd : (56320 <= d)%N).
          { unfold is_low_surrogate in EL. apply andb_true_iff in EL.
            destruct EL as [EL _]. now apply N.leb_le in EL. }
          rewrite parse_chars_plain;
            [| apply N.eqb_neq; lia | apply N.ltb_ge; lia | apply N.eqb_neq; lia].
          rewrite (IH r' rest) by (simpl in Lr; lia). reflexivity.
        + rewrite <- app_assoc. apply parse_chars_unicode_escape; [exact Hc | exact IHr]. }
    destruct (is_low_surrogate c) eqn:EL.
    { rewrite <- app_assoc. apply parse_chars_unicode_escape; [|exact IHr].
      unfold is_low_surrogate in EL. apply andb_true_iff in EL.
      destruct EL as [_ EL]. apply N.leb_le in EL. lia. }
    cbn [Datatypes.app]. rewrite parse_chars_plain by assumption. now rewrite IHr.
Qed.

Lemma parse_chars_quote_chars s rest :
  parse_chars (quote_chars s ++ 34%N :: rest) = Some (s, rest).
Proof. apply (parse_chars_quote_chars_len (List.length s)). apply le_n. Qed.


(** *** Numbers *)

Lemma number_ends_no_digit rest : number_ends rest -> no_digit rest.
Proof. destruct rest; simpl; tauto. Qed.

Lemma digits_stop acc n rest : no_digit rest -> digits acc n rest = (acc, n, rest).
Proof. destruct rest as [|c r]; simpl; [reflexivity|]. now intros ->. Qed.

Import Decimal.

Lemma of_lu_rev_cons d :
  d <> Nil ->
  DecimalPos.Unsigned.of_lu (Decimal.rev d)
  = (DecimalPos.Unsigned.of_lu (Decimal.rev (DecimalPos.Unsigned.tl d))
     + DecimalPos.Unsigned.hd d * 10 ^ DecimalPos.Unsigned.usize (DecimalPos.Unsigned.tl d))%N.
Proof.
  destruct d; [congruence | ..]; intros _; unfold Decimal.rev; cbn [revapp];
    rewrite DecimalPos.Unsigned.of_lu_revapp; reflexivity.
Qed.

Lemma digits_uint u : forall acc n rest,
  no_digit rest ->
  digits acc n (uint_digits u ++ rest)
  = ((acc * 10 ^ DecimalPos.Unsigned.usize u + DecimalPos.Unsigned.of_lu (Decimal.rev u))%N,
     (n + nb_digits u)%nat, rest).
Proof.
  induction u; intros acc n rest ND.
  1: { simpl. rewrite digits_stop by assumption.
       rewrite N.mul_1_r, N.add_0_r, Nat.add_0_r. reflexivity. }
  all: rewrite of_lu_rev_cons by discriminate;
    cbn [DecimalPos.Unsigned.tl DecimalPos.Unsigned.hd DecimalPos.Unsigned.usize nb_digits];
    rewrite N.pow_succ_r', Nat.add_succ_r;
    cbn [uint_digits Datatypes.app digits];
    (change (is_digit 48) with true || change (is_digit 49) with true
     || change (is_digit 50) with true || change (is_digit 51) with true
     || change (is_digit 52) with true || change (is_digit 53) with true
     || change (is_digit 54) with true || change (is_digit 55) with true
     || change (is_digit 56) with true || change (is_digit 57) with true);
    cbv iota; rewrite IHu by assumption; simpl N.sub;
    match goal with
    | |- (?a, ?b, ?c) = (?a', ?b', ?c) =>
        replace a with a' by ring; replace b with b' by lia; reflexivity
    end.
Qed.

Lemma to_uint_nonnil n : N.to_uint n <> Nil.
Proof.
  destruct n; [discriminate|]. apply DecimalPos.Unsigned.to_uint_nonnil.
Qed.

Lemma digits_decimal_N n rest :
  no_digit rest ->
  exists k, digits 0 0 (decimal_N n ++ rest) = (n, S k, rest).
Proof.
  intros ND. unfold decimal_N. rewrite digits_uint by assumption.
  pose proof (to_uint_nonnil n) as NN.
  exists (pred (nb_digits (N.to_uint n))).
  assert (V : (0 * 10 ^ DecimalPos.Unsigned.usize (N.to_uint n)
               + DecimalPos.Unsigned.of_lu (Decimal.rev (N.to_uint n)))%N = n).
  { rewrite N.mul_0_l, N.add_0_l.
    rewrite <- DecimalPos.Unsigned.of_uint_alt.
    exact (DecimalN.Unsigned.of_to n). }
  assert (K : (0 + nb_digits (N.to_uint n))%nat = S (pred (nb_digits (N.to_uint n)))).
  { destruct (N.to_uint n); simpl; congruence || lia. }
  now rewrite V, K.
Qed.

Lemma nzhead_not_D0 u r : nzhead u <> D0 r.
Proof. induction u; simpl; try discriminate. exact IHu. Qed.

Lemma to_uint_pos_head p r : Pos.to_uint p <> D0 r.
Proof.
  intros E.
  assert (U : N.to_uint (Npos p) = unorm (N.to_uint (Npos p))).
  { rewrite <- DecimalN.Unsigned.to_of. now rewrite DecimalN.Unsigned.of_to. }
  change (N.to_uint (Npos p)) with (Pos.to_uint p) in U. rewrite E in U.
  unfold unorm in U. cbn [nzhead] in U.
  destruct (nzhead r) eqn:Z; try discriminate.
  - injection U as ->. apply (DecimalPos.Unsigned.to_uint_nonzero p). exact E.
  - symmetry in U. rewrite <- Z in U. exact (nzhead_not_D0 _ _ U).
Qed.

(** The first character of a decimal is a digit; it is [0] for zero only. *)
Lemma decimal_N_head n :
  exists c r, decimal_N n = c :: r /\ is_digit c = true
              /\ ((c =? 48)%N = true -> n = 0%N).
Proof.
  unfold decimal_N. destruct n as [|p]; [exists 48%N, []; repeat split|].
  change (N.to_uint (Npos p)) with (Pos.to_uint p).
  pose proof (to_uint_pos_head p) as HD.
  pose proof (DecimalPos.Unsigned.to_uint_nonnil p) as NN.
  destruct (Pos.to_uint p); [congruence | exfalso; eapply HD; reflexivity | ..];
    cbn [uint_digits]; do 2 eexists; (split; [reflexivity|]); split;
    reflexivity || discriminate.
Qed.

Lemma parse_int_decimal_N n rest :
  no_digit rest -> parse_int (decimal_N n ++ rest) = Some (n, rest).
Proof.
  intros ND. destruct (decimal_N_head n) as (c & r & E & D & Z).
  destruct (digits_decimal_N n rest ND) as (k & DG).
  unfold parse_int. rewrite E in *. cbn [Datatypes.app] in *.
  destruct (c =? 48)%N eqn:E0.
  - rewrite (Z eq_refl) in *. change (decimal_N 0) with [48%N] in E.
    injection E as _ <-. reflexivity.
  - rewrite D, DG. reflexivity.
Qed.


Lemma is_digit_bounds c : is_digit c = true -> (48 <= c <= 57)%N.
Proof.
  unfold is_digit. rewrite andb_true_iff, !N.leb_le. tauto.
Qed.

Lemma parse_sign_decimal_Z z tail :
  parse_sign (decimal_Z z ++ tail) = (z <? 0, decimal_N (Z.abs_N z) ++ tail).
Proof.
  unfold decimal_Z. destruct (z <? 0); [reflexivity|].
  destruct (decimal_N_head (Z.abs_N z)) as (c & r & E & D & _).
  rewrite E. cbn [Datatypes.app parse_sign].
  apply is_digit_bounds in D.
  assert (C : (c =? 45)%N = false) by (apply N.eqb_neq; lia).
  now rewrite C.
Qed.

Lemma signed_abs_N z : (if z <? 0 then - Z.of_N (Z.abs_N z) else Z.of_N (Z.abs_N z)) = z.
Proof. destruct (Z.ltb_spec z 0); lia. Qed.

Lemma parse_exp_none rest : number_ends rest -> parse_exp rest = Some (0, rest).
Proof.
  destruct rest as [|c r]; [reflexivity|]. intros (_ & _ & E1 & E2).
  unfold parse_exp. now rewrite E1, E2.
Qed.

Lemma parse_exp_decimal_Z e rest :
  no_digit rest -> parse_exp (101%N :: decimal_Z e ++ rest) = Some (e, rest).
Proof.
  intros ND. unfold parse_exp. change ((101 =? 101) || (101 =? 69))%N with true. cbv iota.
  destruct (digits_decimal_N (Z.abs_N e) rest ND) as (k & DG).
  unfold decimal_Z. destruct (e <? 0) eqn:S.
  - cbn [Datatypes.app]. change (45 =? 45)%N with true. cbv iota.
    rewrite DG. f_equal. f_equal. apply Z.ltb_lt in S. lia.
  - destruct (decimal_N_head (Z.abs_N e)) as (c & r & E & D & _).
    rewrite E in *. cbn [Datatypes.app] in *.
    apply is_digit_bounds in D.
    assert (C1 : (c =? 45)%N = false) by (apply N.eqb_neq; lia).
    assert (C2 : (c =? 43)%N = false) by (apply N.eqb_neq; lia).
    rewrite C1, C2, DG. f_equal. f_equal. apply Z.ltb_ge in S. lia.
Qed.

Lemma parse_frac_none i rest :
  match rest with [] => True | c :: _ => (c =? 46)%N = false end ->
  parse_frac i rest = Some (i, O, rest).
Proof.
  destruct rest as [|c r]; [reflexivity|]. intros E. unfold parse_frac. now rewrite E.
Qed.

Lemma parse_number_stringify m e rest :
  number_ends rest ->
  parse_number (stringify_number m e ++ rest) = Some (JNumber m e, rest).
Proof.
  intros NE. unfold stringify_number, parse_number.
  destruct (e =? 0) eqn:E0.
  - apply Z.eqb_eq in E0. subst e.
    rewrite parse_sign_decimal_Z.
    rewrite parse_int_decimal_N by (now apply number_ends_no_digit).
    rewrite parse_frac_none by (destruct rest; simpl in *; tauto).
    rewrite parse_exp_none by assumption.
    rewrite signed_abs_N. reflexivity.
  - rewrite <- app_assoc. rewrite parse_sign_decimal_Z.
    cbn [Datatypes.app].
    rewrite parse_int_decimal_N by reflexivity.
    rewrite parse_frac_none by reflexivity.
    rewrite parse_exp_decimal_Z by (now apply number_ends_no_digit).
    rewrite signed_abs_N, Z.sub_0_r. reflexivity.
Qed.


(** *** Values *)

Lemma value_ends_number_ends rest : value_ends rest -> number_ends rest.
Proof.
  destruct rest as [|c r]; simpl; [trivial|].
  intros [-> | [-> | ->]]; repeat split.
Qed.

Lemma decimal_Z_head z : exists c r, decimal_Z z = c :: r /\ (c = 45%N \/ is_digit c = true).
Proof.
  unfold decimal_Z. destruct (z <? 0).
  - do 2 eexists. split; [reflexivity|]. now left.
  - destruct (decimal_N_head (Z.abs_N z)) as (c & r & E & D & _).
    exists c, r. split; [exact E|]. now right.
Qed.

Lemma stringify_head v : exists c r, stringify v = c :: r /\ value_start c.
Proof.
  unfold value_start.
  destruct v as [|[|]|m e|s|items|members]; cbn [stringify];
    try (do 2 eexists; split; [reflexivity|]; tauto).
  unfold stringify_number.
  destruct (decimal_Z_head m) as (c & r & E & D). rewrite E.
  destruct (e =? 0); cbn [Datatypes.app]; do 2 eexists; (split; [reflexivity|]); tauto.
Qed.

Lemma value_start_facts c :
  value_start c ->
  is_json_ws c = false /\ (c =? 93)%N = false /\ (c =? 125)%N = false.
Proof.
  unfold value_start.
  intros [-> | [-> | [-> | [-> | [-> | [-> | [-> | D]]]]]]]; try (repeat split; reflexivity).
  apply is_digit_bounds in D. unfold is_json_ws.
  repeat split; rewrite ?orb_false_iff; repeat split; apply N.eqb_neq; lia.
Qed.

Lemma skip_ws_value v tail : skip_ws (stringify v ++ tail) = stringify v ++ tail.
Proof.
  destruct (stringify_head v) as (c & r & E & S). rewrite E.
  destruct (value_start_facts c S) as (W & _).
  cbn [Datatypes.app skip_ws]. now rewrite W.
Qed.

Lemma parse_value_number fuel m e rest :
  parse_value (S fuel) (stringify_number m e ++ rest)
  = parse_number (stringify_number m e ++ rest).
Proof.
  assert (H : exists c r, stringify_number m e ++ rest = c :: r
                          /\ (c = 45%N \/ is_digit c = true)).
  { unfold stringify_number. destruct (decimal_Z_head m) as (c & r & E & D).
    rewrite E. destruct (e =? 0); cbn [Datatypes.app]; do 2 eexists; split;
      reflexivity || exact D. }
  destruct H as (c & r & -> & D). cbn [parse_value].
  assert (B : (c = 45 \/ 48 <= c <= 57)%N).
  { destruct D as [->|D]; [now left | right; now apply is_digit_bounds]. }
  assert (C1 : (c =? 110)%N = false) by (apply N.eqb_neq; lia).
  assert (C2 : (c =? 116)%N = false) by (apply N.eqb_neq; lia).
  assert (C3 : (c =? 102)%N = false) by (apply N.eqb_neq; lia).
  assert (C4 : (c =? 34)%N = false) by (apply N.eqb_neq; lia).
  assert (C5 : (c =? 91)%N = false) by (apply N.eqb_neq; lia).
  assert (C6 : (c =? 123)%N = false) by (apply N.eqb_neq; lia).
  now rewrite C1, C2, C3, C4, C5, C6.
Qed.


Lemma distinct_keys_array items :
  distinct_keys (JArray items) <-> Forall distinct_keys items.
Proof.
  cbn [distinct_keys]. induction items as [|x r IH]; split; intros H.
  - constructor.
  - exact I.
  - destruct H as [Hx Hr]. constructor; [exact Hx | now apply IH].
  - inversion H; subst. split; [assumption | now apply IH].
Qed.

Lemma distinct_keys_object members :
  distinct_keys (JObject members)
  <-> NoDup (map fst members) /\ Forall (fun kv => distinct_keys (snd kv)) members.
Proof.
  cbn [distinct_keys].
  assert (A : forall l,
             (fix all (l : list (jsstring * json)) : Prop :=
                match l with [] => True | kv :: r => distinct_keys (snd kv) /\ all r end) l
             <-> Forall (fun kv => distinct_keys (snd kv)) l).
  { induction l as [|x r IH]; split; intros H.
    - constructor.
    - exact I.
    - destruct H as [Hx Hr]. constructor; [exact Hx | now apply IH].
    - inversion H; subst. split; [assumption | now apply IH]. }
  rewrite A. reflexivity.
Qed.

Lemma join_cons_cons x y r : join (x :: y :: r) = x ++ 44%N :: join (y :: r).
Proof. reflexivity. Qed.

Lemma skip_ws_join_values y r tail :
  skip_ws (join (map stringify (y :: r)) ++ tail) = join (map stringify (y :: r)) ++ tail.
Proof.
  cbn [map]. destruct (map stringify r) as [|z l].
  - cbn [join]. apply skip_ws_value.
  - rewrite join_cons_cons, <- app_assoc. apply skip_ws_value.
Qed.

Lemma parse_elements_join items :
  Forall parses items -> Forall distinct_keys items -> items <> [] ->
  forall fuel rest,
    (list_sum (map (fun x => S (weight x)) items) <= fuel)%nat ->
    parse_elements fuel (join (map stringify items) ++ 93%N :: rest) = Some (items, rest).
Proof.
  induction 1 as [|x r Px _ IH]; intros D NE fuel rest W; [congruence|].
  inversion D as [|? ? Dx Dr]; subst.
  cbn [map list_sum fold_right] in W.
  destruct fuel as [|fuel]; [lia|].
  assert (Wx : (weight x <= fuel)%nat) by lia.
  destruct r as [|y r].
  - cbn [map join parse_elements].
    rewrite (Px Dx fuel (93%N :: rest) Wx) by (right; now left).
    cbn [skip_ws]. reflexivity.
  - cbn [map]. rewrite join_cons_cons, <- app_assoc. cbn [parse_elements].
    rewrite (Px Dx fuel _ Wx) by (now left).
    cbn [skip_ws Datatypes.app].
    change (is_json_ws 44) with false. cbv iota.
    change (44 =? 44)%N with true. cbv iota.
    change (stringify y :: map stringify r) with (map stringify (y :: r)).
    rewrite skip_ws_join_values.
    rewrite IH; [reflexivity | assumption | discriminate |].
    cbn [map list_sum fold_right] in *. lia.
Qed.

Lemma set_member_fresh k v acc :
  ~ In k (map fst acc) -> set_member k v acc = acc ++ [(k, v)].
Proof.
  induction acc as [|[k' v'] acc IH]; intros NI; [reflexivity|].
  cbn [set_member]. destruct (jsstring_eqb k k') eqn:E.
  - apply jsstring_eqb_eq in E. subst. exfalso. apply NI. now left.
  - rewrite IH; [reflexivity|]. intros H. apply NI. now right.
Qed.

Lemma skip_ws_join_members y r tail :
  skip_ws (join (map member_text (y :: r)) ++ tail) = join (map member_text (y :: r)) ++ tail.
Proof.
  cbn [map]. destruct (map member_text r) as [|z l]; reflexivity.
Qed.

Lemma parse_members_join members :
  Forall (fun kv => parses (snd kv)) members ->
  Forall (fun kv => distinct_keys (snd kv)) members -> members <> [] ->
  forall fuel acc rest,
    NoDup (map fst (acc ++ members)) ->
    (list_sum (map (fun kv => S (weight (snd kv))) members) <= fuel)%nat ->
    parse_members fuel acc (join (map member_text members) ++ 125%N :: rest)
    = Some (acc ++ members, rest).
Proof.
  induction 1 as [|[k x] r Px _ IH]; intros D NE fuel acc rest ND W; [congruence|].
  inversion D as [|? ? Dx Dr]; subst. cbn [snd] in *.
  cbn [map list_sum fold_right snd] in W.
  destruct fuel as [|fuel]; [lia|].
  assert (Wx : (weight x <= fuel)%nat) by lia.
  assert (NI : ~ In k (map fst acc)).
  { rewrite map_app in ND. cbn [map fst] in ND.
    apply NoDup_remove_2 in ND. intros H. apply ND. apply in_or_app. now left. }
  assert (ND' : forall l, NoDup (map fst ((acc ++ [(k, x)]) ++ l))
                          <-> NoDup (map fst (acc ++ (k, x) :: l))).
  { intros l. now rewrite <- app_assoc. }
  destruct r as [|y r].
  - cbn [map join]. unfold member_text at 1. cbn [fst snd]. unfold quote.
    cbn [Datatypes.app]. rewrite <- !app_assoc. cbn [Datatypes.app parse_members].
    change (34 =? 34)%N with true. cbv iota.
    rewrite parse_chars_quote_chars. cbn [skip_ws].
    change (is_json_ws 58) with false. cbv iota.
    change (58 =? 58)%N with true. cbv iota.
    rewrite skip_ws_value.
    rewrite (Px Dx fuel (125%N :: rest) Wx) by (right; now right).
    rewrite (set_member_fresh _ _ _ NI). cbn [skip_ws]. reflexivity.
  - cbn [map]. rewrite join_cons_cons.
    unfold member_text at 1. cbn [fst snd]. unfold quote.
    cbn [Datatypes.app]. rewrite <- !app_assoc. cbn [Datatypes.app parse_members].
    change (34 =? 34)%N with true. cbv iota.
    rewrite parse_chars_quote_chars. cbn [skip_ws].
    change (is_json_ws 58) with false. cbv iota.
    change (58 =? 58)%N with true. cbv iota.
    rewrite skip_ws_value.
    rewrite (Px Dx fuel _ Wx) by (now left).
    rewrite (set_member_fresh _ _ _ NI). cbn [skip_ws].
    change (is_json_ws 44) with false. cbv iota.
    change (44 =? 44)%N with true. cbv iota.
    change (member_text y :: map member_text r) with (map member_text (y :: r)).
    rewrite skip_ws_join_members.
    rewrite IH; [now rewrite <- app_assoc | assumption | discriminate | now apply ND' |].
    cbn [map list_sum fold_right] in *. lia.
Qed.


Lemma map_stringify_members members :
  map (fun kv => quote (fst kv) ++ 58%N :: stringify (snd kv)) members
  = map member_text members.
Proof. reflexivity. Qed.

Theorem parse_value_stringify v : parses v.
Proof.
  induction v as [| b | m e | s | items IH | members IH] using json_ind_nested;
    intros D fuel rest W E; (destruct fuel as [|fuel]; [simpl in W; lia|]).
  - reflexivity.
  - destruct b; reflexivity.
  - cbn [stringify]. rewrite parse_value_number.
    apply parse_number_stringify. now apply value_ends_number_ends.
  - cbn [stringify]. unfold quote. cbn [Datatypes.app]. rewrite <- app_assoc.
    cbn [parse_value Datatypes.app].
    change (34 =? 110)%N with false. change (34 =? 116)%N with false.
    change (34 =? 102)%N with false. change (34 =? 34)%N with true. cbv iota.
    now rewrite parse_chars_quote_chars.
  - apply distinct_keys_array in D.
    cbn [stringify Datatypes.app]. rewrite <- app_assoc.
    cbn [parse_value Datatypes.app].
    change (91 =? 110)%N with false. change (91 =? 116)%N with false.
    change (91 =? 102)%N with false. change (91 =? 34)%N with false.
    change (91 =? 91)%N with true. cbv iota.
    destruct items as [|x r]; [reflexivity|].
    rewrite skip_ws_join_values.
    assert (P : parse_elements fuel (join (map stringify (x :: r)) ++ 93%N :: rest)
                = Some (x :: r, rest)).
    { apply parse_elements_join; [assumption | assumption | discriminate |].
      cbn [weight] in W. lia. }
    destruct (stringify_head x) as (c & t & Ex & Sx).
    destruct (value_start_facts c Sx) as (_ & C93 & _).
    assert (H : exists t', join (map stringify (x :: r)) ++ 93%N :: rest = c :: t').
    { cbn [map]. rewrite Ex. destruct (map stringify r); cbn [join Datatypes.app];
        eexists; reflexivity. }
    destruct H as (t' & Et). rewrite Et in *. now rewrite C93, P.
  - apply distinct_keys_object in D. destruct D as [ND D].
    cbn [stringify Datatypes.app]. rewrite map_stringify_members, <- app_assoc.
    cbn [parse_value Datatypes.app].
    change (123 =? 110)%N with false. change (123 =? 116)%N with false.
    change (123 =? 102)%N with false. change (123 =? 34)%N with false.
    change (123 =? 91)%N with false. change (123 =? 123)%N with true. cbv iota.
    destruct members as [|x r]; [reflexivity|].
    rewrite skip_ws_join_members.
    assert (P : parse_members fuel [] (join (map member_text (x :: r)) ++ 125%N :: rest)
                = Some ([] ++ x :: r, rest)).
    { apply parse_members_join; [assumption | assumption | discriminate | exact ND |].
      cbn [weight] in W. lia. }
    assert (H : exists t', join (map member_text (x :: r)) ++ 125%N :: rest = 34%N :: t').
    { cbn [map]. unfold member_text at 1. unfold quote.
      destruct (map member_text r); cbn [join Datatypes.app]; eexists; reflexivity. }
    destruct H as (t' & Et). rewrite Et in *.
    change (34 =? 125)%N with false. cbv iota. now rewrite P.
Qed.

(** The fuel [parse] gives is enough: a value takes no more calls than
    its text has characters. *)
Lemma sum_le_join {A : Type} (f : A -> jsstring) (w : A -> nat) (l : list A) :
  Forall (fun x => (w x <= List.length (f x))%nat) l ->
  (list_sum (map (fun x => S (w x)) l) <= S (List.length (join (map f l))))%nat.
Proof.
  induction 1 as [|x r Hx _ IH]; [simpl; lia|].
  destruct r as [|y r].
  - cbn [map join list_sum fold_right]. lia.
  - cbn [map]. rewrite join_cons_cons, length_app.
    cbn [map list_sum fold_right List.length] in *. lia.
Qed.

Lemma decimal_Z_nonempty z : (1 <= List.length (decimal_Z z))%nat.
Proof.
  destruct (decimal_Z_head z) as (c & r & E & _). rewrite E. simpl. lia.
Qed.

Lemma weight_le_length v : (weight v <= List.length (stringify v))%nat.
Proof.
  induction v as [| b | m e | s | items IH | members IH] using json_ind_nested.
  - simpl. lia.
  - destruct b; simpl; lia.
  - cbn [weight stringify]. unfold stringify_number.
    pose proof (decimal_Z_nonempty m).
    destruct (e =? 0); [assumption|]. rewrite length_app. lia.
  - cbn [weight stringify]. unfold quote. cbn [List.length]. lia.
  - cbn [weight stringify List.length]. rewrite length_app. cbn [List.length].
    pose proof (sum_le_join stringify weight items IH). lia.
  - cbn [weight stringify List.length]. rewrite length_app. cbn [List.length].
    rewrite map_stringify_members.
    assert (IH' : Forall (fun kv => (weight (snd kv) <= List.length (member_text kv))%nat)
                         members).
    { eapply Forall_impl; [|exact IH]. intros [k x] H. unfold member_text.
      rewrite length_app. cbn [List.length snd] in *. lia. }
    pose proof (sum_le_join member_text (fun kv => weight (snd kv)) members IH'). lia.
Qed.

(** Round trip: what [JSON.stringify] writes, [JSON.parse] reads back. *)
Theorem parse_stringify v : distinct_keys v -> parse (stringify v) = Some v.
Proof.
  intros D. unfold parse.
  pose proof (skip_ws_value v []) as SW. rewrite app_nil_r in SW. rewrite SW.
  pose proof (parse_value_stringify v D (2 * List.length (stringify v) + 2)%nat []) as P.
  rewrite app_nil_r in P. rewrite P; [reflexivity | | exact I].
  pose proof (weight_le_length v). lia.
Qed.


(** *** Fuel *)

Lemma skip_ws_length s : (List.length (skip_ws s) <= List.length s)%nat.
Proof.
  induction s as [|c r IH]; simpl; [lia|].
  destruct (is_json_ws c); simpl; lia.
Qed.

Lemma parse_chars_length_bound n : forall s t rest,
  (List.length s <= n)%nat ->
  parse_chars s = Some (t, rest) -> (List.length rest < List.length s)%nat.
Proof.
  induction n as [|n IH]; intros s t rest B;
    (destruct s as [|c r]; [discriminate|]); [simpl in B; lia|].
  cbn [parse_chars].
  destruct (c =? 34)%N; [intros [= _ <-]; simpl; lia|].
  destruct (c <? 32)%N; [discriminate|].
  assert (K : forall (x : N) (r1 : jsstring),
             (List.length r1 < List.length (c :: r))%nat ->
             match parse_chars r1 with
             | Some (t0, rest0) => Some (x :: t0, rest0)
             | None => None
             end = Some (t, rest) ->
             (List.length rest < List.length (c :: r))%nat).
  { intros x r1 L H. destruct (parse_chars r1) as [[t0 rest0]|] eqn:P; [|discriminate].
    injection H as _ <-. apply IH in P; [lia | simpl in *; lia]. }
  destruct (c =? 92)%N.
  - destruct r as [|e r1]; [discriminate|].
    repeat match goal with
           | |- (if ?b then _ else _) = _ -> _ =>
               destruct b; [apply K; simpl; lia|]
           end.
    destruct (e =? 117)%N; [|discriminate].
    destruct r1 as [|h1 [|h2 [|h3 [|h4 r2]]]]; try discriminate.
    destruct (hex4 h1 h2 h3 h4); [|discriminate].
    destruct (parse_chars r2) as [[t0 rest0]|] eqn:P; [|discriminate].
    intros [= _ <-]. apply IH in P; simpl in *; lia.
  - apply K. simpl. lia.
Qed.

Lemma parse_chars_length s t rest :
  parse_chars s = Some (t, rest) -> (List.length rest < List.length s)%nat.
Proof. apply (parse_chars_length_bound (List.length s)). apply le_n. Qed.

Lemma digits_length s : forall acc n,
  (List.length (snd (digits acc n s)) <= List.length s)%nat
  /\ (n <= snd (fst (digits acc n s)))%nat
  /\ (snd (fst (digits acc n s)) = n -> snd (digits acc n s) = s)
  /\ (snd (fst (digits acc n s)) <> n -> List.length (snd (digits acc n s)) < List.length s)%nat.
Proof.
  induction s as [|c r IH]; intros acc n; cbn [digits].
  - simpl. repeat split; lia || congruence.
  - destruct (is_digit c).
    + destruct (IH (acc * 10 + (c - 48))%N (S n)) as (L & M & _ & _).
      repeat split; simpl in *; try lia.
    + simpl. repeat split; lia || congruence.
Qed.

Lemma parse_int_length s i rest :
  parse_int s = Some (i, rest) -> (List.length rest < List.length s)%nat.
Proof.
  unfold parse_int. destruct s as [|c r]; [discriminate|].
  destruct (c =? 48)%N; [intros [= _ <-]; simpl; lia|].
  destruct (is_digit c) eqn:D; [|discriminate].
  destruct (digits 0 0 (c :: r)) as [[i' n] rest'] eqn:E. intros [= _ <-].
  pose proof (digits_length (c :: r) 0 0) as (_ & _ & _ & H). rewrite E in H. simpl in H.
  apply H. cbn [digits] in E. rewrite D in E.
  pose proof (digits_length r (0 * 10 + (c - 48))%N 1) as (_ & M & _). rewrite E in M.
  simpl in M. lia.
Qed.

Lemma parse_frac_length i s m n rest :
  parse_frac i s = Some (m, n, rest) -> (List.length rest <= List.length s)%nat.
Proof.
  unfold parse_frac. destruct s as [|c r]; [intros [= _ _ <-]; lia|].
  destruct (c =? 46)%N.
  - destruct (digits i 0 r) as [[m' n'] rest'] eqn:E.
    pose proof (digits_length r i 0) as (L & _). rewrite E in L. simpl in L.
    destruct n'; [discriminate|]. intros [= _ _ <-]. simpl. lia.
  - intros [= _ _ <-]. lia.
Qed.

Lemma parse_exp_length s e rest :
  parse_exp s = Some (e, rest) -> (List.length rest <= List.length s)%nat.
Proof.
  unfold parse_exp. destruct s as [|c r]; [intros [= _ <-]; lia|].
  destruct ((c =? 101) || (c =? 69))%N; [|intros [= _ <-]; lia].
  assert (K : forall (r1 : jsstring) (neg : bool),
             (List.length r1 <= List.length r)%nat ->
             match digits 0 0 r1 with
             | (_, O, _) => @None (Z * jsstring)
             | (x, _, rest0) => Some (if neg then - Z.of_N x else Z.of_N x, rest0)
             end = Some (e, rest) ->
             (List.length rest <= List.length (c :: r))%nat).
  { intros r1 neg L. destruct (digits 0 0 r1) as [[x n] rest0] eqn:E.
    pose proof (digits_length r1 0 0) as (L' & _). rewrite E in L'. simpl in L'.
    destruct n; [discriminate|]. intros [= _ <-]. simpl. lia. }
  destruct r as [|sg r']; [apply (K [] false); lia|].
  destruct (sg =? 45)%N; [apply (K r' true); simpl; lia|].
  destruct (sg =? 43)%N; [apply (K r' false) | apply (K (sg :: r') false)]; simpl; lia.
Qed.

Lemma parse_number_length s v rest :
  parse_number s = Some (v, rest) -> (List.length rest < List.length s)%nat.
Proof.
  unfold parse_number.
  destruct (parse_sign s) as [neg s1] eqn:S.
  assert (L1 : (List.length s1 <= List.length s)%nat).
  { unfold parse_sign in S. destruct s as [|c r]; [injection S as _ <-; lia|].
    destruct (c =? 45)%N; injection S as _ <-; simpl; lia. }
  destruct (parse_int s1) as [[i s2]|] eqn:I; [|discriminate].
  apply parse_int_length in I.
  destruct (parse_frac i s2) as [[[m n] s3]|] eqn:F; [|discriminate].
  apply parse_frac_length in F.
  destruct (parse_exp s3) as [[e s4]|] eqn:X; [|discriminate].
  apply parse_exp_length in X. intros [= _ <-]. lia.
Qed.

Lemma starts_with_length lit : forall s rest,
  starts_with lit s = Some rest -> (List.length rest <= List.length s)%nat.
Proof.
  induction lit as [|a lit IH]; intros s rest; cbn [starts_with].
  - intros [= <-]. lia.
  - destruct s as [|b s]; [discriminate|].
    destruct (a =? b)%N; [|discriminate]. intros H. apply IH in H. simpl. lia.
Qed.


(** A successful call consumes at least one character. *)
Lemma parse_consumes fuel :
  (forall s v r, parse_value fuel s = Some (v, r) -> (List.length r < List.length s)%nat)
  /\ (forall s l r, parse_elements fuel s = Some (l, r) ->
                    (List.length r < List.length s)%nat)
  /\ (forall acc s l r, parse_members fuel acc s = Some (l, r) ->
                        (List.length r < List.length s)%nat).
Proof.
  induction fuel as [|fuel (IHv & IHe & IHm)]; [repeat split; discriminate|].
  split; [|split].
  - intros s v r. cbn [parse_value]. destruct s as [|c s]; [discriminate|].
    destruct (c =? 110)%N.
    { destruct (starts_with (js "ull") s) eqn:E; [|discriminate].
      apply starts_with_length in E. intros [= _ <-]. simpl. lia. }
    destruct (c =? 116)%N.
    { destruct (starts_with (js "rue") s) eqn:E; [|discriminate].
      apply starts_with_length in E. intros [= _ <-]. simpl. lia. }
    destruct (c =? 102)%N.
    { destruct (starts_with (js "alse") s) eqn:E; [|discriminate].
      apply starts_with_length in E. intros [= _ <-]. simpl. lia. }
    destruct (c =? 34)%N.
    { destruct (parse_chars s) as [[t rest]|] eqn:E; [|discriminate].
      apply parse_chars_length in E. intros [= _ <-]. simpl. lia. }
    destruct (c =? 91)%N.
    { pose proof (skip_ws_length s) as L.
      destruct (skip_ws s) as [|d r']; [discriminate|].
      destruct (d =? 93)%N; [intros [= _ <-]; simpl in *; lia|].
      destruct (parse_elements fuel (d :: r')) as [[l rest]|] eqn:E; [|discriminate].
      apply IHe in E. intros [= _ <-]. simpl in *. lia. }
    destruct (c =? 123)%N.
    { pose proof (skip_ws_length s) as L.
      destruct (skip_ws s) as [|d r']; [discriminate|].
      destruct (d =? 125)%N; [intros [= _ <-]; simpl in *; lia|].
      destruct (parse_members fuel [] (d :: r')) as [[l rest]|] eqn:E; [|discriminate].
      apply IHm in E. intros [= _ <-]. simpl in *. lia. }
    apply parse_number_length.
  - intros s l r. cbn [parse_elements].
    destruct (parse_value fuel s) as [[v r0]|] eqn:V; [|discriminate].
    apply IHv in V. pose proof (skip_ws_length r0) as L.
    destruct (skip_ws r0) as [|c r']; [discriminate|].
    destruct (c =? 44)%N.
    { pose proof (skip_ws_length r') as L'.
      destruct (parse_elements fuel (skip_ws r')) as [[l' rest]|] eqn:E; [|discriminate].
      apply IHe in E. intros [= _ <-]. simpl in *. lia. }
    destruct (c =? 93)%N; [|discriminate]. intros [= _ <-]. simpl in *. lia.
  - intros acc s l r. cbn [parse_members].
    destruct s as [|q r0]; [discriminate|].
    destruct (q =? 34)%N; [|discriminate].
    destruct (parse_chars r0) as [[k r1]|] eqn:K; [|discriminate].
    apply parse_chars_length in K. pose proof (skip_ws_length r1) as L1.
    destruct (skip_ws r1) as [|colon r2]; [discriminate|].
    destruct (colon =? 58)%N; [|discriminate].
    pose proof (skip_ws_length r2) as L2.
    destruct (parse_value fuel (skip_ws r2)) as [[v r3]|] eqn:V; [|discriminate].
    apply IHv in V. pose proof (skip_ws_length r3) as L3.
    destruct (skip_ws r3) as [|c r4]; [discriminate|].
    destruct (c =? 44)%N.
    { pose proof (skip_ws_length r4) as L4. intros E. apply IHm in E. simpl in *. lia. }
    destruct (c =? 125)%N; [|discriminate]. intros [= _ <-]. simpl in *. lia.
Qed.

(** More fuel than twice the length of the text changes nothing. *)
Lemma parse_fuel fuel :
  (forall s fuel', (2 * List.length s + 1 <= fuel)%nat -> (fuel <= fuel')%nat ->
                   parse_value fuel' s = parse_value fuel s)
  /\ (forall s fuel', (2 * List.length s + 2 <= fuel)%nat -> (fuel <= fuel')%nat ->
                      parse_elements fuel' s = parse_elements fuel s)
  /\ (forall acc s fuel', (2 * List.length s + 2 <= fuel)%nat -> (fuel <= fuel')%nat ->
                          parse_members fuel' acc s = parse_members fuel acc s).
Proof.
  induction fuel as [|fuel (IHv & IHe & IHm)]; [repeat split; intros; lia|].
  split; [|split].
  - intros s [|fuel'] B F; [lia|]. cbn [parse_value].
    destruct s as [|c s]; [reflexivity|].
    destruct (c =? 110)%N; [reflexivity|]. destruct (c =? 116)%N; [reflexivity|].
    destruct (c =? 102)%N; [reflexivity|]. destruct (c =? 34)%N; [reflexivity|].
    pose proof (skip_ws_length s) as L.
    destruct (c =? 91)%N.
    { destruct (skip_ws s) as [|d r']; [reflexivity|].
      destruct (d =? 93)%N; [reflexivity|].
      rewrite (IHe (d :: r') fuel') by (simpl in *; lia). reflexivity. }
    destruct (c =? 123)%N; [|reflexivity].
    destruct (skip_ws s) as [|d r']; [reflexivity|].
    destruct (d =? 125)%N; [reflexivity|].
    rewrite (IHm [] (d :: r') fuel') by (simpl in *; lia). reflexivity.
  - intros s [|fuel'] B F; [lia|]. cbn [parse_elements].
    rewrite (IHv s fuel') by lia.
    destruct (parse_value fuel s) as [[v r0]|] eqn:V; [|reflexivity].
    apply (proj1 (parse_consumes fuel)) in V. pose proof (skip_ws_length r0) as L.
    destruct (skip_ws r0) as [|c r']; [reflexivity|].
    destruct (c =? 44)%N; [|reflexivity].
    pose proof (skip_ws_length r') as L'.
    rewrite (IHe (skip_ws r') fuel') by (simpl in *; lia). reflexivity.
  - intros acc s [|fuel'] B F; [lia|]. cbn [parse_members].
    destruct s as [|q r0]; [reflexivity|].
    destruct (q =? 34)%N; [|reflexivity].
    destruct (parse_chars r0) as [[k r1]|] eqn:K; [|reflexivity].
    apply parse_chars_length in K. pose proof (skip_ws_length r1) as L1.
    destruct (skip_ws r1) as [|colon r2]; [reflexivity|].
    destruct (colon =? 58)%N; [|reflexivity].
    pose proof (skip_ws_length r2) as L2.
    rewrite (IHv (skip_ws r2) fuel') by (simpl in *; lia).
    destruct (parse_value fuel (skip_ws r2)) as [[v r3]|] eqn:V; [|reflexivity].
    apply (proj1 (parse_consumes fuel)) in V. pose proof (skip_ws_length r3) as L3.
    destruct (skip_ws r3) as [|c r4]; [reflexivity|].
    destruct (c =? 44)%N; [|reflexivity].
    pose proof (skip_ws_length r4) as L4.
    rewrite (IHm (set_member k v acc) (skip_ws r4) fuel') by (simpl in *; lia). reflexivity.
Qed.

(** [parse] never fails for want of fuel: any larger amount gives the same
    answer, so [None] is a syntax error. *)
Theorem parse_fuel_enough text fuel :
  (2 * List.length text + 2 <= fuel)%nat ->
  parse_value fuel (skip_ws text) = parse_value (2 * List.length text + 2) (skip_ws text).
Proof.
  intros F. apply (proj1 (parse_fuel _)); [|exact F].
  pose proof (skip_ws_length text). lia.
Qed.

End JsonFacts.

(** ** The stored collection *)

Lemma distinct_keys_message m : distinct_keys (Message.to_json m).
Proof.
  apply JsonFacts.distinct_keys_object.
  destruct m as [i x u [m|] ts [b|]]; cbn [Message.to_json Message.modelId Message.isTyping
                                           Datatypes.app map fst snd];
    (split; [repeat (constructor; [simpl; intuition discriminate|]); constructor
            | repeat constructor]).
Qed.

Lemma distinct_keys_conversation c : distinct_keys (Conversation.to_json c).
Proof.
  apply JsonFacts.distinct_keys_object. cbn [Conversation.to_json map fst snd]. split.
  - repeat (constructor; [simpl; intuition discriminate|]). constructor.
  - repeat constructor. cbn [snd]. apply JsonFacts.distinct_keys_array.
    apply Forall_map, Forall_forall. intros m _. apply distinct_keys_message.
Qed.

Lemma distinct_keys_conversations cs : distinct_keys (conversations_to_json cs).
Proof.
  apply JsonFacts.distinct_keys_array.
  apply Forall_map, Forall_forall. intros c _. apply distinct_keys_conversation.
Qed.

Lemma sequence_map {A B : Type} (f : A -> B) (g : B -> option A) (l : list A) :
  (forall x, g (f x) = Some x) -> sequence (map g (map f l)) = Some l.
Proof.
  intros H. induction l as [|x l IH]; [reflexivity|].
  cbn [map sequence]. now rewrite H, IH.
Qed.

Lemma message_of_to_json m : Message.of_json (Message.to_json m) = Some m.
Proof. destruct m as [i x u [m|] ts [b|]]; reflexivity. Qed.

Lemma conversation_of_to_json c : Conversation.of_json (Conversation.to_json c) = Some c.
Proof.
  destruct c as [i x msgs n ts]. unfold Conversation.of_json, Conversation.to_json.
  cbn [Conversation.id Conversation.title Conversation.messages Conversation.messageCount
       Conversation.createdAt].
  change (Json.get (js "id") _) with (Some (JNumber i 0)).
  change (Json.get (js "title") _) with (Some (JString x)).
  change (Json.get (js "messages") _) with (Some (JArray (map Message.to_json msgs))).
  change (Json.get (js "messageCount") _) with (Some (JNumber n 0)).
  change (Json.get (js "createdAt") _) with (Some (JString ts)).
  cbv iota. now rewrite (sequence_map _ _ _ message_of_to_json).
Qed.

(** The typed view of the serialized collection is the collection. *)
Lemma conversations_of_to_json cs :
  conversations_of_json (conversations_to_json cs) = Some cs.
Proof. apply sequence_map, conversation_of_to_json. Qed.

(** Round trip: the text the save effect writes parses to the value it
    was written from. *)
Theorem parse_stringify_conversations cs :
  Json.parse (stringify_conversations cs) = Some (conversations_to_json cs).
Proof. apply JsonFacts.parse_stringify, distinct_keys_conversations. Qed.

Lemma load_effect_stringify_conversations cs :
  App.load_effect (Some (stringify_conversations cs))
  = App.LoadSets (conversations_to_json cs).
Proof.
  unfold App.load_effect. rewrite parse_stringify_conversations. reflexivity.
Qed.

(** A page that mounts over what the save effect wrote has the collection
    that was written, and the item is unchanged. *)
Theorem mount_stringify_conversations cs :
  App.mount (Some (stringify_conversations cs))
  = App.Mounted (App.mk [] false None (js "gpt") cs None
                        (Some (stringify_conversations cs))).
Proof.
  unfold App.mount. rewrite load_effect_stringify_conversations, conversations_of_to_json.
  unfold App.setConversations, App.save_effect, App.initial. simpl.
  destruct cs; reflexivity.
Qed.

Lemma mount_fresh : App.mount None = App.Mounted (app fresh).
Proof. reflexivity. Qed.

(** ** Conversions of values *)

Lemma format_nonempty s p : Js.format s p <> [].
Proof.
  unfold Js.format.
  destruct (JsonFacts.decimal_Z_head s) as (c & r & E & _). rewrite E.
  cbv zeta.
  destruct (_ && _); [discriminate|].
  destruct (_ && _).
  { intros H. apply app_eq_nil in H. destruct H as [_ H]. discriminate. }
  destruct (_ && _); [discriminate|].
  destruct r; discriminate.
Qed.

(** The text of a number is never empty. *)
Lemma Number_toString_nonempty m e : Js.Number_toString m e <> [].
Proof.
  unfold Js.Number_toString.
  destruct (Js.to_double (Z.abs m) e) as [|f q|]; [discriminate| |].
  - destruct (Js.binary_ratio f q) as [num den].
    destruct (Js.shortest _ _ _ _ _ _ _) as [s p].
    destruct (Js.strip_zeros _ _ _) as [s' p'].
    destruct (m <? 0); [discriminate | apply format_nonempty].
  - destruct (m <? 0); discriminate.
Qed.

Lemma http_error_nonempty status : truthy_string (Api.http_error status) = true.
Proof. reflexivity. Qed.

(** The message [sendMessage] throws after a response that is not 2xx, or
    the fallback of [handleSendMessage] when that message is empty, by the
    [detail] of the body. *)
Lemma error_message_cases status body :
  or_string (Api.error_message status body) App.fallback_error
  = match Api.detail (Json.parse body) with
    | None | Some JNull | Some (JBool false) | Some (JString []) =>
        Api.http_error status
    | Some (JString (c :: d)) => c :: d
    | Some (JBool true) => js "true"
    | Some (JNumber m e) =>
        match Js.to_double (Z.abs m) e with
        | Js.Zero => Api.http_error status
        | _ => Js.Number_toString m e
        end
    | Some (JArray items) =>
        match Js.ToString (JArray items) with
        | Some [] => App.fallback_error
        | Some (c :: d) => c :: d
        | None => Js.cannot_convert
        end
    | Some (JObject members) =>
        match Json.get (js "toString") members with
        | Some _ => Js.cannot_convert
        | None => js "[object Object]"
        end
    end.
Proof.
  unfold Api.error_message.
  destruct (Api.detail (Json.parse body)) as [[|[|]|m e|[|c d]|items|members]|];
    cbn [Js.ToBoolean truthy_string]; try reflexivity.
  - destruct (Js.to_double (Z.abs m) e) eqn:D; [reflexivity| |];
      change (Js.ToString (JNumber m e)) with (Some (Js.Number_toString m e));
      apply or_string_truthy;
      pose proof (Number_toString_nonempty m e) as N;
      destruct (Js.Number_toString m e); [contradiction | reflexivity | contradiction | reflexivity].
  - destruct (Js.ToString (JArray items)) as [[|c d]|]; reflexivity.
  - change (Js.ToString (JObject members))
      with (match Json.get (js "toString") members with
            | Some _ => None
            | None => Some (js "[object Object]")
            end).
    destruct (Json.get (js "toString") members); reflexivity.
Qed.

(** Number::toString on the usual cases: integers, fractions, the
    thresholds [1e21] and [1e-7] of the exponent form, rounding to the
    nearest double, the largest and the smallest values. *)
Example Number_toString_samples :
  map (fun me => Js.Number_toString (fst me) (snd me))
      [(422, 0); (15, -1); (-5, -1); (1, 21); (1, 20); (1, -6); (1, -7);
       (123456789012345678901, 0); (9007199254740993, 0); (1, -1); (150, -2);
       (17976931348623157, 292); (1, 400); (5, -324); (2, -324); (0, 0)]
  = [js "422"; js "1.5"; js "-0.5"; js "1e+21"; js "100000000000000000000";
     js "0.000001"; js "1e-7"; js "123456789012345680000"; js "9007199254740992";
     js "0.1"; js "1.5"; js "1.7976931348623157e+308"; js "Infinity"; js "5e-324";
     js "0"; js "0"].
Proof. vm_compute. reflexivity. Qed.

(** [String] of the values a [detail] can be. *)
Example ToString_samples :
  option_map (map Js.ToString) (option_map (fun v => match v with JArray l => l | _ => [] end)
    (Json.parse (js "[[], [null], [1, [2, 3]], {}, [{}, {}], true, [" ++ dq "a"
                    ++ js ", null, false, 0], {" ++ dq "toString" ++ js ": 1}]")))
  = Some [Some []; Some []; Some (js "1,2,3"); Some (js "[object Object]");
          Some (js "[object Object],[object Object]"); Some (js "true");
          Some (js "a,,false,0"); None].
Proof. vm_compute. reflexivity. Qed.

(** ** Examples *)

Example parse_array_of_objects :
  Json.parse (js "[ {" ++ dq "a" ++ js " : 1.5e2, " ++ dq "b" ++ js ":[true,null,"
              ++ dq "x\n" ++ js "], " ++ dq "a" ++ js ": -7} ]")
  = Some (JArray [JObject [(js "a", JNumber (-7) 0);
                           (js "b", JArray [JBool true; JNull; JString (js "x" ++ [10%N])])]]).
Proof. vm_compute. reflexivity. Qed.

Example parse_rejects_open_brace : Json.parse (js "{") = None.
Proof. reflexivity. Qed.

(** Texts [JSON.parse] refuses: a trailing comma, a leading zero, a bare
    fraction, an exponent without digits, an unquoted key, a literal cut
    short, two values, an unterminated string, an unknown escape, a control
    character inside a string, a byte order mark. *)
Example parse_rejects :
  map Json.parse
      [js "[1,]"; js "01"; js ".5"; js "1e"; js "{a:1}"; js "nul"; js "true false";
       34%N :: js "abc"; dq "a\qb"; 34%N :: 9%N :: [34%N]; 65279%N :: js "[]"; js "1."; js "-"]
  = repeat None 13.
Proof. vm_compute. reflexivity. Qed.

(** Texts it accepts: white space around the tokens, nesting, the number
    forms, the escapes. *)
Example parse_accepts :
  map Json.parse
      [[32; 9; 10; 13]%N ++ js "[ ]" ++ [10%N]; js "[[[],{}]]"; js "-0"; js "12.50";
       js "1E+2"; js "2e-3"; dq "\u0041\uD83D\ude00\/\t"]
  = [Some (JArray []); Some (JArray [JArray [JArray []; JObject []]]);
     Some (JNumber 0 0); Some (JNumber 1250 (-2)); Some (JNumber 1 2);
     Some (JNumber 2 (-3)); Some (JString [65; 55357; 56832; 47; 9]%N)].
Proof. vm_compute. reflexivity. Qed.

(** [JSON.stringify] escapes control characters and lone surrogates, and
    leaves a surrogate pair as it is. *)
Example quote_escapes :
  Json.quote [31; 55357; 56832; 56832; 233]%N
  = [34%N] ++ js "\u001f" ++ [55357; 56832]%N ++ js "\ude00" ++ [233; 34]%N.
Proof. vm_compute. reflexivity. Qed.

Example stringify_sample :
  Json.stringify (JObject [(js "id", JNumber 1730000000000 0);
                           (js "t", JString (js "a" ++ [34%N; 10%N]))])
  = js "{" ++ dq "id" ++ js ":1730000000000," ++ dq "t" ++ js ":"
       ++ [34; 97; 92; 34; 92; 110; 34]%N ++ js "}".
Proof. vm_compute. reflexivity. Qed.

Example stringify_stored_conversation :
  stringify_conversations [Sample.ovaltine]
  = js "[{" ++ dq "id" ++ js ":1710000000500," ++ dq "title" ++ js ":"
       ++ dq "Tell me about Ovaltine products" ++ js "," ++ dq "messages" ++ js ":[],"
       ++ dq "messageCount" ++ js ":0," ++ dq "createdAt" ++ js ":"
       ++ dq "2024-03-09T16:00:00.500Z" ++ js "}]".
Proof. vm_compute. reflexivity. Qed.

(** ** Submitting blank text *)

Lemma handleSubmit_blank inp loading :
  blank inp -> ChatInput.handleSubmit inp loading = (None, inp).
Proof.
  intros B. unfold ChatInput.handleSubmit. now rewrite (trim_blank _ B).
Qed.

Lemma handleSubmit_loading inp :
  ChatInput.handleSubmit inp true = (None, inp).
Proof.
  unfold ChatInput.handleSubmit. now rewrite andb_false_r.
Qed.

Lemma world_eta w : {| app := app w; input := input w; outstanding := outstanding w |} = w.
Proof. destruct w; reflexivity. Qed.

(** C7: a submission whose text is empty or made of whitespace only is a
    no-op: [onSendMessage] is not called, so no request is made, and the
    page (the active list with it) is what it was. *)
Theorem blank_submission_is_noop (w : world) (t1 t2 : instant) :
  blank (input w) ->
  fst (ChatInput.handleSubmit (input w) (App.isLoading (app w))) = None
  /\ step w (SubmitForm t1 t2) = w
  /\ App.messages (app (step w (SubmitForm t1 t2))) = App.messages (app w)
  /\ outstanding (step w (SubmitForm t1 t2)) = outstanding w.
Proof.
  intros B.
  assert (E : step w (SubmitForm t1 t2) = w).
  { unfold step. rewrite (handleSubmit_blank _ _ B). apply world_eta. }
  rewrite (handleSubmit_blank _ _ B), E. auto.
Qed.

Lemma blank_submission_is_noop_witness :
  blank (js "  " ++ [9; 10; 160]%N)
  /\ step {| app := Sample.browsing; input := js "  " ++ [9; 10; 160]%N; outstanding := [] |}
          (SubmitForm Sample.t0 Sample.t0)
     = {| app := Sample.browsing; input := js "  " ++ [9; 10; 160]%N; outstanding := [] |}.
Proof.
  assert (B : blank (js "  " ++ [9; 10; 160]%N)) by (repeat constructor).
  split; [exact B|].
  exact (proj1 (proj2 (blank_submission_is_noop
     {| app := Sample.browsing; input := js "  " ++ [9; 10; 160]%N; outstanding := [] |}
     Sample.t0 Sample.t0 B))).
Defined.

(** ** Deleting and selecting a conversation *)

Section Collection.

Variable conversationId : Z.

Let other (c : Conversation.t) : bool := negb (Conversation.id c =? conversationId).

Lemma other_true c : other c = true <-> Conversation.id c <> conversationId.
Proof.
  unfold other. rewrite negb_true_iff. split.
  - intros H. now apply Z.eqb_neq.
  - intros H. now apply Z.eqb_neq.
Qed.

(** Removing the one conversation that has the identifier. *)
Lemma filter_other_split l1 c l2 :
  Conversation.id c = conversationId ->
  (forall x, In x (l1 ++ l2) -> Conversation.id x <> conversationId) ->
  filter other (l1 ++ c :: l2) = l1 ++ l2.
Proof.
  intros Hc Hrest. rewrite filter_app. simpl.
  assert (Ec : other c = false).
  { unfold other. rewrite negb_false_iff. now apply Z.eqb_eq. }
  rewrite Ec.
  assert (K : forall l, (forall x, In x l -> Conversation.id x <> conversationId) ->
                        filter other l = l).
  { induction l as [|x l IH]; simpl; intros H; [reflexivity|].
    assert (Ex : other x = true) by (apply other_true, H; now left).
    rewrite Ex, IH; [reflexivity|]. intros y Hy. apply H. now right. }
  rewrite !K; [reflexivity| |]; intros x Hx; apply Hrest, in_or_app; auto.
Qed.

Lemma conversations_setConversations f st :
  App.conversations (App.setConversations f st) = f (App.conversations st).
Proof.
  unfold App.setConversations, App.save_effect. simpl.
  destruct (0 <? List.length (f (App.conversations st)))%nat; reflexivity.
Qed.

Lemma messages_setConversations f st :
  App.messages (App.setConversations f st) = App.messages st.
Proof.
  unfold App.setConversations, App.save_effect. simpl.
  destruct (0 <? List.length (f (App.conversations st)))%nat; reflexivity.
Qed.

Lemma current_setConversations f st :
  App.currentConversationId (App.setConversations f st) = App.currentConversationId st.
Proof.
  unfold App.setConversations, App.save_effect. simpl.
  destruct (0 <? List.length (f (App.conversations st)))%nat; reflexivity.
Qed.

Lemma id_is_true x c : App.id_is x c = true <-> c = Some x.
Proof.
  destruct c as [z|]; simpl; [|split; discriminate].
  rewrite Z.eqb_eq. split; congruence.
Qed.

(** C8: [deleteConversation(id)] removes from the collection the
    conversations that carry the identifier and keeps every other one, as
    it was and in its place; when the deleted conversation was current the
    handler goes on as [startNewConversation()]: the active list and the
    current reference are cleared; otherwise both are kept. *)
Theorem handleDeleteConversation_spec (st : App.state) :
  let st' := App.handleDeleteConversation conversationId st in
  (forall c, In c (App.conversations st') <->
             In c (App.conversations st) /\ Conversation.id c <> conversationId)
  /\ (forall l1 c l2,
         App.conversations st = l1 ++ c :: l2 ->
         Conversation.id c = conversationId ->
         (forall x, In x (l1 ++ l2) -> Conversation.id x <> conversationId) ->
         App.conversations st' = l1 ++ l2)
  /\ ((forall c, In c (App.conversations st) -> Conversation.id c <> conversationId) ->
      App.conversations st' = App.conversations st)
  /\ (if App.id_is conversationId (App.currentConversationId st)
      then st' = App.handleNewChat
                   (App.setConversations (filter other) st)
           /\ App.messages st' = []
           /\ App.currentConversationId st' = None
      else App.messages st' = App.messages st
           /\ App.currentConversationId st' = App.currentConversationId st).
Proof.
  intros st'.
  assert (E : App.conversations st' = filter other (App.conversations st)).
  { subst st'. unfold App.handleDeleteConversation.
    destruct (App.id_is conversationId (App.currentConversationId st));
      [unfold App.handleNewChat; simpl|];
      apply conversations_setConversations. }
  repeat split.
  - rewrite E in H. now apply filter_In in H.
  - rewrite E in H. apply filter_In in H. now apply other_true.
  - intros [Hin Hid]. rewrite E. apply filter_In. split; [assumption|].
    now apply other_true.
  - intros l1 c l2 Hsplit Hc Hrest. rewrite E, Hsplit.
    now apply filter_other_split.
  - intros Hnone. rewrite E.
    apply forallb_filter_id, forallb_forall. intros x Hx.
    apply other_true. auto.
  - subst st'. unfold App.handleDeleteConversation.
    destruct (App.id_is conversationId (App.currentConversationId st)).
    + repeat split.
    + split; [apply messages_setConversations | apply current_setConversations].
Qed.

(** C9: [selectConversation(id)] with an identifier that no stored
    conversation carries changes nothing; with one that is carried, the
    active list becomes the messages of the first conversation that
    carries it, the identifier becomes current, and the collection and the
    stored item are untouched. *)
Theorem handleSelectConversation_spec (st : App.state) :
  let st' := App.handleSelectConversation conversationId st in
  ((forall c, In c (App.conversations st) -> Conversation.id c <> conversationId) ->
   st' = st)
  /\ (forall l1 c l2,
         App.conversations st = l1 ++ c :: l2 ->
         Conversation.id c = conversationId ->
         (forall x, In x l1 -> Conversation.id x <> conversationId) ->
         App.messages st' = Conversation.messages c
         /\ App.currentConversationId st' = Some conversationId
         /\ App.conversations st' = App.conversations st
         /\ App.storage st' = App.storage st).
Proof.
  intros st'. subst st'. unfold App.handleSelectConversation. split.
  - intros Hnone.
    destruct (find _ (App.conversations st)) as [c|] eqn:F; [|reflexivity].
    apply find_some in F. destruct F as [Hin Hid].
    apply Z.eqb_eq in Hid. exfalso. exact (Hnone c Hin Hid).
  - intros l1 c l2 Hsplit Hc Hfirst.
    assert (F : find (fun c0 => Conversation.id c0 =? conversationId)
                     (App.conversations st) = Some c).
    { rewrite Hsplit. clear Hsplit.
      induction l1 as [|x l1 IH]; simpl.
      - apply Z.eqb_eq in Hc. now rewrite Hc.
      - assert (Ex : (Conversation.id x =? conversationId) = false)
          by (apply Z.eqb_neq, Hfirst; now left).
        rewrite Ex. apply IH. intros y Hy. apply Hfirst. now right. }
    rewrite F. simpl. auto.
Qed.

End Collection.

Lemma handleDeleteConversation_spec_witness :
  App.conversations (App.handleDeleteConversation 1720000000900 Sample.browsing)
  = [Sample.ovaltine]
  /\ App.messages (App.handleDeleteConversation 1720000000900 Sample.browsing) = []
  /\ App.currentConversationId (App.handleDeleteConversation 1720000000900 Sample.browsing)
     = None.
Proof.
  pose proof (handleDeleteConversation_spec 1720000000900 Sample.browsing) as H.
  cbv zeta in H. destruct H as (_ & Hone & _ & Hcur).
  split.
  - apply (Hone [] Sample.tea [Sample.ovaltine]); [reflexivity | reflexivity |].
    intros x [<-|[]]. vm_compute. discriminate.
  - change (App.id_is 1720000000900 (App.currentConversationId Sample.browsing)) with true in Hcur.
    destruct Hcur as (_ & Hm & Hc). split; assumption.
Defined.

Lemma handleSelectConversation_spec_witness :
  App.handleSelectConversation 42 Sample.browsing = Sample.browsing
  /\ App.messages (App.handleSelectConversation 1710000000500 Sample.browsing) = []
  /\ App.currentConversationId (App.handleSelectConversation 1710000000500 Sample.browsing)
     = Some 1710000000500.
Proof.
  split.
  - apply (proj1 (handleSelectConversation_spec 42 Sample.browsing)).
    intros c [<-|[<-|[]]]; vm_compute; discriminate.
  - destruct (proj2 (handleSelectConversation_spec 1710000000500 Sample.browsing)
                [Sample.tea] Sample.ovaltine [] eq_refl eq_refl) as (Hm & Hc & _).
    + intros x [<-|[]]. vm_compute. discriminate.
    + split; assumption.
Defined.

(** ** A submission and its answer *)

Section Submission.

Variables (text : jsstring) (t1 t2 t3 : instant).

(** State at the submission. *)
Variable st0 : App.state.

Let started := App.handleSendMessage_start text t1 t2 st0.
Let rq := snd started.
Let u := userMsg_of text t1.
Let l := loadingMsg_of t2 st0.

Lemma start_request :
  rq = App.Build_request text u l
                         (App.selectedModel st0) (App.currentConversationId st0).
Proof. reflexivity. Qed.

Lemma start_state :
  fst started =
  App.mk (App.messages st0 ++ [u; l]) true None
         (App.selectedModel st0) (App.conversations st0)
         (App.currentConversationId st0) (App.storage st0).
Proof.
  unfold started, App.handleSendMessage_start, App.setMessages. simpl.
  now rewrite <- app_assoc.
Qed.

Lemma resolve_fresh answer ms :
  Forall (fun m => Message.id m <> now t2 + 1) ms -> map (resolve t2 answer) ms = ms.
Proof.
  induction 1 as [|m ms Hm _ IH]; simpl; [reflexivity|].
  unfold resolve at 1. apply Z.eqb_neq in Hm. now rewrite Hm, IH.
Qed.

Lemma messages_on_response r st :
  App.messages (App.on_response rq r t3 st)
  = map (resolve t2 (Api.r_answer r)) (App.messages st).
Proof.
  unfold App.on_response. cbv zeta.
  destruct (App.truthy_id (App.req_currentConversationId rq)).
  - now rewrite messages_setConversations.
  - unfold App.setCurrentConversationId. cbn [App.messages].
    now rewrite messages_setConversations.
Qed.

Lemma messages_on_error message st :
  App.messages (App.on_error rq message st)
  = filter (fun msg => negb (Message.id msg =? now t2 + 1)) (App.messages st).
Proof. reflexivity. Qed.

Lemma filter_fresh ms :
  Forall (fun m => Message.id m <> now t2 + 1) ms ->
  filter (fun msg => negb (Message.id msg =? now t2 + 1)) ms = ms.
Proof.
  induction 1 as [|m ms Hm _ IH]; simpl; [reflexivity|].
  apply Z.eqb_neq in Hm. now rewrite Hm, IH.
Qed.

Lemma conversations_on_response_current cid r st :
  App.currentConversationId st0 = Some cid -> cid <> 0 ->
  App.conversations (App.on_response rq r t3 st)
  = map (fun conv => if Conversation.id conv =? cid
                     then extended text t1 t2 st0 (Api.r_answer r) conv else conv)
        (App.conversations st).
Proof.
  intros Hc Hnz. unfold App.on_response. cbv zeta.
  change (App.req_currentConversationId rq) with (App.currentConversationId st0).
  rewrite Hc. simpl App.truthy_id.
  apply Z.eqb_neq in Hnz. rewrite Hnz. simpl negb. cbv iota.
  rewrite conversations_setConversations. reflexivity.
Qed.

Lemma on_response_none r st :
  App.currentConversationId st0 = None ->
  App.conversations (App.on_response rq r t3 st)
  = created text t1 t2 t3 st0 (Api.r_answer r) :: App.conversations st
  /\ App.currentConversationId (App.on_response rq r t3 st) = Some (now t3).
Proof.
  intros Hc. unfold App.on_response. cbv zeta.
  change (App.req_currentConversationId rq) with (App.currentConversationId st0).
  rewrite Hc. simpl App.truthy_id. cbv iota.
  split; [|reflexivity].
  unfold App.setCurrentConversationId. cbn [App.conversations].
  rewrite conversations_setConversations. reflexivity.
Qed.

(** C4: the answer of a submission made while the conversation [cid] was
    current extends every stored conversation that carries [cid] by the
    user message and the resolved assistant message, its [messageCount]
    grows by 2, and every other conversation is kept in its place; the
    answer of a submission made while no conversation was current puts in
    front of the collection a new conversation that holds these two
    messages, is titled with the first 50 characters of the text, counts 2
    messages, and becomes current. *)
Theorem answer_updates_collection (body : Api.chat_body) (st : App.state) :
  let answer := Api.answer body in
  let st' := App.handleSendMessage_settle rq (Api.sendMessage (Api.ResponseOk (inr body)))
                                          t3 st in
  (Message.text u = text /\ Message.isUser u = true
   /\ Message.text (App.answered answer l) = answer
   /\ Message.isUser (App.answered answer l) = false
   /\ Message.isTyping (App.answered answer l) = Some false)
  /\ (forall cid,
        App.currentConversationId st0 = Some cid -> cid <> 0 ->
        List.length (App.conversations st') = List.length (App.conversations st)
        /\ forall i conv,
            nth_error (App.conversations st) i = Some conv ->
            if Conversation.id conv =? cid then
              exists conv',
                nth_error (App.conversations st') i = Some conv'
                /\ Conversation.id conv' = cid
                /\ Conversation.messages conv'
                   = Conversation.messages conv ++ exchange text t1 t2 st0 answer
                /\ List.length (Conversation.messages conv')
                   = (List.length (Conversation.messages conv) + 2)%nat
                /\ Conversation.messageCount conv' = Conversation.messageCount conv + 2
            else nth_error (App.conversations st') i = Some conv)
  /\ (App.currentConversationId st0 = None ->
      App.conversations st' = created text t1 t2 t3 st0 answer :: App.conversations st
      /\ App.currentConversationId st' = Some (Conversation.id (created text t1 t2 t3 st0 answer))
      /\ Conversation.messages (created text t1 t2 t3 st0 answer) = exchange text t1 t2 st0 answer
      /\ Conversation.messageCount (created text t1 t2 t3 st0 answer) = 2
      /\ Conversation.title (created text t1 t2 t3 st0 answer) = firstn 50 text
      /\ (List.length (Conversation.title (created text t1 t2 t3 st0 answer)) <= 50)%nat).
Proof.
  intros answer st'. split; [repeat split|]. split.
  - intros cid Hc Hnz.
    assert (E : App.conversations st'
                = map (fun conv => if Conversation.id conv =? cid
                                   then extended text t1 t2 st0 answer conv else conv)
                      (App.conversations st)).
    { subst st'. unfold App.handleSendMessage_settle. simpl Api.sendMessage.
      exact (conversations_on_response_current cid
               {| Api.r_answer := Api.answer body; Api.r_modelUsed := Api.model_used body |}
               st Hc Hnz). }
    split; [rewrite E; apply length_map|].
    intros i conv Hi. rewrite E.
    rewrite nth_error_map, Hi. simpl.
    destruct (Conversation.id conv =? cid) eqn:Eid; [|reflexivity].
    exists (extended text t1 t2 st0 answer conv). apply Z.eqb_eq in Eid.
    repeat split; simpl; auto.
    rewrite length_app. reflexivity.
  - intros Hc.
    destruct (on_response_none
                {| Api.r_answer := Api.answer body; Api.r_modelUsed := Api.model_used body |}
                st Hc) as [E1 E2].
    repeat split.
    + exact E1.
    + exact E2.
    + unfold created, slice0. cbn [Conversation.title]. apply firstn_le_length.
Qed.

End Submission.

Lemma answer_updates_collection_witness :
  App.conversations
    (App.handleSendMessage_settle
       (snd (App.handleSendMessage_start Sample.question Sample.t0 Sample.t1 (App.initial None)))
       (Api.sendMessage (Api.ResponseOk (inr Sample.reply))) Sample.t2
       (fst (App.handleSendMessage_start Sample.question Sample.t0 Sample.t1 (App.initial None))))
  = [Conversation.mk 1730000004321 Sample.question
       [Message.mk 1730000000000 Sample.question true None
                   (js "2024-10-27T03:33:20.000Z") None;
        Message.mk 1730000000008 (js "Twinings was founded in 1706...") false
                   (Some (js "gpt")) (js "2024-10-27T03:33:20.007Z") (Some false)]
       2 (js "2024-10-27T03:33:24.321Z")].
Proof.
  destruct (answer_updates_collection Sample.question Sample.t0 Sample.t1 Sample.t2
              (App.initial None) Sample.reply
              (fst (App.handleSendMessage_start Sample.question Sample.t0 Sample.t1
                                                (App.initial None))))
    as (_ & _ & Hnew).
  destruct (Hnew eq_refl) as (E & _). rewrite E. reflexivity.
Defined.

(** The same question asked while the conversation [tea] is current: the
    exchange goes to [tea], in its place, and the item is rewritten. *)
Example answer_extends_current_conversation :
  let w := run {| app := Sample.browsing; input := Sample.question; outstanding := [] |}
               [SubmitForm Sample.t0 Sample.t1;
                Settles 0 (Api.ResponseOk (inr Sample.reply)) Sample.t2] in
  map Conversation.id (App.conversations (app w)) = [1720000000900; 1710000000500]
  /\ map Conversation.messageCount (App.conversations (app w)) = [4; 0]
  /\ map (fun c => List.length (Conversation.messages c)) (App.conversations (app w))
     = [4; 0]%nat
  /\ map Conversation.title (App.conversations (app w))
     = [js "How is tea processed?"; js "Tell me about Ovaltine products"]
  /\ App.currentConversationId (app w) = Some 1720000000900
  /\ App.storage (app w) = Some (stringify_conversations (App.conversations (app w))).
Proof. vm_compute. repeat split. Qed.

(** An identifier 0, which [Date.now()] never gives, is falsy: a submission
    made while such a conversation is current starts a new conversation. *)
Remark falsy_identifier_starts_new_conversation text t1 t2 t3 st0 r st :
  App.currentConversationId st0 = Some 0 ->
  App.conversations
    (App.on_response (snd (App.handleSendMessage_start text t1 t2 st0)) r t3 st)
  = created text t1 t2 t3 st0 (Api.r_answer r) :: App.conversations st.
Proof.
  intros Hc. unfold App.on_response. cbv zeta.
  change (App.req_currentConversationId (snd (App.handleSendMessage_start text t1 t2 st0)))
    with (App.currentConversationId st0).
  rewrite Hc. simpl App.truthy_id. cbv iota.
  unfold App.setCurrentConversationId. cbn [App.conversations].
  rewrite conversations_setConversations. reflexivity.
Qed.

(** ** The page: submitting, and the answer or the failure that follows *)

Lemma nth_error_snoc {A : Type} (l : list A) (x : A) :
  nth_error (l ++ [x]) (List.length l) = Some x.
Proof. induction l; simpl; auto. Qed.

Lemma remove_nth_snoc {A : Type} (l : list A) (x : A) :
  remove_nth (List.length l) (l ++ [x]) = l.
Proof. induction l; simpl; [reflexivity|]. now f_equal. Qed.

Section Page.

Variables (w : world) (t1 t2 t3 : instant).

Let text := trim (input w).
Let u := userMsg_of text t1.
Let l := loadingMsg_of t2 (app w).
Let w1 := step w (SubmitForm t1 t2).
Let k := List.length (outstanding w).

Hypothesis not_blank : ~ blank (input w).
Hypothesis idle : App.isLoading (app w) = false.

Lemma submit_sends :
  w1 = send text t1 t2 w [].
Proof.
  unfold w1, step, ChatInput.handleSubmit.
  rewrite (not_blank_truthy _ not_blank), idle. reflexivity.
Qed.

Lemma submit_app :
  app w1 = fst (App.handleSendMessage_start text t1 t2 (app w))
  /\ outstanding w1
     = outstanding w ++ [snd (App.handleSendMessage_start text t1 t2 (app w))].
Proof. rewrite submit_sends. unfold send. simpl. split; reflexivity. Qed.

Lemma submit_messages : App.messages (app w1) = App.messages (app w) ++ [u; l].
Proof.
  rewrite (proj1 submit_app), start_state. reflexivity.
Qed.

Lemma settle_app (o : Api.outcome) :
  app (step w1 (Settles k o t3))
  = App.handleSendMessage_settle
      (snd (App.handleSendMessage_start text t1 t2 (app w)))
      (Api.sendMessage o) t3 (app w1).
Proof.
  unfold step. rewrite (proj2 submit_app). unfold k.
  rewrite nth_error_snoc. reflexivity.
Qed.

(** C5: text that is not blank, submitted while no request is in flight,
    is sent: the active list grows by the user message and, after it, the
    assistant message, pending and with an empty text; when the answer
    arrives the list has the same length, its last message is that
    assistant message with the answer as text and [isTyping] false, and,
    the identifier of the pending message being carried by no other
    message of the list, nothing else has changed. *)
Theorem submission_appends_exchange (body : Api.chat_body) :
  let w2 := step w1 (Settles k (Api.ResponseOk (inr body)) t3) in
  let a := App.answered (Api.answer body) l in
  (App.messages (app w1) = App.messages (app w) ++ [u; l]
   /\ Message.isUser u = true /\ Message.text u = trim (input w)
   /\ Message.isUser l = false /\ Message.text l = []
   /\ Message.isTyping l = Some true
   /\ App.isLoading (app w1) = true
   /\ List.length (outstanding w1) = S (List.length (outstanding w)))
  /\ (List.length (App.messages (app w2))
      = (List.length (App.messages (app w)) + 2)%nat
      /\ nth_error (App.messages (app w2)) (List.length (App.messages (app w)) + 1)
         = Some a
      /\ Message.text a = Api.answer body
      /\ Message.isTyping a = Some false
      /\ Message.isUser a = false
      /\ App.isLoading (app w2) = false
      /\ outstanding w2 = outstanding w)
  /\ (Forall (fun m => Message.id m <> Message.id l) (App.messages (app w) ++ [u]) ->
      App.messages (app w2) = App.messages (app w) ++ [u; a]).
Proof.
  intros w2 a.
  assert (M2 : App.messages (app w2)
               = map (resolve t2 (Api.answer body)) (App.messages (app w) ++ [u; l])).
  { unfold w2. rewrite settle_app. unfold App.handleSendMessage_settle.
    simpl Api.sendMessage. unfold App.setIsLoading. cbn [App.messages].
    rewrite messages_on_response, submit_messages. reflexivity. }
  assert (Rl : resolve t2 (Api.answer body) l = a).
  { unfold resolve, l, loadingMsg_of. cbn [Message.id]. now rewrite Z.eqb_refl. }
  assert (L1 : List.length (outstanding w1) = S (List.length (outstanding w))).
  { rewrite (proj2 submit_app), length_app. simpl. lia. }
  assert (S1 : App.isLoading (app w1) = true).
  { rewrite (proj1 submit_app), start_state. reflexivity. }
  assert (L2 : List.length (App.messages (app w2))
               = (List.length (App.messages (app w)) + 2)%nat).
  { rewrite M2, length_map, length_app. reflexivity. }
  assert (N2 : nth_error (App.messages (app w2)) (List.length (App.messages (app w)) + 1)
               = Some a).
  { rewrite M2.
    change (App.messages (app w) ++ [u; l]) with (App.messages (app w) ++ [u] ++ [l]).
    rewrite app_assoc, map_app. simpl map. rewrite Rl.
    replace (List.length (App.messages (app w)) + 1)%nat
      with (List.length (map (resolve t2 (Api.answer body)) (App.messages (app w) ++ [u]))).
    - apply nth_error_snoc.
    - rewrite length_map, length_app. reflexivity. }
  assert (S2 : App.isLoading (app w2) = false).
  { unfold w2. rewrite settle_app. reflexivity. }
  assert (O2 : outstanding w2 = outstanding w).
  { unfold w2, step. rewrite (proj2 submit_app). unfold k.
    rewrite nth_error_snoc. cbn [outstanding]. apply remove_nth_snoc. }
  split; [|split].
  - pose proof submit_messages as M1. repeat split; assumption.
  - repeat split; assumption.
  - intros F.
    rewrite M2.
    change (App.messages (app w) ++ [u; l]) with (App.messages (app w) ++ [u] ++ [l]).
    rewrite app_assoc, map_app. simpl map. rewrite Rl.
    rewrite resolve_fresh by exact F. rewrite <- app_assoc. reflexivity.
Qed.

End Page.

Lemma submission_appends_exchange_witness :
  App.messages
    (app (run fresh [ChangeInput (js "  What is the history of Twinings? ");
                     SubmitForm Sample.t0 Sample.t1;
                     Settles 0 (Api.ResponseOk (inr Sample.reply)) Sample.t2]))
  = [Message.mk 1730000000000 Sample.question true None
                (js "2024-10-27T03:33:20.000Z") None;
     Message.mk 1730000000008 (js "Twinings was founded in 1706...") false
                (Some (js "gpt")) (js "2024-10-27T03:33:20.007Z") (Some false)].
Proof.
  assert (NB : ~ blank (input (step fresh (ChangeInput (js "  What is the history of Twinings? "))))).
  { intros B. apply trim_blank in B. vm_compute in B. discriminate. }
  destruct (submission_appends_exchange _ Sample.t0 Sample.t1 Sample.t2 NB eq_refl Sample.reply)
    as (_ & _ & H).
  cbv zeta in H. unfold run. cbn [fold_left].
  change (List.length (outstanding (step fresh (ChangeInput (js "  What is the history of Twinings? ")))))
    with 0%nat in H.
  rewrite H.
  - vm_compute. reflexivity.
  - repeat constructor. vm_compute. discriminate.
Defined.

(** ** A failed request *)

Section Failure.

Variables (w : world) (t1 t2 t3 : instant).

Let text := trim (input w).
Let u := userMsg_of text t1.
Let l := loadingMsg_of t2 (app w).
Let w1 := step w (SubmitForm t1 t2).
Let k := List.length (outstanding w).

Hypothesis not_blank : ~ blank (input w).
Hypothesis idle : App.isLoading (app w) = false.

(** C6, as the code has it: when the request fails, no message with the
    identifier of the pending message is left in the active list,
    [isLoading] is false again, and an error is shown.  The user message is
    still there exactly when its identifier is not the one of the pending
    message, [Date.now() + 1] of a later reading: so whenever the clock was
    not set back between the two readings; everything else is then still
    there too, when the identifier is fresh.  After a response that is not
    2xx the text of the error is [String(detail)] when the body is a JSON
    object whose [detail] is truthy: a string that is not empty as it is,
    a list as its items joined by commas, an object as [[object Object]]
    (the message of the TypeError when the conversion throws); it is
    [HTTP error! status: <status>] when the body is no JSON object, has no
    [detail], or has one that is [null], [false], [0] or empty.  After a
    network error, or a 2xx body that is no JSON, it is the message of that
    error.  A text that would be empty, as for the [detail] [[]], is
    replaced by [Failed to get response. Please try again.] *)
Theorem failure_removes_pending_message (o : Api.outcome) (message : jsstring) :
  thrown o = Some message ->
  let w2 := step w1 (Settles k o t3) in
  (forall m, In m (App.messages (app w2)) -> Message.id m <> Message.id l)
  /\ (In u (App.messages (app w2)) <-> now t1 <> now t2 + 1)
  /\ (now t1 <= now t2 -> In u (App.messages (app w2)))
  /\ (now t1 <> now t2 + 1 ->
      Forall (fun m => Message.id m <> Message.id l) (App.messages (app w)) ->
      App.messages (app w2) = App.messages (app w) ++ [u])
  /\ App.isLoading (app w2) = false
  /\ App.error (app w2) = Some (or_string message App.fallback_error)
  /\ match o with
     | Api.ResponseNotOk status body =>
         App.error (app w2)
         = Some match Api.detail (Json.parse body) with
                | None | Some JNull | Some (JBool false) | Some (JString []) =>
                    Api.http_error status
                | Some (JString (c :: d)) => c :: d
                | Some (JBool true) => js "true"
                | Some (JNumber m e) =>
                    match Js.to_double (Z.abs m) e with
                    | Js.Zero => Api.http_error status
                    | _ => Js.Number_toString m e
                    end
                | Some (JArray items) =>
                    match Js.ToString (JArray items) with
                    | Some [] => App.fallback_error
                    | Some (c :: d) => c :: d
                    | None => Js.cannot_convert
                    end
                | Some (JObject members) =>
                    match Json.get (js "toString") members with
                    | Some _ => Js.cannot_convert
                    | None => js "[object Object]"
                    end
                end
     | Api.FetchRejects m | Api.ResponseOk (inl m) =>
         App.error (app w2)
         = Some match m with
                | [] => App.fallback_error
                | _ :: _ => m
                end
     | Api.ResponseOk (inr _) => True
     end.
Proof.
  intros T w2.
  assert (S : Api.sendMessage o = Api.Throws message).
  { unfold thrown in T. destruct (Api.sendMessage o); congruence. }
  assert (A : app w2
              = App.setIsLoading false
                  (App.on_error (snd (App.handleSendMessage_start text t1 t2 (app w)))
                                message (app w1))).
  { unfold w2. unfold w1, k, text. rewrite (settle_app w t1 t2 t3 not_blank idle).
    unfold App.handleSendMessage_settle. now rewrite S. }
  assert (M : App.messages (app w2)
              = filter (fun msg => negb (Message.id msg =? now t2 + 1))
                       (App.messages (app w) ++ [u; l])).
  { rewrite A. unfold App.setIsLoading. cbn [App.messages].
    rewrite messages_on_error. unfold w1.
    now rewrite (submit_messages w t1 t2 not_blank idle). }
  assert (Fu : now t1 <> now t2 + 1 -> negb (Message.id u =? now t2 + 1) = true).
  { intros N. apply negb_true_iff, Z.eqb_neq. exact N. }
  assert (Iu : now t1 <> now t2 + 1 -> In u (App.messages (app w2))).
  { intros N. rewrite M. apply filter_In. split; [|exact (Fu N)].
    apply in_or_app. right. now left. }
  assert (E : App.error (app w2) = Some (or_string message App.fallback_error)).
  { rewrite A. reflexivity. }
  split; [|split; [|split; [|split; [|split; [|split]]]]].
  - intros m Hm. rewrite M in Hm. apply filter_In in Hm. destruct Hm as [_ Hm].
    apply negb_true_iff, Z.eqb_neq in Hm. exact Hm.
  - split; [|exact Iu]. intros Hu. rewrite M in Hu. apply filter_In in Hu.
    destruct Hu as [_ Hu]. apply negb_true_iff, Z.eqb_neq in Hu. exact Hu.
  - intros C. apply Iu. lia.
  - intros N F. rewrite M.
    change (App.messages (app w) ++ [u; l]) with (App.messages (app w) ++ [u] ++ [l]).
    rewrite !filter_app. rewrite filter_fresh by exact F.
    cbn [filter]. rewrite (Fu N).
    unfold l, loadingMsg_of. cbn [Message.id]. now rewrite Z.eqb_refl.
  - rewrite A. reflexivity.
  - exact E.
  - rewrite E. clear - S.
    destruct o as [m | [m | body] | status body]; cbn [Api.sendMessage] in S;
      try discriminate; injection S as <-.
    + destruct m; reflexivity.
    + destruct m; reflexivity.
    + f_equal. apply error_message_cases.
Qed.

End Failure.

Lemma failure_removes_pending_message_witness :
  App.messages
    (app (run fresh [ChangeInput Sample.question; SubmitForm Sample.t0 Sample.t1;
                     Settles 0 (Api.ResponseNotOk 422 validation_body) Sample.t2]))
  = [Message.mk 1730000000000 Sample.question true None
                (js "2024-10-27T03:33:20.000Z") None]
  /\ App.error
       (app (run fresh [ChangeInput Sample.question; SubmitForm Sample.t0 Sample.t1;
                        Settles 0 (Api.ResponseNotOk 422 validation_body) Sample.t2]))
     = Some (js "[object Object]").
Proof.
  assert (NB : ~ blank (input (step fresh (ChangeInput Sample.question)))).
  { intros B. apply trim_blank in B. vm_compute in B. discriminate. }
  assert (T : thrown (Api.ResponseNotOk 422 validation_body) = Some (js "[object Object]")).
  { vm_compute. reflexivity. }
  destruct (failure_removes_pending_message
              (step fresh (ChangeInput Sample.question)) Sample.t0 Sample.t1 Sample.t2
              NB eq_refl (Api.ResponseNotOk 422 validation_body)
              (js "[object Object]") T)
    as (_ & _ & _ & HM & _ & HE & _).
  split.
  - unfold run. cbn [fold_left].
    change 0%nat with (List.length (outstanding (step fresh (ChangeInput Sample.question)))) at 1.
    rewrite HM; [vm_compute; reflexivity | vm_compute; discriminate | constructor].
  - exact HE.
Defined.

(** C6 as the specification words it fails.  After a network error there
    is no response: the text shown is the message of the error [fetch]
    threw, which no status gives.  A [detail] that is present but empty is
    not shown: the status message is.  And a [detail] that is a list, as
    the service sends with a status 422, is not shown either: the text is
    [[object Object]], or the fallback text when the list is empty. *)
Lemma failure_error_text_counterexample :
  App.error
    (app (run fresh [ChangeInput Sample.question; SubmitForm Sample.t0 Sample.t1;
                     Settles 0 (Api.FetchRejects (js "Failed to fetch")) Sample.t2]))
  = Some (js "Failed to fetch")
  /\ (forall status, js "Failed to fetch" <> Api.http_error status)
  /\ App.error
       (app (run fresh [ChangeInput Sample.question; SubmitForm Sample.t0 Sample.t1;
                        Settles 0 (Api.ResponseNotOk 500 empty_detail_body) Sample.t2]))
     = Some (js "HTTP error! status: 500")
  /\ App.error
       (app (run fresh [ChangeInput Sample.question; SubmitForm Sample.t0 Sample.t1;
                        Settles 0 (Api.ResponseNotOk 422 validation_body) Sample.t2]))
     = Some (js "[object Object]")
  /\ App.error
       (app (run fresh [ChangeInput Sample.question; SubmitForm Sample.t0 Sample.t1;
                        Settles 0 (Api.ResponseNotOk 422 empty_list_body) Sample.t2]))
     = Some App.fallback_error.
Proof.
  split; [vm_compute; reflexivity|]. split; [|repeat split; vm_compute; reflexivity].
  intros status. unfold Api.http_error. simpl. discriminate.
Qed.

(** ** The model of an answer *)

Section Model.

Variables (text : jsstring) (t1 t2 t3 : instant) (st0 : App.state).

Let rq := snd (App.handleSendMessage_start text t1 t2 st0).
Let u := userMsg_of text t1.
Let l := loadingMsg_of t2 st0.

Lemma resolve_modelId answer m :
  Message.modelId (resolve t2 answer m) = Message.modelId m.
Proof. unfold resolve. destruct (Message.id m =? now t2 + 1); reflexivity. Qed.

Lemma conversations_on_response_cases r st conv' :
  In conv' (App.conversations (App.on_response rq r t3 st)) ->
  In conv' (App.conversations st)
  \/ conv' = created text t1 t2 t3 st0 (Api.r_answer r)
  \/ exists conv, In conv (App.conversations st)
                  /\ conv' = extended text t1 t2 st0 (Api.r_answer r) conv.
Proof.
  unfold App.on_response. cbv zeta.
  destruct (App.truthy_id (App.req_currentConversationId rq)).
  - rewrite conversations_setConversations. intros H.
    apply in_map_iff in H. destruct H as (conv & E & Hin).
    destruct (App.id_is (Conversation.id conv) (App.req_currentConversationId rq)).
    + right. right. exists conv. split; [assumption|]. now rewrite <- E.
    + left. now rewrite <- E.
  - unfold App.setCurrentConversationId. cbn [App.conversations].
    rewrite conversations_setConversations. intros [<-|H].
    + right. left. reflexivity.
    + now left.
Qed.

(** C10: the assistant message that is stored carries the model selected
    at the submission, and the [model_used] of the response is neither
    stored nor shown.  When the answer arrives, in whatever state and
    whatever model is selected by then, every message of the active list
    with the identifier of the pending message takes the text of the
    answer and is no longer typing, and no [modelId] changes: the pending
    message, appended at the submission with the model selected then,
    becomes the assistant message [a] with that model.  The conversation
    gets the same message [a]: the new conversation holds the user message
    and [a], and every conversation with the captured identifier is
    extended by them; every other message of the collection was there
    before.  The state the answer leaves is the same for any [model_used]. *)
Theorem answer_keeps_selected_model (answer used1 used2 : jsstring) (st : App.state) :
  let settle used :=
    App.handleSendMessage_settle
      rq (Api.sendMessage (Api.ResponseOk
                             (inr {| Api.answer := answer; Api.model_used := used |})))
      t3 in
  let a := App.answered answer l in
  settle used1 st = settle used2 st
  /\ Message.modelId l = Some (App.selectedModel st0)
  /\ Message.modelId a = Some (App.selectedModel st0)
  /\ Message.text a = answer
  /\ Message.isTyping a = Some false
  /\ App.messages (fst (App.handleSendMessage_start text t1 t2 st0))
     = App.messages st0 ++ [u; l]
  /\ map Message.modelId (App.messages (settle used1 st))
     = map Message.modelId (App.messages st)
  /\ (forall conv' m,
         In conv' (App.conversations (settle used1 st)) ->
         In m (Conversation.messages conv') ->
         m = u \/ m = a
         \/ exists conv, In conv (App.conversations st)
                         /\ In m (Conversation.messages conv))
  /\ App.messages (settle used1 st) = map (resolve t2 answer) (App.messages st)
  /\ (In l (App.messages st) -> In a (App.messages (settle used1 st)))
  /\ (forall m, In m (App.messages (settle used1 st)) ->
                Message.id m = Message.id l ->
                Message.text m = answer /\ Message.isTyping m = Some false)
  /\ In a (App.messages
             (settle used1 (fst (App.handleSendMessage_start text t1 t2 st0))))
  /\ (App.truthy_id (App.currentConversationId st0) = false ->
      exists conv',
        App.conversations (settle used1 st) = conv' :: App.conversations st
        /\ Conversation.messages conv' = [u; a]
        /\ App.currentConversationId (settle used1 st) = Some (Conversation.id conv'))
  /\ (forall cid conv,
         App.currentConversationId st0 = Some cid -> cid <> 0 ->
         In conv (App.conversations st) -> Conversation.id conv = cid ->
         exists conv',
           In conv' (App.conversations (settle used1 st))
           /\ Conversation.id conv' = cid
           /\ Conversation.messages conv' = Conversation.messages conv ++ [u; a]).
Proof.
  intros settle a.
  assert (M : App.messages (settle used1 st) = map (resolve t2 answer) (App.messages st)).
  { unfold settle, App.handleSendMessage_settle. cbn [Api.sendMessage].
    unfold App.setIsLoading. cbn [App.messages].
    unfold rq. now rewrite messages_on_response. }
  assert (Ra : resolve t2 answer l = a).
  { unfold resolve, l, loadingMsg_of. cbn [Message.id]. now rewrite Z.eqb_refl. }
  assert (Il : forall s, In l (App.messages s) -> In a (map (resolve t2 answer) (App.messages s))).
  { intros s H. rewrite <- Ra. now apply in_map. }
  split; [reflexivity|]. split; [reflexivity|]. split; [reflexivity|].
  split; [reflexivity|]. split; [reflexivity|].
  split; [now rewrite start_state|]. split.
  { rewrite M, map_map. apply map_ext. intros m. apply resolve_modelId. }
  split.
  { intros conv' m Hc Hm.
    unfold settle, App.handleSendMessage_settle in Hc. cbn [Api.sendMessage] in Hc.
    unfold App.setIsLoading in Hc. cbn [App.conversations] in Hc.
    apply conversations_on_response_cases in Hc.
    destruct Hc as [Hc | [-> | (conv & Hin & ->)]].
    + right. right. exists conv'. split; assumption.
    + simpl in Hm. destruct Hm as [<-|[<-|[]]]; [now left | right; now left].
    + cbn [extended Conversation.messages] in Hm. apply in_app_or in Hm.
      destruct Hm as [Hm | [<-|[<-|[]]]].
      * right. right. exists conv. split; assumption.
      * now left.
      * right. now left. }
  split; [exact M|]. split; [rewrite M; apply Il|]. split.
  { intros m Hm Hid. rewrite M in Hm. apply in_map_iff in Hm.
    destruct Hm as (m0 & <- & _). revert Hid. unfold resolve.
    destruct (Message.id m0 =? now t2 + 1) eqn:E.
    - intros _. split; reflexivity.
    - intros Hid. apply Z.eqb_neq in E. contradiction. }
  split.
  { unfold settle, App.handleSendMessage_settle. cbn [Api.sendMessage].
    unfold App.setIsLoading. cbn [App.messages].
    unfold rq. rewrite messages_on_response. apply Il.
    rewrite start_state. cbn [App.messages]. apply in_or_app. right. right. now left. }
  split.
  { intros F. exists (created text t1 t2 t3 st0 answer).
    unfold settle, App.handleSendMessage_settle. cbn [Api.sendMessage].
    unfold App.setIsLoading. cbn [App.conversations App.currentConversationId].
    unfold App.on_response. cbv zeta.
    change (App.req_currentConversationId rq) with (App.currentConversationId st0).
    rewrite F. unfold App.setCurrentConversationId.
    cbn [App.conversations App.currentConversationId].
    rewrite conversations_setConversations. repeat split. }
  intros cid conv Hc Hnz Hin Hid.
  exists (extended text t1 t2 st0 answer conv).
  split; [|split; [exact Hid | reflexivity]].
  unfold settle, App.handleSendMessage_settle. cbn [Api.sendMessage].
  unfold App.setIsLoading. cbn [App.conversations].
  unfold rq. rewrite (conversations_on_response_current _ _ _ _ _ cid _ _ Hc Hnz).
  apply in_map_iff. exists conv. split; [|exact Hin].
  apply Z.eqb_eq in Hid. now rewrite Hid.
Qed.

End Model.

(** ** One request at a time *)

(** The guard of [handleSubmit]: while [isLoading] the form sends nothing. *)
Lemma submit_while_loading_is_noop (w : world) (t1 t2 : instant) :
  App.isLoading (app w) = true -> step w (SubmitForm t1 t2) = w.
Proof.
  intros L. unfold step. rewrite L, handleSubmit_loading. apply world_eta.
Qed.

Lemma isLoading_setConversations f st :
  App.isLoading (App.setConversations f st) = App.isLoading st.
Proof.
  unfold App.setConversations, App.save_effect. simpl.
  destruct (0 <? List.length (f (App.conversations st)))%nat; reflexivity.
Qed.

Lemma isLoading_handleDeleteConversation c st :
  App.isLoading (App.handleDeleteConversation c st) = App.isLoading st.
Proof.
  unfold App.handleDeleteConversation.
  destruct (App.id_is c (App.currentConversationId st));
    [unfold App.handleNewChat; cbn [App.isLoading App.setError App.setCurrentConversationId
                                    App.setMessages]|];
    apply isLoading_setConversations.
Qed.

Lemma isLoading_handleSelectConversation c st :
  App.isLoading (App.handleSelectConversation c st) = App.isLoading st.
Proof.
  unfold App.handleSelectConversation. destruct (find _ _); reflexivity.
Qed.

(** Without the suggestion buttons the guard holds: the form is the only
    way to send, and it is shut while a call is outstanding. *)
Lemma step_single_flight (w : world) (e : event) :
  is_suggestion e = false -> single_flight w -> single_flight (step w e).
Proof.
  intros NS G. destruct e; try discriminate; unfold step.
  - exact G.
  - destruct G as [[L O] | [L O]].
    + unfold ChatInput.handleSubmit. rewrite L.
      destruct (truthy_string (trim (input w))); simpl.
      * right. unfold send. simpl. rewrite O. split; [reflexivity|]. eexists. reflexivity.
      * left. split; assumption.
    + rewrite L, handleSubmit_loading. right. exact (conj L O).
  - exact G.
  - destruct G as [[L O] | [L O]]; [left | right]; cbn [app outstanding];
      rewrite isLoading_handleSelectConversation; split; assumption.
  - destruct G as [[L O] | [L O]]; [left | right]; cbn [app outstanding];
      rewrite isLoading_handleDeleteConversation; split; assumption.
  - exact G.
  - destruct G as [[L O] | [L (rq & O)]]; rewrite O.
    + destruct k; simpl; left; split; assumption.
    + destruct k as [|k]; simpl.
      * left. split; reflexivity.
      * destruct k; simpl; right; split; try assumption; exists rq; assumption.
Qed.

Lemma run_single_flight (es : list event) (w : world) :
  forallb (fun e => negb (is_suggestion e)) es = true -> single_flight w -> single_flight (run w es).
Proof.
  revert w. induction es as [|e es IH]; intros w H G; [exact G|].
  simpl in H. apply andb_true_iff in H. destruct H as [He Hes].
  apply negb_true_iff in He.
  unfold run. simpl. apply IH; [exact Hes | now apply step_single_flight].
Qed.

(** C3 fails on the welcome screen.  A question is sent, and while its
    request is outstanding the user starts a new chat: the active list is
    empty again, so the suggestion buttons are shown, and they call
    [handleSendMessage] without looking at [isLoading].  A click sends a
    second request and changes the active list. *)
Theorem suggestion_bypasses_isLoading :
  let w := run fresh [ChangeInput Sample.question; SubmitForm Sample.t0 Sample.t1; ClickNewChat] in
  let w' := step w (ClickSuggestion 2 Sample.t2 Sample.t2) in
  App.isLoading (app w) = true
  /\ List.length (outstanding w) = 1%nat
  /\ App.messages (app w) = []
  /\ List.length (outstanding w') = 2%nat
  /\ map Message.text (App.messages (app w')) = [js "How is tea processed?"; []].
Proof.
  vm_compute. repeat split.
Qed.

(** ** The stored item *)

Lemma save_effect_synced st : synced (App.save_effect st).
Proof.
  unfold synced, App.save_effect.
  destruct (App.conversations st) as [|c cs] eqn:E; simpl.
  - left. exact E.
  - right. rewrite E. reflexivity.
Qed.

Lemma setConversations_synced f st : synced (App.setConversations f st).
Proof. apply save_effect_synced. Qed.

(** A mutation that leaves a conversation in the collection writes the
    item. *)
Lemma setConversations_persists f st :
  f (App.conversations st) <> [] ->
  App.storage (App.setConversations f st)
  = Some (stringify_conversations (App.conversations (App.setConversations f st))).
Proof.
  intros NE. destruct (setConversations_synced f st) as [E|E]; [|exact E].
  rewrite conversations_setConversations in E. contradiction.
Qed.

Lemma synced_keep st st' :
  App.conversations st' = App.conversations st -> App.storage st' = App.storage st ->
  synced st -> synced st'.
Proof. unfold synced. intros -> ->. trivial. Qed.

Lemma settle_synced rq s t3 st : synced st -> synced (App.handleSendMessage_settle rq s t3 st).
Proof.
  intros H. unfold App.handleSendMessage_settle.
  apply (synced_keep (match s with
                      | Api.Returns r => App.on_response rq r t3 st
                      | Api.Throws message => App.on_error rq message st
                      end)); [reflexivity | reflexivity |].
  destruct s as [r | message].
  - unfold App.on_response. cbv zeta.
    destruct (App.truthy_id (App.req_currentConversationId rq)).
    + apply setConversations_synced.
    + eapply synced_keep; [| | apply setConversations_synced]; reflexivity.
  - revert H. apply synced_keep; reflexivity.
Qed.

Lemma delete_synced c st : synced (App.handleDeleteConversation c st).
Proof.
  unfold App.handleDeleteConversation.
  destruct (App.id_is c (App.currentConversationId st)).
  - eapply synced_keep; [| | apply setConversations_synced]; reflexivity.
  - apply setConversations_synced.
Qed.

Lemma start_synced text t1 t2 st :
  synced st -> synced (fst (App.handleSendMessage_start text t1 t2 st)).
Proof. apply synced_keep; reflexivity. Qed.

(** Every event keeps the item in step with a collection that is not
    empty. *)
Lemma step_synced (w : world) (e : event) : synced (app w) -> synced (app (step w e)).
Proof.
  intros H. destruct e; unfold step.
  - exact H.
  - destruct (ChatInput.handleSubmit (input w) (App.isLoading (app w))) as [[text|] input'];
      [|exact H].
    unfold send.
    destruct (App.handleSendMessage_start text t1 t2 (app w)) as [st rq] eqn:E.
    change st with (fst (st, rq)). rewrite <- E. now apply start_synced.
  - destruct (App.showWelcome (app w)); [|exact H].
    destruct (nth_error App.suggestions n) as [text|]; [|exact H].
    unfold send.
    destruct (App.handleSendMessage_start text t1 t2 (app w)) as [st rq] eqn:E.
    change st with (fst (st, rq)). rewrite <- E. now apply start_synced.
  - revert H. apply synced_keep; reflexivity.
  - cbn [app]. unfold App.handleSelectConversation.
    destruct (find _ _); [|exact H]. revert H. apply synced_keep; reflexivity.
  - apply delete_synced.
  - revert H. apply synced_keep; reflexivity.
  - destruct (nth_error (outstanding w) k); [|exact H]. now apply settle_synced.
Qed.

Lemma run_synced (es : list event) (w : world) : synced (app w) -> synced (app (run w es)).
Proof.
  revert w. induction es as [|e es IH]; intros w H; [exact H|].
  unfold run. simpl. apply IH. now apply step_synced.
Qed.

(** On a first visit, whatever the user does, a collection that is not
    empty is the one the item holds. *)
Lemma reachable_persisted (es : list event) :
  App.conversations (app (run fresh es)) <> [] ->
  App.storage (app (run fresh es))
  = Some (stringify_conversations (App.conversations (app (run fresh es)))).
Proof.
  intros NE. destruct (run_synced es fresh) as [E|E]; [now left | contradiction | exact E].
Qed.

(** C2 fails when the last conversation is deleted: the guard
    [conversations.length > 0] of the save effect skips the write, and the
    item still holds the deleted conversation. *)
Theorem delete_last_conversation_not_persisted :
  let w := run fresh [ChangeInput Sample.question; SubmitForm Sample.t0 Sample.t1;
                      Settles 0 (Api.ResponseOk (inr Sample.reply)) Sample.t2] in
  let w' := step w (ClickDelete 1730000004321) in
  List.length (App.conversations (app w)) = 1%nat
  /\ App.storage (app w) = Some (stringify_conversations (App.conversations (app w)))
  /\ App.conversations (app w') = []
  /\ App.storage (app w') = App.storage (app w)
  /\ stringify_conversations (App.conversations (app w')) = js "[]"
  /\ App.storage (app w') <> Some (stringify_conversations (App.conversations (app w'))).
Proof.
  vm_compute. repeat split. discriminate.
Qed.

(** ** Loading the stored item *)

(** C1 fails on stored text that is no JSON: [JSON.parse] throws, and the
    load effect has no handler. *)
Lemma load_effect_counterexample :
  App.load_effect (Some (js "[{")) = App.LoadThrows
  /\ App.load_effect (Some (js "undefined")) = App.LoadThrows.
Proof. split; reflexivity. Qed.

Lemma parse_empty : Json.parse [] = None.
Proof. reflexivity. Qed.

(** C1, as the code has it: an absent or empty item leaves the collection
    empty; an item that is JSON text sets the collection to the value
    parsed, which for an item the save effect wrote is the collection that
    was written; on any other item the load effect throws. *)
Theorem load_effect_spec (stored : option jsstring) :
  (stored = None \/ stored = Some [] -> App.load_effect stored = App.LoadKeeps)
  /\ (forall s parsed,
         stored = Some s -> Json.parse s = Some parsed ->
         App.load_effect stored = App.LoadSets parsed)
  /\ (forall cs,
         stored = Some (stringify_conversations cs) ->
         App.load_effect stored = App.LoadSets (conversations_to_json cs)
         /\ conversations_of_json (conversations_to_json cs) = Some cs)
  /\ (forall s,
         stored = Some s -> s <> [] -> Json.parse s = None ->
         App.load_effect stored = App.LoadThrows)
  /\ (App.load_effect stored = App.LoadThrows ->
      exists s, stored = Some s /\ s <> [] /\ Json.parse s = None).
Proof.
  split; [|split; [|split; [|split]]].
  - intros [-> | ->]; reflexivity.
  - intros s parsed -> P. unfold App.load_effect.
    destruct s as [|c s]; [rewrite parse_empty in P; discriminate|].
    simpl truthy_string. cbv iota. now rewrite P.
  - intros cs ->. split.
    + apply load_effect_stringify_conversations.
    + apply conversations_of_to_json.
  - intros s -> NE P. unfold App.load_effect.
    destruct s as [|c s]; [contradiction|].
    simpl truthy_string. cbv iota. now rewrite P.
  - intros T. destruct stored as [s|]; [|discriminate]. exists s.
    unfold App.load_effect in T. destruct s as [|c s]; [discriminate|].
    simpl truthy_string in T. cbv iota in T.
    destruct (Json.parse (c :: s)); [discriminate|].
    repeat split; discriminate.
Qed.

Lemma load_effect_spec_witness :
  App.load_effect None = App.LoadKeeps
  /\ App.load_effect (Some (js "[]")) = App.LoadSets (JArray [])
  /\ App.load_effect (Some (stringify_conversations [Sample.tea; Sample.ovaltine]))
     = App.LoadSets (conversations_to_json [Sample.tea; Sample.ovaltine])
  /\ App.load_effect (Some (js "[{")) = App.LoadThrows.
Proof.
  destruct (load_effect_spec None) as (K & _).
  destruct (load_effect_spec (Some (js "[]"))) as (_ & S & _).
  destruct (load_effect_spec (Some (stringify_conversations [Sample.tea; Sample.ovaltine])))
    as (_ & _ & R & _).
  destruct (load_effect_spec (Some (js "[{"))) as (_ & _ & _ & T & _).
  split; [apply K; now left|]. split; [|split].
  - apply (S (js "[]") (JArray [])); reflexivity.
  - apply (R [Sample.tea; Sample.ovaltine]). reflexivity.
  - apply (T (js "[{")); [reflexivity | discriminate | reflexivity].
Defined.

(** ** The rest of the page: controls, requests, messages, side bar *)

(** ** The text the form sends *)

Lemma trimStart_head s c r : trimStart s = c :: r -> is_js_whitespace c = false.
Proof.
  induction s as [|d s IH]; simpl; [discriminate|].
  destruct (is_js_whitespace d) eqn:E; [exact IH|].
  intros [= <- _]. exact E.
Qed.

Lemma trimStart_fixed c r : is_js_whitespace c = false -> trimStart (c :: r) = c :: r.
Proof. intros E. simpl. now rewrite E. Qed.

Lemma trimStart_idempotent s : trimStart (trimStart s) = trimStart s.
Proof.
  destruct (trimStart s) as [|c r] eqn:E; [reflexivity|].
  apply trimStart_fixed. exact (trimStart_head _ _ _ E).
Qed.

Lemma trimStart_snoc l c :
  is_js_whitespace c = false -> trimStart (l ++ [c]) = trimStart l ++ [c].
Proof.
  intros E. induction l as [|d l IH]; simpl.
  - now rewrite E.
  - destruct (is_js_whitespace d); [exact IH | reflexivity].
Qed.

Lemma trimEnd_cons c r :
  is_js_whitespace c = false -> trimEnd (c :: r) = c :: trimEnd r.
Proof.
  intros E. unfold trimEnd. simpl rev.
  rewrite (trimStart_snoc _ _ E), rev_app_distr. reflexivity.
Qed.

Lemma trimEnd_idempotent s : trimEnd (trimEnd s) = trimEnd s.
Proof.
  unfold trimEnd. now rewrite rev_involutive, trimStart_idempotent.
Qed.

Lemma trimEnd_last s r c : trimEnd s = r ++ [c] -> is_js_whitespace c = false.
Proof.
  unfold trimEnd. intros H. apply (f_equal (@rev N)) in H.
  rewrite rev_involutive, rev_app_distr in H. simpl in H.
  exact (trimStart_head _ _ _ H).
Qed.

Lemma trim_head s c r : trim s = c :: r -> is_js_whitespace c = false.
Proof.
  unfold trim. destruct (trimStart s) as [|d t] eqn:E; [discriminate|].
  pose proof (trimStart_head _ _ _ E) as W.
  rewrite (trimEnd_cons _ _ W). intros [= <- _]. exact W.
Qed.

Lemma trim_idempotent s : trim (trim s) = trim s.
Proof.
  unfold trim at 1.
  assert (F : trimStart (trim s) = trim s).
  { destruct (trim s) as [|c r] eqn:E; [reflexivity|].
    apply trimStart_fixed. exact (trim_head _ _ _ E). }
  rewrite F. unfold trim. apply trimEnd_idempotent.
Qed.

Lemma handleSubmit_sends_iff (input : jsstring) (isLoading : bool) :
  fst (ChatInput.handleSubmit input isLoading) <> None
  <-> ~ blank input /\ isLoading = false.
Proof.
  unfold ChatInput.handleSubmit.
  destruct (truthy_string (trim input)) eqn:T; destruct isLoading; simpl; split;
    try congruence; try (intros (_ & H); discriminate).
  - intros _. split; [|reflexivity]. intros B. apply trim_blank in B.
    rewrite B in T. discriminate.
  - intros (NB & _). exfalso. apply NB. apply trim_nil_blank.
    destruct (trim input); [reflexivity | discriminate].
Qed.

(** X1: the text [handleSubmit] hands to [onSendMessage] is the input
    trimmed: it is not empty, it neither starts nor ends with whitespace,
    trimming it again changes nothing, and the text area is emptied; and
    nothing is handed over exactly when the input is blank or a request is
    being awaited, in which case the input is kept. *)
Theorem handleSubmit_sends_trimmed_text (input : jsstring) (isLoading : bool) :
  match ChatInput.handleSubmit input isLoading with
  | (Some text, input') =>
      text = trim input /\ input' = [] /\ isLoading = false /\ ~ blank input
      /\ trim text = text
      /\ (exists c r, text = c :: r /\ is_js_whitespace c = false)
      /\ (exists r c, text = r ++ [c] /\ is_js_whitespace c = false)
  | (None, input') => input' = input /\ (blank input \/ isLoading = true)
  end.
Proof.
  unfold ChatInput.handleSubmit.
  destruct (truthy_string (trim input)) eqn:T; destruct isLoading; simpl.
  - split; [reflexivity | now right].
  - destruct (trim input) as [|c r] eqn:E; [discriminate|].
    split; [reflexivity|]. split; [reflexivity|]. split; [reflexivity|].
    split; [intros B; apply trim_blank in B; congruence|].
    split; [rewrite <- E; apply trim_idempotent|].
    split; [exists c, r; split; [reflexivity | exact (trim_head _ _ _ E)]|].
    destruct (exists_last (l := c :: r)) as (r' & d & L); [discriminate|].
    exists r', d. split; [exact L|].
    unfold trim in E. rewrite L in E. exact (trimEnd_last _ _ _ E).
  - split; [reflexivity|]. now right.
  - split; [reflexivity|]. left. apply trim_nil_blank.
    destruct (trim input); [reflexivity | discriminate].
Qed.

(** X2: the send button is disabled exactly when submitting the form
    would send nothing: the two tests of [ChatInput] agree ([App] passes no
    [disabled] prop). *)
Theorem send_button_matches_submit (input : jsstring) (isLoading : bool) :
  ChatInputControls.button_disabled input isLoading false
  = match fst (ChatInput.handleSubmit input isLoading) with
    | Some _ => false
    | None => true
    end.
Proof.
  unfold ChatInputControls.button_disabled, ChatInput.handleSubmit.
  destruct (truthy_string (trim input)); destruct isLoading; reflexivity.
Qed.

(** X3: a key press sends the text exactly when the key is [Enter], [Shift]
    is not held, the input is not blank and no request is being awaited; it
    then acts as a submission of the form.  Any other key press leaves the
    input alone and sends nothing. *)
Theorem only_enter_submits (key : jsstring) (shiftKey : bool) (input : jsstring)
        (isLoading : bool) :
  (fst (ChatInputControls.handleKeyDown key shiftKey input isLoading) <> None
   <-> key = js "Enter" /\ shiftKey = false /\ ~ blank input /\ isLoading = false)
  /\ (key = js "Enter" -> shiftKey = false ->
      ChatInputControls.handleKeyDown key shiftKey input isLoading
      = ChatInput.handleSubmit input isLoading)
  /\ (key <> js "Enter" \/ shiftKey = true ->
      ChatInputControls.handleKeyDown key shiftKey input isLoading = (None, input)).
Proof.
  unfold ChatInputControls.handleKeyDown.
  destruct (jsstring_eqb key (js "Enter")) eqn:K.
  - apply jsstring_eqb_eq in K. subst key. destruct shiftKey; simpl.
    + split; [|split].
      * split; [congruence | intros (_ & H & _); discriminate].
      * discriminate.
      * reflexivity.
    + pose proof (handleSubmit_sends_iff input isLoading) as H.
      split; [|split].
      * rewrite H. tauto.
      * reflexivity.
      * intros [H' | H']; congruence.
  - assert (NK : key <> js "Enter").
    { intros E. apply jsstring_eqb_eq in E. congruence. }
    simpl. split; [|split].
    + split; [congruence | intros (H & _); contradiction].
    + contradiction.
    + reflexivity.
Qed.

(** ** The request and the health probe *)

Lemma distinct_keys_body query modelId :
  distinct_keys (JObject [(js "query", JString query); (js "model_id", JString modelId)]).
Proof.
  apply JsonFacts.distinct_keys_object. split.
  - repeat (constructor; [simpl; intuition discriminate|]). constructor.
  - repeat constructor.
Qed.

Lemma parse_body query modelId :
  Json.parse (ApiRequest.body query modelId)
  = Some (JObject [(js "query", JString query); (js "model_id", JString modelId)]).
Proof. apply JsonFacts.parse_stringify, distinct_keys_body. Qed.

(** X4: the body [sendMessage] posts is JSON text that parses to the object
    with the query and the model as they were given, whatever characters
    the query holds; so two requests with one body have one query and one
    model.  For a request of [handleSendMessage] these are the text that was
    submitted and the model that was selected then. *)
Theorem request_body_round_trip (query modelId : jsstring) :
  Json.parse (ApiRequest.body query modelId)
  = Some (JObject [(js "query", JString query); (js "model_id", JString modelId)])
  /\ (forall query' modelId',
         ApiRequest.body query modelId = ApiRequest.body query' modelId' ->
         query = query' /\ modelId = modelId')
  /\ (forall t1 t2 st,
         ApiRequest.of_request (snd (App.handleSendMessage_start query t1 t2 st))
         = ApiRequest.body query (App.selectedModel st)).
Proof.
  split; [apply parse_body|]. split; [|reflexivity].
  intros query' modelId' E.
  pose proof (parse_body query modelId) as P.
  rewrite E, parse_body in P. injection P as -> ->. split; reflexivity.
Qed.


(** ** The typing animation of [ChatMessage] *)

Lemma iter_tick_stopped n message st :
  ChatMessage.timer st = None -> Nat.iter n (ChatMessage.tick message) st = st.
Proof.
  intros T. induction n as [|n IH]; [reflexivity|].
  simpl. rewrite IH. unfold ChatMessage.tick. now rewrite T.
Qed.

Lemma after_S n message isUser :
  ChatMessage.after (S n) message isUser
  = ChatMessage.tick message (ChatMessage.after n message isUser).
Proof. reflexivity. Qed.

(** While it runs, the animation has shown one character more at each
    call. *)
Lemma after_running message n :
  message <> [] -> (n <= S (List.length message))%nat ->
  ChatMessage.after n message false
  = {| ChatMessage.displayedText := slice0 (pred n) message;
       ChatMessage.isComplete := false;
       ChatMessage.timer := Some n |}.
Proof.
  intros NE. induction n as [|n IH]; intros L.
  - unfold ChatMessage.after, ChatMessage.effect. simpl.
    destruct message; [congruence | reflexivity].
  - rewrite after_S, IH by lia. unfold ChatMessage.tick. cbn [ChatMessage.timer].
    assert (E : (n <=? List.length message)%nat = true) by (apply Nat.leb_le; lia).
    rewrite E. reflexivity.
Qed.

Lemma after_done message n :
  message <> [] -> (S (S (List.length message)) <= n)%nat ->
  ChatMessage.after n message false
  = {| ChatMessage.displayedText := message;
       ChatMessage.isComplete := true;
       ChatMessage.timer := None |}.
Proof.
  intros NE L.
  assert (D : ChatMessage.after (S (S (List.length message))) message false
              = {| ChatMessage.displayedText := message;
                   ChatMessage.isComplete := true;
                   ChatMessage.timer := None |}).
  { rewrite after_S, after_running by (assumption || lia).
    unfold ChatMessage.tick. cbn [ChatMessage.timer ChatMessage.displayedText].
    assert (E : (S (List.length message) <=? List.length message)%nat = false)
      by (apply Nat.leb_gt; lia).
    rewrite E. cbn [pred]. unfold slice0. now rewrite firstn_all. }
  replace n with ((n - S (S (List.length message))) + S (S (List.length message)))%nat by lia.
  unfold ChatMessage.after. rewrite Nat.iter_add.
  fold (ChatMessage.after (S (S (List.length message))) message false).
  rewrite D. apply iter_tick_stopped. reflexivity.
Qed.

(** X6: the answer of the assistant is typed out one code unit per call of
    the interval: after the first call nothing is shown, after call [n]
    the first [n - 1] code units are, and after call [length + 1] the whole
    text is; call [length + 2] sets [isComplete] and clears the interval, and
    later calls change nothing.  Until then the cursor blinks. *)
Theorem typing_animation_steps (message : jsstring) (n : nat) :
  message <> [] ->
  let st := ChatMessage.after n message false in
  ((n <= S (List.length message))%nat ->
   ChatMessage.displayedText st = firstn (pred n) message
   /\ ChatMessage.isComplete st = false
   /\ ChatMessage.timer st = Some n
   /\ ChatMessage.render (Some false) false st = ChatMessage.Text (firstn (pred n) message) true)
  /\ ((S (S (List.length message)) <= n)%nat ->
      ChatMessage.displayedText st = message
      /\ ChatMessage.isComplete st = true
      /\ ChatMessage.timer st = None
      /\ ChatMessage.render (Some false) false st = ChatMessage.Text message false).
Proof.
  intros NE st. split; intros L; subst st.
  - rewrite after_running by assumption. repeat split.
  - rewrite after_done by assumption. repeat split.
Qed.

Lemma typing_animation_steps_witness :
  ChatMessage.displayedText (ChatMessage.after 3 (js "Tea") false) = js "Te"
  /\ ChatMessage.isComplete (ChatMessage.after 3 (js "Tea") false) = false
  /\ ChatMessage.displayedText (ChatMessage.after 5 (js "Tea") false) = js "Tea"
  /\ ChatMessage.isComplete (ChatMessage.after 5 (js "Tea") false) = true.
Proof.
  assert (NE : js "Tea" <> []) by discriminate.
  destruct (typing_animation_steps (js "Tea") 3 NE) as [R _].
  destruct (typing_animation_steps (js "Tea") 5 NE) as [_ D].
  destruct (R ltac:(simpl; lia)) as (R1 & R2 & _).
  destruct (D ltac:(simpl; lia)) as (D1 & D2 & _).
  repeat split; assumption.
Defined.


(** ** The side bar *)

Lemma clamp_bounds x : 200 <= Sidebar.clamp x <= 500.
Proof. unfold Sidebar.clamp. lia. Qed.

Lemma side_step_width_ok p e : width_ok p -> width_ok (side_step p e).
Proof.
  unfold width_ok. intros [B E].
  destruct e; unfold side_step; cbn [Sidebar.handle];
    try (cbn; split; assumption).
  - unfold Sidebar.handleMouseMove.
    destruct (Sidebar.isResizing (side p)); cbn; [|split; assumption].
    split; [apply clamp_bounds | reflexivity].
  - cbv zeta. destruct (jsstring_eqb key (js "Enter")), (jsstring_eqb key (js "Escape"));
      cbn; split; assumption.
Qed.

(** X8: however the resize handle is dragged, and whatever else is done in
    the side bar, its width stays between 200 and 500 pixels and [App] holds
    the same width: the main area starts where the side bar ends, or at 0
    when the side bar is collapsed.  A pointer move outside a drag changes
    nothing; inside a drag the width becomes the pointer position brought
    into the bounds. *)
Theorem sidebar_width_in_bounds (es : list Sidebar.event) :
  let p := run_side first_page es in
  200 <= Sidebar.sidebarWidth (side p) <= 500
  /\ app_sidebarWidth p = Sidebar.sidebarWidth (side p)
  /\ (marginLeft p = 0 \/ marginLeft p = Sidebar.sidebarWidth (side p))
  /\ (forall x, Sidebar.isResizing (side p) = false ->
                side_step p (Sidebar.MouseMove x) = p)
  /\ (forall x, Sidebar.isResizing (side p) = true ->
                Sidebar.sidebarWidth (side (side_step p (Sidebar.MouseMove x)))
                = Z.max 200 (Z.min 500 x)
                /\ (200 <= x <= 500 ->
                    Sidebar.sidebarWidth (side (side_step p (Sidebar.MouseMove x))) = x)).
Proof.
  intros p.
  assert (W : width_ok p).
  { subst p. unfold run_side.
    assert (G : forall q, width_ok q -> width_ok (fold_left side_step es q)).
    { induction es as [|e es IH]; intros q H; [exact H|].
      simpl. apply IH. now apply side_step_width_ok. }
    apply G. unfold width_ok. cbn. lia. }
  destruct W as [B E]. split; [exact B|]. split; [exact E|]. split; [|split].
  - unfold marginLeft. destruct (isSidebarCollapsed p); [now left | right; exact E].
  - intros x R. unfold side_step. cbn [Sidebar.handle]. unfold Sidebar.handleMouseMove.
    rewrite R. cbn. destruct p; reflexivity.
  - intros x R. unfold side_step. cbn [Sidebar.handle]. unfold Sidebar.handleMouseMove.
    rewrite R. cbn. unfold Sidebar.clamp. split; [reflexivity | lia].
Qed.

Lemma side_step_rename p e :
  is_rename e = true ->
  chat (side_step p e) = chat p
  /\ app_sidebarWidth (side_step p e) = app_sidebarWidth p
  /\ isSidebarCollapsed (side_step p e) = isSidebarCollapsed p
  /\ Sidebar.sidebarWidth (side (side_step p e)) = Sidebar.sidebarWidth (side p).
Proof.
  destruct e; try discriminate; intros _; unfold side_step; cbn [Sidebar.handle];
    try (cbn; repeat split; reflexivity).
  cbv zeta. destruct (jsstring_eqb key (js "Enter")), (jsstring_eqb key (js "Escape"));
    cbn; repeat split; reflexivity.
Qed.

(** X9: renaming does not rename.  Opening the menu of an item, choosing
    Rename, typing a new title and leaving the editor by [Enter], [Escape]
    or a loss of focus calls no prop of the side bar: the chat, and with it
    every title of the collection and the stored item, are what they were.
    [Enter] and a loss of focus close the editor. *)
Theorem rename_changes_nothing (p : page) (es : list Sidebar.event) :
  forallb is_rename es = true ->
  chat (run_side p es) = chat p
  /\ map Conversation.title (App.conversations (app (chat (run_side p es))))
     = map Conversation.title (App.conversations (app (chat p)))
  /\ App.storage (app (chat (run_side p es))) = App.storage (app (chat p))
  /\ (forall c newTitle,
         Sidebar.renamingId
           (side (run_side (run_side p es)
                           [Sidebar.RenameChange newTitle;
                            Sidebar.RenameKey c (js "Enter")])) = None
         /\ Sidebar.renamingId
              (side (run_side (run_side p es)
                              [Sidebar.RenameChange newTitle; Sidebar.RenameBlur c])) = None
         /\ chat (run_side (run_side p es)
                           [Sidebar.RenameChange newTitle;
                            Sidebar.RenameKey c (js "Enter")]) = chat p).
Proof.
  intros H.
  assert (C : chat (run_side p es) = chat p).
  { revert p. induction es as [|e es IH]; intros p; [reflexivity|].
    simpl in H. apply andb_true_iff in H. destruct H as [He Hes].
    unfold run_side. simpl. fold (run_side (side_step p e) es).
    rewrite (IH Hes). now apply side_step_rename. }
  split; [exact C|]. rewrite C. split; [reflexivity|]. split; [reflexivity|].
  intros c newTitle. split; [reflexivity|]. split; [reflexivity|].
  unfold run_side at 1. cbn [fold_left].
  rewrite (proj1 (side_step_rename _ (Sidebar.RenameKey c (js "Enter")) eq_refl)).
  now rewrite (proj1 (side_step_rename _ (Sidebar.RenameChange newTitle) eq_refl)).
Qed.

Lemma rename_changes_nothing_witness :
  chat (run_side {| chat := {| app := Sample.browsing; input := []; outstanding := [] |};
                    side := Sidebar.initial; app_sidebarWidth := 256;
                    isSidebarCollapsed := false |}
                 [Sidebar.ClickMenu 1720000000900;
                  Sidebar.MenuRename 1720000000900 (js "How is tea processed?");
                  Sidebar.RenameChange (js "Tea"); Sidebar.RenameBlur 1720000000900])
  = {| app := Sample.browsing; input := []; outstanding := [] |}.
Proof.
  exact (proj1 (rename_changes_nothing
                  {| chat := {| app := Sample.browsing; input := []; outstanding := [] |};
                     side := Sidebar.initial; app_sidebarWidth := 256;
                     isSidebarCollapsed := false |}
                  [Sidebar.ClickMenu 1720000000900;
                   Sidebar.MenuRename 1720000000900 (js "How is tea processed?");
                   Sidebar.RenameChange (js "Tea"); Sidebar.RenameBlur 1720000000900]
                  eq_refl)).
Defined.

(** ** Invariants of the page *)

Lemma exchanges_app l l' : exchanges l -> exchanges l' -> exchanges (l ++ l').
Proof. induction 1; intros H'; simpl; [assumption | constructor; auto]. Qed.

Lemma exchanges_even l : exchanges l -> Nat.even (List.length l) = true.
Proof. induction 1; [reflexivity | assumption]. Qed.

Lemma Forall_remove_nth {A : Type} (P : A -> Prop) k (l : list A) :
  Forall P l -> Forall P (remove_nth k l).
Proof.
  intros H. revert k. induction H as [|x l Hx Hl IH]; intros [|k]; simpl; auto.
Qed.

Lemma exchange_ok rq answer :
  request_ok rq -> exchanges [App.userMsg rq; App.answered answer (App.loadingMsg rq)].
Proof.
  intros (Q & _ & U & M). constructor; [exact Q | | constructor].
  split; [exact U | split; [reflexivity | exact M]].
Qed.

Lemma well_formed_title c : well_formed c -> truthy_string (Conversation.title c) = true.
Proof.
  intros (E & _ & u & rest & M & T). rewrite T. rewrite M in E.
  inversion E as [|u' a l (_ & _ & _ & NE & _) _ _]; subst.
  destruct (Message.text u); [congruence | reflexivity].
Qed.

Lemma well_formed_extended rq answer conv :
  request_ok rq -> well_formed conv ->
  well_formed
    (Conversation.mk (Conversation.id conv)
       (or_string (Conversation.title conv) (slice0 50 (App.userMessage rq)))
       (Conversation.messages conv ++ [App.userMsg rq; App.answered answer (App.loadingMsg rq)])
       (Conversation.messageCount conv + 2)
       (Conversation.createdAt conv)).
Proof.
  intros R W. pose proof (well_formed_title conv W) as TT.
  destruct W as (E & C & u & rest & M & T).
  split; [|split]; cbn [Conversation.messages Conversation.messageCount Conversation.title].
  - apply exchanges_app; [exact E | now apply exchange_ok].
  - rewrite length_app, C. cbn [List.length]. lia.
  - exists u, (rest ++ [App.userMsg rq; App.answered answer (App.loadingMsg rq)]).
    split; [now rewrite M|]. now rewrite or_string_truthy.
Qed.

Lemma well_formed_created rq answer t3 :
  request_ok rq ->
  well_formed
    (Conversation.mk (now t3) (slice0 50 (App.userMessage rq))
       [App.userMsg rq; App.answered answer (App.loadingMsg rq)] 2 (iso t3)).
Proof.
  intros R. split; [now apply exchange_ok | split; [reflexivity|]].
  eexists _, _. split; [reflexivity|]. destruct R as (_ & T & _).
  cbn [Conversation.title]. now rewrite T.
Qed.

Lemma error_setConversations f st :
  App.error (App.setConversations f st) = App.error st.
Proof.
  unfold App.setConversations, App.save_effect. cbn [App.conversations].
  now destruct (0 <? _)%nat.
Qed.

Lemma selectedModel_setConversations f st :
  App.selectedModel (App.setConversations f st) = App.selectedModel st.
Proof.
  unfold App.setConversations, App.save_effect. cbn [App.conversations].
  now destruct (0 <? _)%nat.
Qed.

Lemma setConversations_stored (P : Conversation.t -> Prop) f st :
  Forall P (f (App.conversations st)) -> stored_all P (App.storage st) ->
  stored_all P (App.storage (App.setConversations f st)).
Proof.
  intros F S. unfold App.setConversations, App.save_effect. cbn [App.conversations].
  destruct (0 <? _)%nat; cbn; [|exact S].
  right. eexists. split; [reflexivity | exact F].
Qed.

(** A state that differs in other cells only. *)
Lemma sound_state_keep st st' :
  App.conversations st' = App.conversations st ->
  App.currentConversationId st' = App.currentConversationId st ->
  error_ok (App.error st') ->
  App.storage st' = App.storage st ->
  sound_state st -> sound_state st'.
Proof.
  intros C I E S (W & K & _ & T & Y). unfold sound_state, current_ok.
  rewrite C, I, S. repeat split; try assumption.
  revert Y. apply synced_keep; congruence.
Qed.

Lemma sound_state_frame st st' :
  App.conversations st' = App.conversations st ->
  App.currentConversationId st' = App.currentConversationId st ->
  App.error st' = App.error st ->
  App.storage st' = App.storage st ->
  sound_state st -> sound_state st'.
Proof.
  intros C I E S H. apply (sound_state_keep st); try assumption.
  rewrite E. now destruct H as (_ & _ & H & _).
Qed.

Lemma sound_setConversations f st :
  Forall well_formed (f (App.conversations st)) ->
  (forall c, App.currentConversationId st = Some c ->
             In c (map Conversation.id (f (App.conversations st)))) ->
  sound_state st -> sound_state (App.setConversations f st).
Proof.
  intros F K (_ & _ & E & T & _). unfold sound_state, current_ok.
  rewrite conversations_setConversations, current_setConversations, error_setConversations.
  split; [exact F|]. split.
  { destruct (App.currentConversationId st); [now apply K | exact I]. }
  split; [exact E|]. split; [now apply setConversations_stored|].
  apply setConversations_synced.
Qed.

Lemma map_id_extend (g : Conversation.t -> Conversation.t) (p : Conversation.t -> bool) l :
  (forall c, Conversation.id (g c) = Conversation.id c) ->
  map Conversation.id (map (fun c => if p c then g c else c) l) = map Conversation.id l.
Proof.
  intros G. rewrite map_map. apply map_ext. intros c. destruct (p c); [apply G | reflexivity].
Qed.

Lemma sound_on_response rq r t3 st :
  request_ok rq -> sound_state st -> sound_state (App.on_response rq r t3 st).
Proof.
  intros R S. unfold App.on_response. cbv zeta.
  set (st1 := App.setMessages _ st).
  assert (S1 : sound_state st1).
  { revert S. apply sound_state_frame; reflexivity. }
  clearbody st1.
  destruct (App.truthy_id (App.req_currentConversationId rq)).
  - apply sound_setConversations; [| |exact S1].
    + destruct S1 as (W & _). induction W as [|c l Wc Wl IH]; [constructor|].
      cbn [map]. constructor; [|exact IH].
      destruct (App.id_is _ _); [now apply well_formed_extended | exact Wc].
    + intros c Hc. destruct S1 as (_ & K & _). unfold current_ok in K. rewrite Hc in K.
      rewrite map_id_extend with (p := fun conv => App.id_is (Conversation.id conv)
                                                     (App.req_currentConversationId rq));
        [exact K | reflexivity].
  - set (new := Conversation.mk _ _ _ _ _).
    assert (S2 : sound_state (App.setConversations (fun prev => new :: prev) st1)).
    { apply sound_setConversations; [| |exact S1].
      - constructor; [now apply well_formed_created | now destruct S1].
      - intros c Hc. right. destruct S1 as (_ & K & _). unfold current_ok in K.
        now rewrite Hc in K. }
    destruct S2 as (W & _ & E & T & Y). unfold sound_state, current_ok.
    cbn [App.setCurrentConversationId App.conversations App.currentConversationId
         App.error App.storage].
    split; [exact W|]. split.
    { rewrite conversations_setConversations. left. reflexivity. }
    split; [exact E|]. split; [exact T|].
    revert Y. apply synced_keep; reflexivity.
Qed.

Lemma or_string_fallback message :
  exists c m, or_string message App.fallback_error = c :: m.
Proof.
  unfold or_string. destruct message as [|c m]; cbn [truthy_string].
  - now eexists _, _.
  - now exists c, m.
Qed.

Lemma sound_on_error rq message st :
  sound_state st -> sound_state (App.on_error rq message st).
Proof.
  apply sound_state_keep; try reflexivity.
  right. destruct (or_string_fallback message) as (c & m & E). exists c, m.
  cbn. now rewrite <- E.
Qed.

Lemma sound_settle rq s t3 st :
  request_ok rq -> sound_state st -> sound_state (App.handleSendMessage_settle rq s t3 st).
Proof.
  intros R S. unfold App.handleSendMessage_settle.
  assert (H : sound_state match s with
                          | Api.Returns r => App.on_response rq r t3 st
                          | Api.Throws message => App.on_error rq message st
                          end).
  { destruct s; [now apply sound_on_response | now apply sound_on_error]. }
  revert H. apply sound_state_frame; reflexivity.
Qed.

Lemma sound_start text t1 t2 st :
  sound_state st -> sound_state (fst (App.handleSendMessage_start text t1 t2 st)).
Proof. apply sound_state_keep; try reflexivity. now left. Qed.

Lemma request_start text t1 t2 st :
  text <> [] -> trim text = text ->
  request_ok (snd (App.handleSendMessage_start text t1 t2 st)).
Proof.
  intros NE T. split; [|split; [reflexivity | split; [reflexivity | discriminate]]].
  split; [reflexivity|]. split; [reflexivity|]. split; [reflexivity|].
  split; assumption.
Qed.

Lemma sound_send text t1 t2 w input' :
  text <> [] -> trim text = text -> sound w -> sound (send text t1 t2 w input').
Proof.
  intros NE T [S O]. unfold send.
  destruct (App.handleSendMessage_start text t1 t2 (app w)) as [st rq] eqn:E.
  split; cbn [app outstanding].
  - change st with (fst (st, rq)). rewrite <- E. now apply sound_start.
  - apply Forall_app. split; [exact O|]. constructor; [|constructor].
    change rq with (snd (st, rq)). rewrite <- E. now apply request_start.
Qed.

Lemma suggestions_trimmed s :
  In s App.suggestions -> s <> [] /\ trim s = s.
Proof.
  intros [<- | [<- | [<- | [<- | []]]]]; split; solve [discriminate | reflexivity].
Qed.

Lemma sound_newchat st :
  Forall well_formed (App.conversations st) ->
  stored_all well_formed (App.storage st) -> synced st ->
  sound_state (App.handleNewChat st).
Proof.
  intros W T Y. unfold sound_state, current_ok. cbn.
  repeat split; try assumption. now left.
Qed.

Lemma sound_select c st : sound_state st -> sound_state (App.handleSelectConversation c st).
Proof.
  intros S. unfold App.handleSelectConversation.
  destruct (find _ _) as [conversation|] eqn:F; [|exact S].
  apply find_some in F. destruct F as [I E]. apply Z.eqb_eq in E.
  destruct S as (W & _ & _ & T & Y). unfold sound_state, current_ok. cbn.
  split; [exact W|]. split; [|split; [now left | split; [exact T | exact Y]]].
  rewrite <- E. now apply in_map.
Qed.

Lemma well_formed_filter (p : Conversation.t -> bool) l :
  Forall well_formed l -> Forall well_formed (filter p l).
Proof.
  intros W. apply Forall_forall. intros x Hx. apply filter_In in Hx.
  rewrite Forall_forall in W. now apply W.
Qed.

Lemma sound_delete c st : sound_state st -> sound_state (App.handleDeleteConversation c st).
Proof.
  intros S. unfold App.handleDeleteConversation. cbv zeta.
  destruct (App.id_is c (App.currentConversationId st)) eqn:I.
  - destruct S as (W & _ & _ & T & _). apply sound_newchat.
    + rewrite conversations_setConversations. now apply well_formed_filter.
    + apply setConversations_stored; [now apply well_formed_filter | exact T].
    + apply setConversations_synced.
  - apply sound_setConversations; [| |exact S].
    + destruct S as (W & _). now apply well_formed_filter.
    + intros z Hz. destruct S as (_ & K & _). unfold current_ok in K. rewrite Hz in K.
      rewrite Hz in I. cbn in I. apply Z.eqb_neq in I.
      apply in_map_iff in K. destruct K as (x & Ex & Ix).
      apply in_map_iff. exists x. split; [exact Ex|]. apply filter_In. split; [exact Ix|].
      apply negb_true_iff, Z.eqb_neq. congruence.
Qed.

Lemma handleSubmit_text inp loading text input' :
  ChatInput.handleSubmit inp loading = (Some text, input') ->
  text <> [] /\ trim text = text.
Proof.
  unfold ChatInput.handleSubmit.
  destruct (truthy_string (trim inp)) eqn:T; cbn; [|discriminate].
  destruct loading; cbn; [discriminate|]. intros E. injection E as <- _.
  split; [|apply trim_idempotent]. intros Z. now rewrite Z in T.
Qed.

(** Every event keeps the page sound. *)
Lemma sound_step (w : world) (e : event) : sound w -> sound (step w e).
Proof.
  intros S. destruct e; unfold step.
  - exact S.
  - destruct (ChatInput.handleSubmit (input w) (App.isLoading (app w)))
      as [[text|] input'] eqn:H; [|exact S].
    apply handleSubmit_text in H. destruct H. now apply sound_send.
  - destruct (App.showWelcome (app w)); [|exact S].
    destruct (nth_error App.suggestions n) as [text|] eqn:N; [|exact S].
    apply nth_error_In, suggestions_trimmed in N. destruct N. now apply sound_send.
  - destruct S as [(W & _ & _ & T & Y) O]. split; [now apply sound_newchat | exact O].
  - destruct S as [S O]. split; [now apply sound_select | exact O].
  - destruct S as [S O]. split; [now apply sound_delete | exact O].
  - destruct S as [S O]. split; [|exact O]. revert S. apply sound_state_frame; reflexivity.
  - destruct (nth_error (outstanding w) k) as [rq|] eqn:N; [|exact S].
    destruct S as [S O]. split; cbn [app outstanding].
    + apply sound_settle; [|exact S]. rewrite Forall_forall in O.
      apply O. eapply nth_error_In. exact N.
    + now apply Forall_remove_nth.
Qed.

Lemma stored_mount (P : Conversation.t -> Prop) stored :
  stored_all P stored ->
  exists cs, Forall P cs
             /\ App.mount stored = App.Mounted (App.mk [] false None (js "gpt") cs None stored)
             /\ (cs = [] \/ stored = Some (stringify_conversations cs)).
Proof.
  intros [-> | (cs & -> & F)].
  - exists []. split; [constructor | split; [reflexivity | now left]].
  - exists cs. split; [exact F | split; [apply mount_stringify_conversations | now right]].
Qed.

Lemma sound_reload w st :
  sound w -> App.mount (App.storage (app w)) = App.Mounted st ->
  sound {| app := st; input := []; outstanding := [] |}.
Proof.
  intros [(_ & _ & _ & T & _) _] M.
  destruct (stored_mount _ _ T) as (cs & F & M' & Y). rewrite M' in M.
  injection M as <-. split; [|constructor].
  unfold sound_state, current_ok, synced. cbn.
  split; [exact F|]. split; [exact I|]. split; [now left|]. split; [exact T | exact Y].
Qed.

Lemma sound_fresh : sound fresh.
Proof.
  split; [|constructor]. unfold sound_state, current_ok, synced, stored_all, error_ok.
  cbn. repeat split; auto.
Qed.

(** The invariant of the pages that can be reached. *)
Lemma reachable_sound allowed w : reachable allowed w -> sound w.
Proof.
  induction 1 as [|w e _ IH _|w st _ IH M].
  - exact sound_fresh.
  - now apply sound_step.
  - now apply (sound_reload w).
Qed.

(** *** Models *)

Lemma models_state_keep st st' :
  App.selectedModel st' = App.selectedModel st ->
  (Forall model_known (App.messages st) -> Forall model_known (App.messages st')) ->
  App.conversations st' = App.conversations st ->
  App.storage st' = App.storage st ->
  models_state st -> models_state st'.
Proof.
  intros M L C S (HM & HL & HC & HS). unfold models_state. rewrite M, C, S. auto.
Qed.

Lemma models_setConversations f st :
  Forall models_known (f (App.conversations st)) ->
  models_state st -> models_state (App.setConversations f st).
Proof.
  intros F (M & L & _ & S). unfold models_state.
  rewrite selectedModel_setConversations, messages_setConversations,
    conversations_setConversations.
  split; [exact M|]. split; [exact L|]. split; [exact F|].
  now apply setConversations_stored.
Qed.

Lemma models_filter (p : Conversation.t -> bool) l :
  Forall models_known l -> Forall models_known (filter p l).
Proof.
  intros W. apply Forall_forall. intros x Hx. apply filter_In in Hx.
  rewrite Forall_forall in W. now apply W.
Qed.

Lemma model_known_answered answer m : model_known m -> model_known (App.answered answer m).
Proof. intros H. exact H. Qed.

Lemma models_start text t1 t2 st :
  models_state st ->
  models_state (fst (App.handleSendMessage_start text t1 t2 st))
  /\ models_request (snd (App.handleSendMessage_start text t1 t2 st)).
Proof.
  intros S. pose proof S as (M & L & _). split.
  - revert S. apply models_state_keep; try reflexivity. intros _. cbn.
    rewrite <- app_assoc. apply Forall_app. split; [exact L|].
    constructor; [exact I|]. constructor; [exact M | constructor].
  - split; [exact M | split; [exact I | exact M]].
Qed.

Lemma models_on_response rq r t3 st :
  models_request rq -> models_state st -> models_state (App.on_response rq r t3 st).
Proof.
  intros (RL & RU & _) S. unfold App.on_response. cbv zeta.
  set (st1 := App.setMessages _ st).
  assert (S1 : models_state st1).
  { revert S. apply models_state_keep; try reflexivity. intros L.
    cbn. apply Forall_forall. intros m Hm. apply in_map_iff in Hm.
    destruct Hm as (m0 & <- & Hm0). rewrite Forall_forall in L.
    destruct (_ =? _); [apply model_known_answered|]; now apply L. }
  clearbody st1.
  assert (X : Forall model_known
                     [App.userMsg rq; App.answered (Api.r_answer r) (App.loadingMsg rq)]).
  { constructor; [exact RU|]. constructor; [exact RL | constructor]. }
  destruct (App.truthy_id (App.req_currentConversationId rq)).
  - apply models_setConversations; [|exact S1].
    destruct S1 as (_ & _ & C & _). induction C as [|c l Hc Hl IH]; [constructor|].
    cbn [map]. constructor; [|exact IH].
    destruct (App.id_is _ _); [|exact Hc].
    unfold models_known. cbn. apply Forall_app. split; [exact Hc | exact X].
  - set (new := Conversation.mk _ _ _ _ _).
    assert (S2 : models_state (App.setConversations (fun prev => new :: prev) st1)).
    { apply models_setConversations; [|exact S1].
      constructor; [exact X | now destruct S1 as (_ & _ & C & _)]. }
    revert S2. apply models_state_keep; try reflexivity. auto.
Qed.

Lemma models_settle rq s t3 st :
  models_request rq -> models_state st ->
  models_state (App.handleSendMessage_settle rq s t3 st).
Proof.
  intros R S. unfold App.handleSendMessage_settle.
  assert (H : models_state match s with
                           | Api.Returns r => App.on_response rq r t3 st
                           | Api.Throws message => App.on_error rq message st
                           end).
  { destruct s; [now apply models_on_response|].
    revert S. apply models_state_keep; try reflexivity. intros L.
    cbn. apply Forall_forall. intros m Hm. apply filter_In in Hm.
    rewrite Forall_forall in L. now apply L. }
  revert H. apply models_state_keep; try reflexivity. auto.
Qed.

Lemma models_newchat st : models_state st -> models_state (App.handleNewChat st).
Proof. apply models_state_keep; try reflexivity. constructor. Qed.

Lemma models_select c st : models_state st -> models_state (App.handleSelectConversation c st).
Proof.
  intros S. unfold App.handleSelectConversation.
  destruct (find _ _) as [conversation|] eqn:F; [|exact S].
  apply find_some in F. destruct F as [I _].
  pose proof S as (_ & _ & C & _).
  revert S. apply models_state_keep; try reflexivity. intros _.
  rewrite Forall_forall in C. exact (C _ I).
Qed.

Lemma models_delete c st : models_state st -> models_state (App.handleDeleteConversation c st).
Proof.
  intros S. unfold App.handleDeleteConversation. cbv zeta.
  assert (H : models_state
                (App.setConversations
                   (filter (fun c0 => negb (Conversation.id c0 =? c))) st)).
  { apply models_setConversations; [|exact S]. apply models_filter. now destruct S as (_ & _ & C & _). }
  destruct (App.id_is c (App.currentConversationId st)); [now apply models_newchat | exact H].
Qed.

Lemma models_send text t1 t2 w input' :
  models_sound w -> models_sound (send text t1 t2 w input').
Proof.
  intros [S O]. unfold send.
  destruct (models_start text t1 t2 (app w) S) as [S' R].
  destruct (App.handleSendMessage_start text t1 t2 (app w)) as [st rq].
  split; cbn [app outstanding]; [exact S'|].
  apply Forall_app. split; [exact O | constructor; [exact R | constructor]].
Qed.

Lemma models_step (w : world) (e : event) :
  from_menu e = true -> models_sound w -> models_sound (step w e).
Proof.
  intros A S. destruct e; unfold step.
  - exact S.
  - destruct (ChatInput.handleSubmit (input w) (App.isLoading (app w)))
      as [[text|] input']; [|exact S]. now apply models_send.
  - destruct (App.showWelcome (app w)); [|exact S].
    destruct (nth_error App.suggestions n) as [text|]; [|exact S]. now apply models_send.
  - destruct S as [S O]. split; [now apply models_newchat | exact O].
  - destruct S as [S O]. split; [now apply models_select | exact O].
  - destruct S as [S O]. split; [now apply models_delete | exact O].
  - destruct S as [(M & L & C & T) O]. split; [|exact O].
    unfold models_state. cbn. auto.
  - destruct (nth_error (outstanding w) k) as [rq|] eqn:N; [|exact S].
    destruct S as [S O]. split; cbn [app outstanding].
    + apply models_settle; [|exact S]. rewrite Forall_forall in O.
      apply O. eapply nth_error_In. exact N.
    + now apply Forall_remove_nth.
Qed.

Lemma reachable_models w : reachable from_menu w -> models_sound w.
Proof.
  induction 1 as [|w e _ IH A|w st _ IH M].
  - split; [|constructor]. unfold models_state, stored_all. cbn.
    repeat split; auto.
  - now apply models_step.
  - destruct IH as [(_ & _ & _ & T) _].
    destruct (stored_mount _ _ T) as (cs & F & M' & _). rewrite M' in M.
    injection M as <-. split; [|constructor].
    unfold models_state. cbn. repeat split; auto.
Qed.

(** *** Requests *)

Lemma isLoading_settle rq s t3 st :
  App.isLoading (App.handleSendMessage_settle rq s t3 st) = false.
Proof. reflexivity. Qed.

Lemma reachable_run allowed (es : list event) (w : world) :
  forallb allowed es = true -> reachable allowed w -> reachable allowed (run w es).
Proof.
  revert w. induction es as [|e es IH]; intros w A R; [exact R|].
  cbn in A. apply andb_true_iff in A. destruct A as [Ae Aes].
  unfold run. cbn [fold_left]. apply IH; [exact Aes|]. now apply reach_step.
Qed.

Lemma loading_step (w : world) (e : event) :
  (App.isLoading (app w) = true -> outstanding w <> []) ->
  App.isLoading (app (step w e)) = true -> outstanding (step w e) <> [].
Proof.
  intros H. destruct e; unfold step.
  - exact H.
  - destruct (ChatInput.handleSubmit (input w) (App.isLoading (app w)))
      as [[text|] input']; [|exact H].
    intros _. unfold send. cbn. now destruct (outstanding w).
  - destruct (App.showWelcome (app w)); [|exact H].
    destruct (nth_error App.suggestions n) as [text|]; [|exact H].
    intros _. unfold send. cbn. now destruct (outstanding w).
  - exact H.
  - cbn [app outstanding]. now rewrite isLoading_handleSelectConversation.
  - cbn [app outstanding]. now rewrite isLoading_handleDeleteConversation.
  - exact H.
  - destruct (nth_error (outstanding w) k); [|exact H]. discriminate.
Qed.

(** ** What holds on every page *)

(** X10: the page can always be reloaded.  Whatever was done since the
    first visit, reloads included, the stored item is absent or is text the
    load effect parses into a list of conversations: [JSON.parse] does not
    throw on it.  The page that mounts has an empty active list, no current
    conversation and the model [gpt]; when the collection was not empty it
    comes back as it was. *)
Theorem reload_restores_collection (w : world) :
  reachable any_event w ->
  exists cs,
    App.mount (App.storage (app w))
    = App.Mounted (App.mk [] false None (js "gpt") cs None (App.storage (app w)))
    /\ (App.conversations (app w) <> [] -> cs = App.conversations (app w)).
Proof.
  intros R. apply reachable_sound in R. destruct R as [(_ & _ & _ & T & Y) _].
  destruct Y as [E | E].
  - destruct (stored_mount _ _ T) as (cs & _ & M & _). exists cs.
    split; [exact M | intros N; contradiction].
  - exists (App.conversations (app w)). rewrite E.
    split; [apply mount_stringify_conversations | reflexivity].
Qed.

Lemma reload_restores_collection_witness :
  exists cs,
    App.mount (App.storage (app (run fresh first_session)))
    = App.Mounted (App.mk [] false None (js "gpt") cs None
                          (App.storage (app (run fresh first_session))))
    /\ (App.conversations (app (run fresh first_session)) <> [] ->
        cs = App.conversations (app (run fresh first_session))).
Proof.
  apply (reload_restores_collection (run fresh first_session)).
  apply reachable_run; [reflexivity | apply reach_fresh].
Defined.

Lemma even_half n : Nat.even n = true -> 2 * (Z.of_nat n / 2) = Z.of_nat n.
Proof.
  intros E. apply Nat.even_spec in E. destruct E as [k ->].
  assert (H : Z.of_nat (2 * k) / 2 = Z.of_nat k).
  { symmetry. apply Z.div_unique_exact; lia. }
  rewrite H. lia.
Qed.

Lemma exchanges_resolved l :
  exchanges l ->
  Forall (fun m => Message.isTyping m <> Some true
                   /\ (Message.isUser m = false -> Message.modelId m <> None)) l.
Proof.
  induction 1 as [|u a l (U & _ & T & _) (_ & A & M) _ IH]; constructor.
  - rewrite T, U. split; discriminate.
  - constructor; [|exact IH]. rewrite A. split; [discriminate | auto].
Qed.

(** X11: the conversations of the collection are made of whole exchanges.
    On every page that can be reached, a conversation holds an even, non-zero
    number of messages, [messageCount] is that number, the first message is a
    question and the title is its first 50 code units; no message is
    pending and every answer names its model.  The side bar therefore
    shows the title itself, never the words New Conversation, and half the
    count is the number of exchanges. *)
Theorem conversations_hold_whole_exchanges (w : world) (c : Conversation.t) :
  reachable any_event w ->
  In c (App.conversations (app w)) ->
  Conversation.messageCount c = Z.of_nat (List.length (Conversation.messages c))
  /\ Nat.even (List.length (Conversation.messages c)) = true
  /\ (exists u rest, Conversation.messages c = u :: rest
                     /\ Message.isUser u = true
                     /\ Conversation.title c = slice0 50 (Message.text u))
  /\ Forall (fun m => Message.isTyping m <> Some true
                      /\ (Message.isUser m = false -> Message.modelId m <> None))
            (Conversation.messages c)
  /\ Sidebar.shown_title c = Conversation.title c
  /\ 2 * Sidebar.shown_exchanges c = Conversation.messageCount c.
Proof.
  intros R I. apply reachable_sound in R. destruct R as [(W & _) _].
  rewrite Forall_forall in W. specialize (W c I).
  pose proof (well_formed_title c W) as TT.
  destruct W as (E & C & u & rest & M & T).
  split; [exact C|]. split; [now apply exchanges_even|]. split; [|split; [|split]].
  - exists u, rest. split; [exact M|]. split; [|exact T].
    rewrite M in E. inversion E as [|u' a l (U & _) _ _]. exact U.
  - now apply exchanges_resolved.
  - unfold Sidebar.shown_title. now apply or_string_truthy.
  - unfold Sidebar.shown_exchanges. rewrite C. apply even_half. now apply exchanges_even.
Qed.

Lemma conversations_hold_whole_exchanges_witness :
  Conversation.messageCount first_conversation = 2
  /\ Sidebar.shown_title first_conversation = Sample.question
  /\ Sidebar.shown_exchanges first_conversation = 1.
Proof.
  assert (R : reachable any_event (run fresh first_session)).
  { apply reachable_run; [reflexivity | apply reach_fresh]. }
  assert (I : In first_conversation (App.conversations (app (run fresh first_session)))).
  { left. reflexivity. }
  destruct (conversations_hold_whole_exchanges _ _ R I) as (C & _ & _ & _ & T & X).
  split; [exact C|]. split; [exact T|].
  change (Conversation.messageCount first_conversation) with 2 in X. lia.
Defined.

(** X12: the current conversation is one of the collection, and it is
    stored.  When [currentConversationId] is set, [find] gets a conversation
    with that identifier from the collection, and the stored item is the
    serialization of the collection. *)
Theorem current_conversation_is_stored (w : world) (c : Z) :
  reachable any_event w ->
  App.currentConversationId (app w) = Some c ->
  (exists conv,
      find (fun x => Conversation.id x =? c) (App.conversations (app w)) = Some conv
      /\ Conversation.id conv = c
      /\ In conv (App.conversations (app w)))
  /\ App.storage (app w) = Some (stringify_conversations (App.conversations (app w))).
Proof.
  intros R H. apply reachable_sound in R. destruct R as [(_ & K & _ & _ & Y) _].
  unfold current_ok in K. rewrite H in K. split.
  - destruct (find (fun x => Conversation.id x =? c) (App.conversations (app w)))
      as [conv|] eqn:F.
    + exists conv. apply find_some in F. destruct F as [I E]. apply Z.eqb_eq in E. auto.
    + exfalso. apply in_map_iff in K. destruct K as (x & E & I).
      pose proof (find_none _ _ F x I) as N. cbn in N. apply Z.eqb_neq in N. contradiction.
  - destruct Y as [E | E]; [|exact E]. rewrite E in K. destruct K.
Qed.

Lemma current_conversation_is_stored_witness :
  App.storage (app (run fresh first_session))
  = Some (stringify_conversations [first_conversation]).
Proof.
  refine (proj2 (current_conversation_is_stored (run fresh first_session)
                   (now Sample.t2) _ eq_refl)).
  apply reachable_run; [reflexivity | apply reach_fresh].
Defined.

(** X13: the error is never the empty string, so the welcome screen is
    shown exactly when there is neither a message nor an error, and the
    error banner exactly when an error is set. *)
Theorem welcome_iff_nothing_to_show (w : world) :
  reachable any_event w ->
  App.error (app w) <> Some []
  /\ (App.showWelcome (app w) = true
      <-> App.messages (app w) = [] /\ App.error (app w) = None).
Proof.
  intros R. apply reachable_sound in R. destruct R as [(_ & _ & E & _) _].
  unfold App.showWelcome.
  destruct E as [-> | (c & m & ->)].
  - split; [discriminate|]. destruct (App.messages (app w)); split; intuition discriminate.
  - split; [discriminate|]. destruct (App.messages (app w)); cbn; split; intuition discriminate.
Qed.

Lemma welcome_iff_nothing_to_show_witness :
  App.showWelcome (app (run fresh [ChangeInput Sample.question;
                                   SubmitForm Sample.t0 Sample.t1;
                                   Settles 0 (Api.FetchRejects []) Sample.t2])) = false
  /\ App.error (app (run fresh [ChangeInput Sample.question;
                                SubmitForm Sample.t0 Sample.t1;
                                Settles 0 (Api.FetchRejects []) Sample.t2]))
     = Some App.fallback_error.
Proof.
  assert (R : reachable any_event
                (run fresh [ChangeInput Sample.question;
                            SubmitForm Sample.t0 Sample.t1;
                            Settles 0 (Api.FetchRejects []) Sample.t2])).
  { apply reachable_run; [reflexivity | apply reach_fresh]. }
  destruct (welcome_iff_nothing_to_show _ R) as [_ W].
  split; [|reflexivity].
  destruct (App.showWelcome _) eqn:S; [|reflexivity].
  destruct (proj1 W eq_refl) as [M _]. discriminate M.
Defined.

(** X14: while [isLoading] is set a call of [sendMessage] is outstanding:
    the flag is set only where a call is made and every call that settles
    clears it, so the input is never left disabled with nothing to wait
    for. *)
Theorem loading_means_call_outstanding (w : world) :
  reachable any_event w ->
  App.isLoading (app w) = true -> outstanding w <> [].
Proof.
  induction 1 as [|w e _ IH _|w st R IH M].
  - discriminate.
  - now apply loading_step.
  - apply reachable_sound in R. destruct R as [(_ & _ & _ & T & _) _].
    destruct (stored_mount _ _ T) as (cs & _ & M' & _). rewrite M' in M.
    injection M as <-. discriminate.
Qed.

Lemma loading_means_call_outstanding_witness :
  outstanding (run fresh [ChangeInput Sample.question; SubmitForm Sample.t0 Sample.t1])
  <> [].
Proof.
  apply loading_means_call_outstanding; [|reflexivity].
  apply reachable_run; [reflexivity | apply reach_fresh].
Defined.

Lemma offered_tables x :
  ModelSelector.offered x = true ->
  exists md,
    ModelSelector.selectedModelData x = Some md
    /\ ModelSelector.id md = x
    /\ Json.get x ChatMessage.MODEL_NAMES = Some (JString (ModelSelector.name md))
    /\ Json.get x ChatMessage.MODEL_COLORS = Some (JString (ModelSelector.color md)).
Proof.
  unfold ModelSelector.offered, ModelSelector.MODELS. cbn [existsb ModelSelector.id].
  rewrite !orb_true_iff, !jsstring_eqb_eq.
  intros [<- | [<- | [<- | [<- | H]]]]; try discriminate;
    eexists; (split; [reflexivity|]); repeat split.
Qed.

(** X15: every model the page names is one of the menu.  When the model
    is only changed through [ModelSelector], the selected model, the model
    of every message of the active list and of every stored conversation,
    and the model of every call in flight are identifiers of [MODELS]; for
    each of them [MODEL_NAMES] and [MODEL_COLORS] of [ChatMessage] have an
    entry, and it is the name and the color the menu shows. *)
Theorem model_names_known (w : world) :
  reachable from_menu w ->
  (exists md, ModelSelector.selectedModelData (App.selectedModel (app w)) = Some md)
  /\ (forall m x,
         In m (App.messages (app w))
         \/ (exists c, In c (App.conversations (app w)) /\ In m (Conversation.messages c)) ->
         Message.modelId m = Some x ->
         exists md,
           ModelSelector.selectedModelData x = Some md
           /\ Json.get x ChatMessage.MODEL_NAMES = Some (JString (ModelSelector.name md))
           /\ Json.get x ChatMessage.MODEL_COLORS = Some (JString (ModelSelector.color md)))
  /\ (forall rq, In rq (outstanding w) ->
                 ModelSelector.offered (App.req_selectedModel rq) = true).
Proof.
  intros R. apply reachable_models in R. destruct R as [(M & L & C & _) O].
  split; [|split].
  - destruct (offered_tables _ M) as (md & H & _). now exists md.
  - intros m x I E.
    assert (K : model_known m).
    { destruct I as [I | (c & Ic & Im)].
      - rewrite Forall_forall in L. now apply L.
      - rewrite Forall_forall in C. specialize (C c Ic). unfold models_known in C.
        rewrite Forall_forall in C. now apply C. }
    unfold model_known in K. rewrite E in K.
    destruct (offered_tables _ K) as (md & H1 & _ & H2 & H3). now exists md.
  - intros rq I. rewrite Forall_forall in O. now destruct (O rq I) as (_ & _ & H).
Qed.

Lemma model_names_known_witness :
  exists md,
    ModelSelector.selectedModelData (js "claude") = Some md
    /\ Json.get (js "claude") ChatMessage.MODEL_NAMES
       = Some (JString (ModelSelector.name md)).
Proof.
  assert (R : reachable from_menu
                (run fresh (ModelChange (js "claude") :: first_session))).
  { apply reachable_run; [reflexivity | apply reach_fresh]. }
  destruct (model_names_known _ R) as (_ & H & _).
  destruct (H (App.answered (Api.answer Sample.reply)
                 (loadingMsg_of Sample.t1 (App.setSelectedModel (js "claude")
                                                                (App.initial None))))
              (js "claude")) as (md & H1 & H2 & _).
  - left. right. left. reflexivity.
  - reflexivity.
  - exists md. split; assumption.
Defined.

(** ** Handlers one after the other *)

Lemma filter_idempotent {A : Type} (p : A -> bool) l : filter p (filter p l) = filter p l.
Proof.
  induction l as [|x l IH]; [reflexivity|]. cbn. destruct (p x) eqn:E; [|exact IH].
  cbn. now rewrite E, IH.
Qed.

Lemma find_filter_none c l :
  find (fun x => Conversation.id x =? c)
       (filter (fun x => negb (Conversation.id x =? c)) l) = None.
Proof.
  induction l as [|x l IH]; [reflexivity|]. cbn.
  destruct (Conversation.id x =? c) eqn:E; cbn; [exact IH|]. now rewrite E.
Qed.

Lemma save_effect_twice st : App.save_effect (App.save_effect st) = App.save_effect st.
Proof.
  destruct st as [ms ld er sm cs cur sto]. unfold App.save_effect.
  cbn [App.conversations]. destruct cs as [|c cs]; reflexivity.
Qed.

Lemma setConversations_handleNewChat f st :
  App.setConversations f (App.handleNewChat st)
  = App.handleNewChat (App.setConversations f st).
Proof.
  destruct st as [ms ld er sm cs cur sto].
  unfold App.setConversations, App.save_effect, App.handleNewChat.
  cbn [App.conversations App.setMessages App.setCurrentConversationId App.setError
       App.messages App.isLoading App.error App.selectedModel App.currentConversationId
       App.storage].
  destruct (f cs); reflexivity.
Qed.

Lemma state_eta (st : App.state) :
  App.mk (App.messages st) (App.isLoading st) (App.error st) (App.selectedModel st)
         (App.conversations st) (App.currentConversationId st) (App.storage st) = st.
Proof. now destruct st. Qed.

(** Writing again the collection a [setConversations] left changes
    nothing. *)
Lemma setConversations_again f g st :
  g (f (App.conversations st)) = f (App.conversations st) ->
  App.setConversations g (App.setConversations f st) = App.setConversations f st.
Proof.
  intros G. unfold App.setConversations at 1.
  rewrite conversations_setConversations, G.
  rewrite <- (conversations_setConversations f st), state_eta.
  unfold App.setConversations. apply save_effect_twice.
Qed.

(** X16: deleting a conversation twice is deleting it once, and selecting
    a conversation that was deleted does nothing: the state, the stored
    item included, is the one the first deletion left. *)
Theorem delete_is_idempotent (c : Z) (st : App.state) :
  App.handleDeleteConversation c (App.handleDeleteConversation c st)
  = App.handleDeleteConversation c st
  /\ App.handleSelectConversation c (App.handleDeleteConversation c st)
     = App.handleDeleteConversation c st.
Proof.
  set (p := fun x => negb (Conversation.id x =? c)).
  set (d := App.setConversations (filter p) st).
  assert (D : App.setConversations (filter p) d = d).
  { apply setConversations_again, filter_idempotent. }
  assert (F : forall s, App.conversations s = filter p (App.conversations st) ->
                        App.handleSelectConversation c s = s).
  { intros s E. unfold App.handleSelectConversation. rewrite E.
    unfold p. now rewrite find_filter_none. }
  assert (H : App.handleDeleteConversation c st
              = if App.id_is c (App.currentConversationId st)
                then App.handleNewChat d else d) by reflexivity.
  rewrite H. clear H.
  destruct (App.id_is c (App.currentConversationId st)) eqn:I.
  - split.
    + unfold App.handleDeleteConversation. cbv zeta. fold p.
      change (App.currentConversationId (App.handleNewChat d)) with (@None Z).
      cbn [App.id_is]. now rewrite setConversations_handleNewChat, D.
    + apply F. cbn. unfold d. apply conversations_setConversations.
  - split.
    + unfold App.handleDeleteConversation. cbv zeta. fold p. rewrite D.
      unfold d at 1. rewrite current_setConversations, I. reflexivity.
    + apply F. unfold d. apply conversations_setConversations.
Qed.

Lemma storage_setConversations f st :
  App.storage (App.setConversations f st) = App.storage st
  \/ (f (App.conversations st) <> []
      /\ App.storage (App.setConversations f st)
         = Some (stringify_conversations (f (App.conversations st)))).
Proof.
  unfold App.setConversations, App.save_effect. cbn [App.conversations].
  destruct (f (App.conversations st)); [left | right; split; [discriminate|]]; reflexivity.
Qed.

(** X17: the stored item is written by two events only, an answer that
    arrives and a deletion, and then only when the collection they leave is
    not empty; what is written is the serialization of that collection.
    Every other event, a failed call included, leaves the item alone. *)
Theorem storage_written_by_answer_or_delete (w : world) (e : event) :
  App.storage (app (step w e)) = App.storage (app w)
  \/ (((exists c, e = ClickDelete c)
       \/ (exists k body t3, e = Settles k (Api.ResponseOk (inr body)) t3))
      /\ App.conversations (app (step w e)) <> []
      /\ App.storage (app (step w e))
         = Some (stringify_conversations (App.conversations (app (step w e))))).
Proof.
  destruct e; unfold step.
  - now left.
  - left. destruct (ChatInput.handleSubmit _ _) as [[text|] input']; reflexivity.
  - left. destruct (App.showWelcome _); [|reflexivity].
    destruct (nth_error _ _); reflexivity.
  - now left.
  - left. cbn [app]. unfold App.handleSelectConversation. now destruct (find _ _).
  - cbn [app]. unfold App.handleDeleteConversation. cbv zeta.
    set (f := filter _).
    assert (H : forall s, App.conversations s = App.conversations (App.setConversations f (app w)) ->
                          App.storage s = App.storage (App.setConversations f (app w)) ->
                          App.storage s = App.storage (app w)
                          \/ (((exists c, ClickDelete conversationId = ClickDelete c)
                               \/ (exists k body t3,
                                      ClickDelete conversationId
                                      = Settles k (Api.ResponseOk (inr body)) t3))
                              /\ App.conversations s <> []
                              /\ App.storage s
                                 = Some (stringify_conversations (App.conversations s)))).
    { intros s C S. rewrite C, S, conversations_setConversations.
      destruct (storage_setConversations f (app w)) as [E | [N E]]; [now left | right].
      split; [left; now eexists | split; assumption]. }
    destruct (App.id_is _ _); apply H; reflexivity.
  - now left.
  - destruct (nth_error (outstanding w) k) as [rq|]; [|now left].
    cbn [app]. destruct o as [m | [m | body] | status errorData]; try (now left).
    cbn [Api.sendMessage]. unfold App.handleSendMessage_settle, App.on_response. cbv zeta.
    set (st1 := App.setMessages _ (app w)).
    destruct (App.truthy_id _).
    + set (f := map _).
      change (App.storage (App.setIsLoading false (App.setConversations f st1)))
        with (App.storage (App.setConversations f st1)).
      change (App.conversations (App.setIsLoading false (App.setConversations f st1)))
        with (App.conversations (App.setConversations f st1)).
      rewrite conversations_setConversations.
      destruct (storage_setConversations f st1) as [E | [N E]]; [now left | right].
      split; [right; now eexists _, _, _ | split; assumption].
    + set (f := fun prev => _ :: prev).
      change (App.storage (App.setIsLoading false
                (App.setCurrentConversationId _ (App.setConversations f st1))))
        with (App.storage (App.setConversations f st1)).
      change (App.conversations (App.setIsLoading false
                (App.setCurrentConversationId _ (App.setConversations f st1))))
        with (App.conversations (App.setConversations f st1)).
      rewrite conversations_setConversations.
      destruct (storage_setConversations f st1) as [E | [N E]]; [now left | right].
      split; [right; now eexists _, _, _ | split; assumption].
Qed.

(** A collection the item is in step with, written again as it is. *)
Lemma setConversations_fixed f st :
  synced st -> f (App.conversations st) = App.conversations st ->
  App.setConversations f st = st.
Proof.
  destruct st as [ms ld er sm cs cur sto]. unfold synced.
  cbn [App.conversations App.storage]. intros Y E.
  unfold App.setConversations, App.save_effect. cbn [App.conversations]. rewrite E.
  destruct Y as [-> | ->]; [reflexivity|]. now destruct cs.
Qed.

Lemma map_unless {A : Type} (p : A -> bool) (g : A -> A) l :
  (forall x, In x l -> p x = false) -> map (fun x => if p x then g x else x) l = l.
Proof.
  induction l as [|x l IH]; intros H; [reflexivity|]. cbn.
  rewrite (H x (or_introl eq_refl)), IH; [reflexivity|]. intros y Hy. apply H. now right.
Qed.

(** X18: the answer to a question of a conversation that was deleted
    while the call was outstanding is stored nowhere.  The continuation of
    [handleSendMessage] looks for the conversation it captured; when that
    one was deleted in between, the collection, the stored item and the
    current conversation are what the deletion left, and when the deleted
    conversation was the one shown the active list stays empty. *)
Theorem answer_to_deleted_conversation_is_lost
        (rq : App.request) (r : Api.response) (t3 : instant) (cid : Z) (st : App.state) :
  App.req_currentConversationId rq = Some cid -> cid <> 0 ->
  let st1 := App.handleDeleteConversation cid st in
  let st2 := App.handleSendMessage_settle rq (Api.Returns r) t3 st1 in
  App.conversations st2 = App.conversations st1
  /\ App.storage st2 = App.storage st1
  /\ App.currentConversationId st2 = App.currentConversationId st1
  /\ (App.currentConversationId st = Some cid -> App.messages st2 = []).
Proof.
  intros C NZ st1 st2.
  set (st1' := App.setMessages
                 (map (fun msg => if Message.id msg =? Message.id (App.loadingMsg rq)
                                  then App.answered (Api.r_answer r) msg else msg)) st1).
  assert (E : st2 = App.setIsLoading false st1').
  { subst st2. unfold App.handleSendMessage_settle, App.on_response. cbv zeta.
    fold st1'. rewrite C. cbn [App.truthy_id].
    apply Z.eqb_neq in NZ. rewrite NZ. cbn [negb].
    rewrite setConversations_fixed; [reflexivity | |].
    - apply (synced_keep st1); [reflexivity | reflexivity | apply delete_synced].
    - apply map_unless. intros x Hx.
      change (App.conversations st1') with (App.conversations st1) in Hx.
      assert (K : In x (filter (fun c => negb (Conversation.id c =? cid))
                               (App.conversations st))).
      { revert Hx. subst st1. unfold App.handleDeleteConversation. cbv zeta.
        destruct (App.id_is _ _);
          [change (App.conversations (App.handleNewChat ?s)) with (App.conversations s)|];
          now rewrite conversations_setConversations. }
      apply filter_In in K. destruct K as [_ K]. cbn [App.id_is].
      now apply negb_true_iff in K. }
  rewrite E. split; [reflexivity|]. split; [reflexivity|]. split; [reflexivity|].
  intros Cur. cbn [App.setIsLoading App.messages]. subst st1' st1.
  unfold App.handleDeleteConversation. cbv zeta. rewrite Cur. cbn [App.id_is].
  rewrite Z.eqb_refl. reflexivity.
Qed.

Lemma answer_to_deleted_conversation_is_lost_witness :
  App.conversations
    (App.handleSendMessage_settle
       (snd (App.handleSendMessage_start Sample.question Sample.t0 Sample.t1 Sample.browsing))
       (Api.Returns {| Api.r_answer := Api.answer Sample.reply;
                       Api.r_modelUsed := Api.model_used Sample.reply |})
       Sample.t2
       (App.handleDeleteConversation 1720000000900 Sample.browsing))
  = [Sample.ovaltine].
Proof.
  refine (proj1 (answer_to_deleted_conversation_is_lost
                   (snd (App.handleSendMessage_start Sample.question Sample.t0 Sample.t1
                                                     Sample.browsing))
                   _ Sample.t2 1720000000900 Sample.browsing eq_refl _)).
  discriminate.
Defined.

(** X19: New Chat does not detach a call in flight.  When the question
    was asked outside any conversation and New Chat is clicked before the
    answer arrives, the answer still creates a conversation and makes it
    current, while the active list stays empty and the welcome screen stays
    up; the next question is sent as a question of that conversation. *)
Theorem answer_after_new_chat
        (rq : App.request) (r : Api.response) (t3 : instant) (st : App.state) :
  App.truthy_id (App.req_currentConversationId rq) = false ->
  let st2 := App.handleSendMessage_settle rq (Api.Returns r) t3 (App.handleNewChat st) in
  App.messages st2 = []
  /\ App.showWelcome st2 = true
  /\ App.currentConversationId st2 = Some (now t3)
  /\ (exists conv,
         App.conversations st2 = conv :: App.conversations st
         /\ Conversation.id conv = now t3
         /\ Conversation.messages conv
            = [App.userMsg rq; App.answered (Api.r_answer r) (App.loadingMsg rq)])
  /\ (forall text t1 t2,
         App.req_currentConversationId (snd (App.handleSendMessage_start text t1 t2 st2))
         = Some (now t3)).
Proof.
  intros F st2. subst st2. unfold App.handleSendMessage_settle, App.on_response.
  cbv zeta. rewrite F.
  set (st1 := App.setMessages _ (App.handleNewChat st)).
  set (f := fun prev => _ :: prev).
  assert (M : App.messages (App.setConversations f st1) = []).
  { now rewrite messages_setConversations. }
  assert (E : App.error (App.setConversations f st1) = None).
  { now rewrite error_setConversations. }
  split; [exact M|]. split.
  { assert (W : forall s, App.messages s = [] -> App.error s = None ->
                            App.showWelcome s = true).
    { intros s Hm He. unfold App.showWelcome. now rewrite Hm, He. }
    apply W; [exact M | exact E]. }
  split; [reflexivity|]. split; [|reflexivity].
  exists (Conversation.mk (now t3) (slice0 50 (App.userMessage rq))
            [App.userMsg rq; App.answered (Api.r_answer r) (App.loadingMsg rq)] 2 (iso t3)).
  split; [|split; reflexivity].
  transitivity (App.conversations (App.setConversations f st1)); [reflexivity|].
  now rewrite conversations_setConversations.
Qed.

Lemma answer_after_new_chat_witness :
  App.showWelcome
    (App.handleSendMessage_settle
       (snd (App.handleSendMessage_start Sample.question Sample.t0 Sample.t1
                                         (App.initial None)))
       (Api.Returns {| Api.r_answer := Api.answer Sample.reply;
                       Api.r_modelUsed := Api.model_used Sample.reply |})
       Sample.t2
       (App.handleNewChat
          (fst (App.handleSendMessage_start Sample.question Sample.t0 Sample.t1
                                            (App.initial None))))) = true.
Proof.
  refine (proj1 (proj2 (answer_after_new_chat
                          (snd (App.handleSendMessage_start Sample.question Sample.t0
                                                            Sample.t1 (App.initial None)))
                          _ Sample.t2 _ eq_refl))).
Defined.
